(** * pdfminer.pdfinterp: the content-stream interpreter

    A shallow embedding of [src/pdfminer/pdfinterp.py]: the operand objects,
    the text and graphic states, the inline-image reader of
    [PDFContentParser], the operator handlers of [PDFPageInterpreter] and the
    dispatch loop [execute], followed by the properties proved about them.

    Conventions of the embedding.
    - A Python [int] is a [Z]. A Python [float] is an IEEE 754 binary64
      value: Rocq's primitive [float], with its own sum, product and
      comparison. [float(n)] of an [int] is the nearest float, ties to even,
      and raises [OverflowError] beyond the largest float.
    - Python [bytes] and [str] are [string]s (lists of 8-bit characters).
    - A Python [dict] is an association list in insertion order.
    - A raised exception is the outcome [Raise e]; the state of the
      interpreter at that moment is dropped, as the exception leaves
      [execute].
    - The device is external: the interpreter state carries the list of the
      calls made to it so far, each with its arguments as they are at the
      moment of the call.
    - A Python [list] that is appended to ([gstack], [argstack], [curpath])
      grows at its end here as well. *)

From Stdlib Require Import Floats.
From Stdlib Require Import ZArith List String Ascii Bool Lia.
Import ListNotations.
Local Open Scope string_scope.
Local Open Scope Z_scope.

Set Implicit Arguments.
Set Warnings "-register-all".

(** ** Outcomes *)

(** The exceptions the module raises or lets through. *)
Inductive exn : Type :=
| PSEOF
| PSTypeError
| PDFTypeError
| PDFValueError (msg : string)
| PDFInterpreterError (msg : string)
| PDFFontError (msg : string)
| KeyError
| IndexError
| TypeError
| ValueError
| AttributeError
| AssertionError
| OverflowError.

(** The outcome of a call: a value, a raised exception, or the recursion
    bound of the embedding exhausted (Python would keep recursing). *)
Inductive Exc (A : Type) : Type :=
| Ok (a : A)
| Raise (e : exn)
| OutOfFuel.

Arguments Ok {A} a.
Arguments Raise {A} e.
Arguments OutOfFuel {A}.

Definition bind {A B : Type} (m : Exc A) (k : A -> Exc B) : Exc B :=
  match m with
  | Ok a => k a
  | Raise e => Raise e
  | OutOfFuel => OutOfFuel
  end.

Notation "x <- m ;; k" := (bind m (fun x => k))
  (at level 61, m at next level, right associativity).
Notation "' pat <- m ;; k" := (bind m (fun x => match x with pat => k end))
  (at level 61, pat pattern, m at next level, right associativity).

(** ** Operand objects: [PDFStackT] *)

(** What the parser yields.  [OLit] is a [PSLiteral], [OKwd] a [PSKeyword]
    (an operator), [OArr] a Python list (and the few tuples that are used as
    sequences), [ORef] a [PDFObjRef]. *)
Inductive PDFObj : Type :=
| ONone
| OBool (b : bool)
| OInt (z : Z)
| OReal (q : float)
| OBytes (s : string)
| OLit (name : string)
| OKwd (name : string)
| OArr (items : list PDFObj)
| ODict (entries : list (string * PDFObj))
| OStream (attrs : list (string * PDFObj)) (rawdata : string)
| ORef (objid : Z).

(** A [PDFStream] object: its attribute dictionary and its data. *)
Record PDFStream : Type := mkStream {
  attrs : list (string * PDFObj);
  rawdata : string
}.

Definition stream_obj (s : PDFStream) : PDFObj := OStream (attrs s) (rawdata s).

(** *** Python dictionaries *)

Section Dict.
Variable V : Type.

(** [d.get(k)] *)
Fixpoint dict_get (k : string) (d : list (string * V)) : option V :=
  match d with
  | [] => None
  | (k', v) :: d' => if String.eqb k k' then Some v else dict_get k d'
  end.

(** [d[k] = v]: an existing key keeps its place, a new one goes last. *)
Fixpoint dict_set (k : string) (v : V) (d : list (string * V))
  : list (string * V) :=
  match d with
  | [] => [(k, v)]
  | (k', v') :: d' =>
      if String.eqb k k' then (k', v) :: d' else (k', v') :: dict_set k v d'
  end.

(** [d[k]] *)
Definition dict_getitem (k : string) (d : list (string * V)) : Exc V :=
  match dict_get k d with
  | Some v => Ok v
  | None => Raise KeyError
  end.

(** [k in d] *)
Definition dict_contains (k : string) (d : list (string * V)) : bool :=
  match dict_get k d with Some _ => true | None => false end.
End Dict.

(** *** Python numbers *)

(** A number as Python sees it: [int] or [float]. *)
Inductive num : Type :=
| NInt (z : Z)
| NReal (x : float).

(** [float(z)] of an [int]: the nearest float, ties to even, and
    [OverflowError] when that is beyond the largest float. *)
Definition py_float (z : Z) : Exc float :=
  match binary_normalize prec emax z 0 false with
  | S754_infinity _ => Raise OverflowError
  | x => Ok (SF2Prim x)
  end.

(** The float of a number, as the arithmetic of a [float] with an [int]
    takes it. *)
Definition to_float (n : num) : Exc float :=
  match n with
  | NInt z => py_float z
  | NReal x => Ok x
  end.

(** [x + y]: exact on two [int]s, the sum of the floats otherwise. *)
Definition num_add (x y : num) : Exc num :=
  match x, y with
  | NInt a, NInt b => Ok (NInt (a + b))
  | _, _ => a <- to_float x ;; b <- to_float y ;; Ok (NReal (a + b)%float)
  end.

(** [x * y] *)
Definition num_mul (x y : num) : Exc num :=
  match x, y with
  | NInt a, NInt b => Ok (NInt (a * b))
  | _, _ => a <- to_float x ;; b <- to_float y ;; Ok (NReal (a * b)%float)
  end.

Definition num_neg (x : num) : num :=
  match x with
  | NInt a => NInt (- a)
  | NReal q => NReal (- q)%float
  end.

Definition of_num (n : num) : PDFObj :=
  match n with
  | NInt z => OInt z
  | NReal q => OReal q
  end.

(** The numeric reading of an object; [bool] is a subclass of [int]. *)
Definition as_num (o : PDFObj) : option num :=
  match o with
  | OInt z => Some (NInt z)
  | OReal q => Some (NReal q)
  | OBool b => Some (NInt (if b then 1 else 0))
  | _ => None
  end.

(** An object usable as a repetition count or an index ([int], [bool]). *)
Definition as_int (o : PDFObj) : option Z :=
  match o with
  | OInt z => Some z
  | OBool b => Some (if b then 1 else 0)
  | _ => None
  end.

Fixpoint repeat_string (n : nat) (s : string) : string :=
  match n with
  | O => EmptyString
  | S n' => s ++ repeat_string n' s
  end.

Fixpoint repeat_list {A : Type} (n : nat) (l : list A) : list A :=
  match n with
  | O => []
  | S n' => l ++ repeat_list n' l
  end.

(** [x + y] *)
Definition py_add (x y : PDFObj) : Exc PDFObj :=
  match as_num x, as_num y with
  | Some a, Some b => n <- num_add a b ;; Ok (of_num n)
  | _, _ =>
      match x, y with
      | OBytes s, OBytes t => Ok (OBytes (s ++ t))
      | OArr l, OArr m => Ok (OArr (l ++ m))
      | _, _ => Raise TypeError
      end
  end.

(** [s * n] for a sequence [s]. *)
Definition py_repeat (s : PDFObj) (n : Z) : Exc PDFObj :=
  match s with
  | OBytes b => Ok (OBytes (repeat_string (Z.to_nat n) b))
  | OArr l => Ok (OArr (repeat_list (Z.to_nat n) l))
  | _ => Raise TypeError
  end.

(** [x * y] *)
Definition py_mul (x y : PDFObj) : Exc PDFObj :=
  match as_num x, as_num y with
  | Some a, Some b => n <- num_mul a b ;; Ok (of_num n)
  | _, _ =>
      match as_int x, as_int y with
      | Some n, None => py_repeat y n
      | None, Some n => py_repeat x n
      | _, _ => Raise TypeError
      end
  end.

(** [-x] *)
Definition py_neg (x : PDFObj) : Exc PDFObj :=
  match as_num x with
  | Some a => Ok (of_num (num_neg a))
  | None => Raise TypeError
  end.

(** [bool(x)]: the truth value of an object.  Literals, streams and
    references are plain objects and always true. *)
Definition py_truthy (x : PDFObj) : bool :=
  match x with
  | ONone => false
  | OBool b => b
  | OInt z => negb (z =? 0)
  | OReal q => negb (q =? 0)%float
  | OBytes s => negb (String.eqb s EmptyString)
  | OLit _ => true
  | OKwd _ => true
  | OArr l => match l with [] => false | _ => true end
  | ODict d => match d with [] => false | _ => true end
  | OStream _ _ => true
  | ORef _ => true
  end.

(** ** Geometry *)

(** [Matrix]: the 6-tuple [(a, b, c, d, e, f)].  Its entries are operands
    stored as they come ([cast] does nothing at run time). *)
Definition Matrix : Type :=
  (PDFObj * PDFObj * PDFObj * PDFObj * PDFObj * PDFObj)%type.

Definition Point : Type := (PDFObj * PDFObj)%type.

(** [PathSegment]: the tuples [("m", x, y)], [("l", x, y)],
    [("c", x1, y1, x2, y2, x3, y3)], [("v", x2, y2, x3, y3)],
    [("y", x1, y1, x3, y3)] and [("h",)]. *)
Inductive PathSegment : Type :=
| Seg_m (x y : PDFObj)
| Seg_l (x y : PDFObj)
| Seg_c (x1 y1 x2 y2 x3 y3 : PDFObj)
| Seg_v (x2 y2 x3 y3 : PDFObj)
| Seg_y (x1 y1 x3 y3 : PDFObj)
| Seg_h.

Definition matrix_list (m : Matrix) : list PDFObj :=
  let '(a, b, c, d, e, f) := m in [a; b; c; d; e; f].

(** Modelled from the spec: [pdfminer.utils.MATRIX_IDENTITY] is not among
    the sources; section 3 gives the identity as [(1,0,0,1,0,0)]. *)
Definition MATRIX_IDENTITY : Matrix :=
  (OInt 1, OInt 0, OInt 0, OInt 1, OInt 0, OInt 0).

(** Modelled from the spec: [pdfminer.utils.mult_matrix] is not among the
    sources.  Section 3: [mult(P, Q)] is the matrix that first applies [P]
    and then [Q], a matrix [(a,b,c,d,e,f)] mapping [(x, y)] to
    [(a x + c y + e, b x + d y + f)].  Both arguments are unpacked into six
    entries (a sequence of another length raises [ValueError]). *)
Definition mult_matrix (m1 m0 : list PDFObj) : Exc Matrix :=
  match m1, m0 with
  | [a1; b1; c1; d1; e1; f1], [a0; b0; c0; d0; e0; f0] =>
      t1 <- py_mul a0 a1 ;; t2 <- py_mul c0 b1 ;; a <- py_add t1 t2 ;;
      t1 <- py_mul b0 a1 ;; t2 <- py_mul d0 b1 ;; b <- py_add t1 t2 ;;
      t1 <- py_mul a0 c1 ;; t2 <- py_mul c0 d1 ;; c <- py_add t1 t2 ;;
      t1 <- py_mul b0 c1 ;; t2 <- py_mul d0 d1 ;; d <- py_add t1 t2 ;;
      t1 <- py_mul a0 e1 ;; t2 <- py_mul c0 f1 ;; t3 <- py_add t1 t2 ;;
      e <- py_add t3 e0 ;;
      t1 <- py_mul b0 e1 ;; t2 <- py_mul d0 f1 ;; t3 <- py_add t1 t2 ;;
      f <- py_add t3 f0 ;;
      Ok (a, b, c, d, e, f)
  | _, _ => Raise ValueError
  end.

(** Modelled from the spec: [pdfminer.casting.safe_float] is not among the
    sources.  Section 4.7: an invalid numeric operand makes [Td]/[TD] a
    no-op; a numeric operand is used as the number it is, [float(o)], which
    for an [int] beyond the largest float raises [OverflowError]. *)
Definition safe_float (o : PDFObj) : Exc (option PDFObj) :=
  match o with
  | OInt z => x <- py_float z ;; Ok (Some (OReal x))
  | OReal q => Ok (Some (OReal q))
  | _ => Ok None
  end.

(** ** Fonts and color spaces *)

(** A font object, named by the class that built it and the spec it was
    built from; the font classes themselves ([pdfminer.pdffont]) are
    external. *)
Inductive PDFFont : Type :=
| PDFType1Font (spec : list (string * PDFObj))
| PDFTrueTypeFont (spec : list (string * PDFObj))
| PDFType3Font (spec : list (string * PDFObj))
| PDFCIDFont (spec : list (string * PDFObj)).

(** [PDFColorSpace(name, ncomponents)]: a plain object, true in a test. *)
Record PDFColorSpace : Type := mkColorSpace {
  cs_name : string;
  ncomponents : PDFObj
}.

(** [Color]: a gray level, an RGB or CMYK tuple, or the list [pop(n)]
    returns. *)
Inductive Color : Type :=
| ColorGray (g : PDFObj)
| ColorTuple (components : list PDFObj)
| ColorList (components : list PDFObj).

(** ** [PDFTextState] *)

Record PDFTextState : Type := mkTextState {
  font : option PDFFont;
  fontsize : PDFObj;
  charspace : PDFObj;
  wordspace : PDFObj;
  scaling : PDFObj;
  leading : PDFObj;
  render : PDFObj;
  rise : PDFObj;
  matrix : Matrix;
  linematrix : Point
}.

(** [PDFTextState()]: the defaults of [__init__], then [reset()]. *)
Definition PDFTextState_init : PDFTextState :=
  {| font := None; fontsize := OInt 0; charspace := OInt 0;
     wordspace := OInt 0; scaling := OInt 100; leading := OInt 0;
     render := OInt 0; rise := OInt 0;
     matrix := MATRIX_IDENTITY; linematrix := (OInt 0, OInt 0) |}.

(** [PDFTextState.copy] *)
Definition PDFTextState_copy (self : PDFTextState) : PDFTextState :=
  let obj := PDFTextState_init in
  {| font := font self; fontsize := fontsize self;
     charspace := charspace self; wordspace := wordspace self;
     scaling := scaling self; leading := leading self;
     render := render self; rise := rise self;
     matrix := matrix self; linematrix := linematrix self |}.

Definition set_font (v : option PDFFont) (t : PDFTextState) : PDFTextState :=
  {| font := v; fontsize := fontsize t; charspace := charspace t;
     wordspace := wordspace t; scaling := scaling t; leading := leading t;
     render := render t; rise := rise t; matrix := matrix t;
     linematrix := linematrix t |}.

Definition set_fontsize (v : PDFObj) (t : PDFTextState) : PDFTextState :=
  {| font := font t; fontsize := v; charspace := charspace t;
     wordspace := wordspace t; scaling := scaling t; leading := leading t;
     render := render t; rise := rise t; matrix := matrix t;
     linematrix := linematrix t |}.

Definition set_charspace (v : PDFObj) (t : PDFTextState) : PDFTextState :=
  {| font := font t; fontsize := fontsize t; charspace := v;
     wordspace := wordspace t; scaling := scaling t; leading := leading t;
     render := render t; rise := rise t; matrix := matrix t;
     linematrix := linematrix t |}.

Definition set_wordspace (v : PDFObj) (t : PDFTextState) : PDFTextState :=
  {| font := font t; fontsize := fontsize t; charspace := charspace t;
     wordspace := v; scaling := scaling t; leading := leading t;
     render := render t; rise := rise t; matrix := matrix t;
     linematrix := linematrix t |}.

Definition set_scaling (v : PDFObj) (t : PDFTextState) : PDFTextState :=
  {| font := font t; fontsize := fontsize t; charspace := charspace t;
     wordspace := wordspace t; scaling := v; leading := leading t;
     render := render t; rise := rise t; matrix := matrix t;
     linematrix := linematrix t |}.

Definition set_leading (v : PDFObj) (t : PDFTextState) : PDFTextState :=
  {| font := font t; fontsize := fontsize t; charspace := charspace t;
     wordspace := wordspace t; scaling := scaling t; leading := v;
     render := render t; rise := rise t; matrix := matrix t;
     linematrix := linematrix t |}.

Definition set_render (v : PDFObj) (t : PDFTextState) : PDFTextState :=
  {| font := font t; fontsize := fontsize t; charspace := charspace t;
     wordspace := wordspace t; scaling := scaling t; leading := leading t;
     render := v; rise := rise t; matrix := matrix t;
     linematrix := linematrix t |}.

Definition set_rise (v : PDFObj) (t : PDFTextState) : PDFTextState :=
  {| font := font t; fontsize := fontsize t; charspace := charspace t;
     wordspace := wordspace t; scaling := scaling t; leading := leading t;
     render := render t; rise := v; matrix := matrix t;
     linematrix := linematrix t |}.

Definition set_matrix (v : Matrix) (t : PDFTextState) : PDFTextState :=
  {| font := font t; fontsize := fontsize t; charspace := charspace t;
     wordspace := wordspace t; scaling := scaling t; leading := leading t;
     render := render t; rise := rise t; matrix := v;
     linematrix := linematrix t |}.

Definition set_linematrix (v : Point) (t : PDFTextState) : PDFTextState :=
  {| font := font t; fontsize := fontsize t; charspace := charspace t;
     wordspace := wordspace t; scaling := scaling t; leading := leading t;
     render := render t; rise := rise t; matrix := matrix t;
     linematrix := v |}.

(** [PDFTextState.reset] *)
Definition PDFTextState_reset (self : PDFTextState) : PDFTextState :=
  set_linematrix (OInt 0, OInt 0) (set_matrix MATRIX_IDENTITY self).

(** ** [PDFGraphicState] *)

Record PDFGraphicState : Type := mkGraphicState {
  linewidth : PDFObj;
  linecap : PDFObj;
  linejoin : PDFObj;
  miterlimit : PDFObj;
  dash : option (PDFObj * PDFObj);
  intent : PDFObj;
  flatness : PDFObj;
  scolor : option Color;
  ncolor : option Color
}.

(** [PDFGraphicState()] *)
Definition PDFGraphicState_init : PDFGraphicState :=
  {| linewidth := OInt 0; linecap := ONone; linejoin := ONone;
     miterlimit := ONone; dash := None; intent := ONone; flatness := ONone;
     scolor := None; ncolor := None |}.

(** [PDFGraphicState.copy] *)
Definition PDFGraphicState_copy (self : PDFGraphicState) : PDFGraphicState :=
  let obj := PDFGraphicState_init in
  {| linewidth := linewidth self; linecap := linecap self;
     linejoin := linejoin self; miterlimit := miterlimit self;
     dash := dash self; intent := intent self; flatness := flatness self;
     scolor := scolor self; ncolor := ncolor self |}.

Definition set_linewidth (v : PDFObj) (g : PDFGraphicState) :=
  {| linewidth := v; linecap := linecap g; linejoin := linejoin g;
     miterlimit := miterlimit g; dash := dash g; intent := intent g;
     flatness := flatness g; scolor := scolor g; ncolor := ncolor g |}.

Definition set_linecap (v : PDFObj) (g : PDFGraphicState) :=
  {| linewidth := linewidth g; linecap := v; linejoin := linejoin g;
     miterlimit := miterlimit g; dash := dash g; intent := intent g;
     flatness := flatness g; scolor := scolor g; ncolor := ncolor g |}.

Definition set_linejoin (v : PDFObj) (g : PDFGraphicState) :=
  {| linewidth := linewidth g; linecap := linecap g; linejoin := v;
     miterlimit := miterlimit g; dash := dash g; intent := intent g;
     flatness := flatness g; scolor := scolor g; ncolor := ncolor g |}.

Definition set_miterlimit (v : PDFObj) (g : PDFGraphicState) :=
  {| linewidth := linewidth g; linecap := linecap g; linejoin := linejoin g;
     miterlimit := v; dash := dash g; intent := intent g;
     flatness := flatness g; scolor := scolor g; ncolor := ncolor g |}.

Definition set_dash (v : option (PDFObj * PDFObj)) (g : PDFGraphicState) :=
  {| linewidth := linewidth g; linecap := linecap g; linejoin := linejoin g;
     miterlimit := miterlimit g; dash := v; intent := intent g;
     flatness := flatness g; scolor := scolor g; ncolor := ncolor g |}.

Definition set_intent (v : PDFObj) (g : PDFGraphicState) :=
  {| linewidth := linewidth g; linecap := linecap g; linejoin := linejoin g;
     miterlimit := miterlimit g; dash := dash g; intent := v;
     flatness := flatness g; scolor := scolor g; ncolor := ncolor g |}.

Definition set_flatness (v : PDFObj) (g : PDFGraphicState) :=
  {| linewidth := linewidth g; linecap := linecap g; linejoin := linejoin g;
     miterlimit := miterlimit g; dash := dash g; intent := intent g;
     flatness := v; scolor := scolor g; ncolor := ncolor g |}.

Definition set_scolor (v : option Color) (g : PDFGraphicState) :=
  {| linewidth := linewidth g; linecap := linecap g; linejoin := linejoin g;
     miterlimit := miterlimit g; dash := dash g; intent := intent g;
     flatness := flatness g; scolor := v; ncolor := ncolor g |}.

Definition set_ncolor (v : option Color) (g : PDFGraphicState) :=
  {| linewidth := linewidth g; linecap := linecap g; linejoin := linejoin g;
     miterlimit := miterlimit g; dash := dash g; intent := intent g;
     flatness := flatness g; scolor := scolor g; ncolor := v |}.

(** ** The device and the resource manager *)

(** The name given to a figure: an XObject id, or [str(id(obj))] of an
    inline image, which stands for the identity of that object. *)
Inductive FigName : Type :=
| FigStr (xobjid : string)
| FigId (obj : PDFStream).

(** A [PDFPage], as far as [process_page] reads it. *)
Record PDFPage : Type := mkPage {
  mediabox : PDFObj * PDFObj * PDFObj * PDFObj;
  rotate : PDFObj;
  page_resources : PDFObj;
  contents : PDFObj
}.

(** One call to the [PDFDevice]. *)
Inductive DeviceCall : Type :=
| set_ctm (m : Matrix)
| begin_page (page : PDFPage) (m : Matrix)
| end_page (page : PDFPage)
| begin_figure (name : FigName) (bbox : list PDFObj) (m : list PDFObj)
| end_figure (name : FigName)
| paint_path (gs : PDFGraphicState) (stroke fill evenodd : bool)
    (path : list PathSegment)
| render_string (ts : PDFTextState) (seq : PDFObj) (cs : PDFColorSpace)
    (gs : PDFGraphicState) (instruction_index : PDFObj)
| render_image (name : FigName) (stream : PDFStream)
| do_tag (tag : PDFObj) (props : option PDFObj)
| begin_tag (tag : PDFObj) (props : option PDFObj)
| end_tag.

(** [PDFResourceManager]: the caching flag and the font cache, keyed by
    object id. *)
Record PDFResourceManager : Type := mkResourceManager {
  caching : bool;
  _cached_fonts : list (Z * PDFFont)
}.

Fixpoint cache_get (k : Z) (d : list (Z * PDFFont)) : option PDFFont :=
  match d with
  | [] => None
  | (k', v) :: d' => if k =? k' then Some v else cache_get k d'
  end.

Fixpoint cache_set (k : Z) (v : PDFFont) (d : list (Z * PDFFont))
  : list (Z * PDFFont) :=
  match d with
  | [] => [(k, v)]
  | (k', v') :: d' =>
      if k =? k' then (k', v) :: d' else (k', v') :: cache_set k v d'
  end.

(** ** What the module imports *)

(** The functions and tables of [pdfminer.settings], [pdfminer.pdfcolor],
    [pdfminer.pdftypes] and [pdfminer.psparser] that the module uses and
    that are not among the sources.  [nextobjects streams] is the sequence
    of the entries [PDFContentParser(streams).nextobject()] returns, each
    [(pos, obj)] or [(pos, obj, instruction_index)], and how the sequence
    ends: [None] for [PSEOF], [Some e] for another exception. *)
Inductive StackEntry : Type :=
| Entry2 (pos : Z) (obj : PDFObj)
| Entry3 (pos : Z) (obj : PDFObj) (instruction_index : PDFObj).

Class Externals : Type := {
  STRICT : bool;
  PREDEFINED_COLORSPACE : list (string * PDFColorSpace);
  resolve1 : PDFObj -> PDFObj;
  literal_name : PDFObj -> Exc string;
  dict_value : PDFObj -> Exc (list (string * PDFObj));
  list_value : PDFObj -> Exc (list PDFObj);
  stream_value : PDFObj -> Exc PDFStream;
  nextobjects : list PDFObj -> list StackEntry * option exn
}.

Definition LITERAL_PDF : PDFObj := OLit "PDF".
Definition LITERAL_TEXT : PDFObj := OLit "Text".
Definition LITERAL_FONT : PDFObj := OLit "Font".
Definition LITERAL_FORM : PDFObj := OLit "Form".
Definition LITERAL_IMAGE : PDFObj := OLit "Image".

(** [x is LIT(name)]: literals are interned, so identity is equality of
    names. *)
Definition is_literal (name : string) (x : PDFObj) : bool :=
  match x with
  | OLit n => String.eqb n name
  | _ => false
  end.

(** [keyword_name]: the name of a keyword, as text. *)
Definition keyword_name (name : string) : string := name.

(** ** [PDFPageInterpreter] *)

Record PDFPageInterpreter : Type := mkInterp {
  rsrcmgr : PDFResourceManager;
  device : list DeviceCall;
  resources : PDFObj;
  fontmap : list (string * PDFFont);
  xobjmap : list (string * PDFObj);
  csmap : list (string * PDFColorSpace);
  gstack : list (Matrix * PDFTextState * PDFGraphicState);
  ctm : Matrix;
  textstate : PDFTextState;
  graphicstate : PDFGraphicState;
  curpath : list PathSegment;
  argstack : list PDFObj;
  scs : option PDFColorSpace;
  ncs : option PDFColorSpace
}.

Definition set_rsrcmgr (v : PDFResourceManager) (s : PDFPageInterpreter) :=
  mkInterp v (device s) (resources s) (fontmap s) (xobjmap s) (csmap s)
    (gstack s) (ctm s) (textstate s) (graphicstate s) (curpath s)
    (argstack s) (scs s) (ncs s).

(** A call to the device: the call joins the record of calls. *)
Definition call_device (c : DeviceCall) (s : PDFPageInterpreter) :=
  mkInterp (rsrcmgr s) (device s ++ [c]) (resources s) (fontmap s)
    (xobjmap s) (csmap s) (gstack s) (ctm s) (textstate s) (graphicstate s)
    (curpath s) (argstack s) (scs s) (ncs s).

Definition set_device (v : list DeviceCall) (s : PDFPageInterpreter) :=
  mkInterp (rsrcmgr s) v (resources s) (fontmap s) (xobjmap s) (csmap s)
    (gstack s) (ctm s) (textstate s) (graphicstate s) (curpath s)
    (argstack s) (scs s) (ncs s).

Definition set_gstack (v : list (Matrix * PDFTextState * PDFGraphicState))
    (s : PDFPageInterpreter) :=
  mkInterp (rsrcmgr s) (device s) (resources s) (fontmap s) (xobjmap s)
    (csmap s) v (ctm s) (textstate s) (graphicstate s) (curpath s)
    (argstack s) (scs s) (ncs s).

Definition set_ctm_field (v : Matrix) (s : PDFPageInterpreter) :=
  mkInterp (rsrcmgr s) (device s) (resources s) (fontmap s) (xobjmap s)
    (csmap s) (gstack s) v (textstate s) (graphicstate s) (curpath s)
    (argstack s) (scs s) (ncs s).

Definition set_textstate (v : PDFTextState) (s : PDFPageInterpreter) :=
  mkInterp (rsrcmgr s) (device s) (resources s) (fontmap s) (xobjmap s)
    (csmap s) (gstack s) (ctm s) v (graphicstate s) (curpath s)
    (argstack s) (scs s) (ncs s).

Definition set_graphicstate (v : PDFGraphicState) (s : PDFPageInterpreter) :=
  mkInterp (rsrcmgr s) (device s) (resources s) (fontmap s) (xobjmap s)
    (csmap s) (gstack s) (ctm s) (textstate s) v (curpath s)
    (argstack s) (scs s) (ncs s).

Definition set_curpath (v : list PathSegment) (s : PDFPageInterpreter) :=
  mkInterp (rsrcmgr s) (device s) (resources s) (fontmap s) (xobjmap s)
    (csmap s) (gstack s) (ctm s) (textstate s) (graphicstate s) v
    (argstack s) (scs s) (ncs s).

Definition set_argstack (v : list PDFObj) (s : PDFPageInterpreter) :=
  mkInterp (rsrcmgr s) (device s) (resources s) (fontmap s) (xobjmap s)
    (csmap s) (gstack s) (ctm s) (textstate s) (graphicstate s) (curpath s)
    v (scs s) (ncs s).

Definition set_scs (v : option PDFColorSpace) (s : PDFPageInterpreter) :=
  mkInterp (rsrcmgr s) (device s) (resources s) (fontmap s) (xobjmap s)
    (csmap s) (gstack s) (ctm s) (textstate s) (graphicstate s) (curpath s)
    (argstack s) v (ncs s).

Definition set_ncs (v : option PDFColorSpace) (s : PDFPageInterpreter) :=
  mkInterp (rsrcmgr s) (device s) (resources s) (fontmap s) (xobjmap s)
    (csmap s) (gstack s) (ctm s) (textstate s) (graphicstate s) (curpath s)
    (argstack s) (scs s) v.

(** [PDFPageInterpreter(rsrcmgr, device)]: only the two references are
    set; the other attributes do not exist until [render_contents] makes
    them, and stand here with values that are never read. *)
Definition PDFPageInterpreter_init (r : PDFResourceManager)
    (d : list DeviceCall) : PDFPageInterpreter :=
  mkInterp r d ONone [] [] [] [] MATRIX_IDENTITY PDFTextState_init
    PDFGraphicState_init [] [] None None.

(** [dup]: a new interpreter on the same resource manager and device. *)
Definition dup (self : PDFPageInterpreter) : PDFPageInterpreter :=
  PDFPageInterpreter_init (rsrcmgr self) (device self).

(** ** [PDFContentParser]: the inline-image reader *)

Definition isspace (c : ascii) : bool :=
  let n := nat_of_ascii c in
  ((n =? 32) || (n =? 9) || (n =? 10) || (n =? 13) || (n =? 11) || (n =? 12))%nat.

Definition add_byte (data : string) (c : ascii) : string :=
  data ++ String c EmptyString.

Fixpoint string_drop (n : nat) (s : string) : string :=
  match n, s with
  | O, _ => s
  | S n', EmptyString => EmptyString
  | S n', String _ s' => string_drop n' s'
  end.

(** [data[:-n]] for [n > 0]. *)
Definition drop_last (n : nat) (data : string) : string :=
  substring 0 (String.length data - n) data.

Definition CR : ascii := "013"%char.
Definition LF : ascii := "010"%char.

(** [re.sub] of the pattern [(CR LF | CR | LF) $] by nothing.  [$]
    matches at the end and also just before a line feed that ends the data,
    and every match is removed: a final CR LF LF, CR LF or LF LF goes as a
    whole, otherwise one final CR or LF. *)
Definition strip_eol (data : string) : string :=
  let eqc c d := Ascii.eqb c d in
  match rev (list_ascii_of_string data) with
  | c1 :: c2 :: c3 :: _ =>
      if eqc c1 LF && eqc c2 LF && eqc c3 CR then drop_last 3 data
      else if eqc c1 LF && (eqc c2 CR || eqc c2 LF) then drop_last 2 data
      else if eqc c1 LF || eqc c1 CR then drop_last 1 data
      else data
  | c1 :: c2 :: _ =>
      if eqc c1 LF && (eqc c2 CR || eqc c2 LF) then drop_last 2 data
      else if eqc c1 LF || eqc c1 CR then drop_last 1 data
      else data
  | c1 :: _ => if eqc c1 LF || eqc c1 CR then drop_last 1 data else data
  | [] => data
  end.

(** The scanning loop of [get_inline_data], [while i <= len(target)], over
    the bytes still to be read.  [fillbuf] presents the streams as one run
    of bytes and raises [PSEOF] at its end.  With [i = 0] the source copies
    up to the next [target[0]] in one step ([buf.index]); here the same
    bytes are copied one by one.  The result is [data] and the bytes left
    unread. *)
Fixpoint inline_scan (target : string) (i : nat) (data : string)
    (buf : string) : Exc (string * string) :=
  if (String.length target <? i)%nat then Ok (data, buf)
  else
    match buf with
    | EmptyString => Raise PSEOF
    | String c buf' =>
        if (i =? 0)%nat then
          match String.get 0 target with
          | None => Raise IndexError
          | Some t0 =>
              if Ascii.eqb c t0
              then inline_scan target 1 (add_byte data c) buf'
              else inline_scan target 0 (add_byte data c) buf'
          end
        else
          let data := add_byte data c in
          if ((String.length target <=? i)%nat && isspace c)
             || ((i <? String.length target)%nat
                 && match String.get i target with
                    | Some t => Ascii.eqb c t
                    | None => false
                    end)
          then inline_scan target (i + 1) data buf'
          else inline_scan target 0 data buf'
    end.

(** The parser, as far as [do_keyword] and [get_inline_data] use it:
    [fp_data] is the data of the stream being read, [later] the data of the
    streams after it, [unread] the bytes from the reading position on;
    [context], [curtype] and [curstack] are those of [PSStackParser]. *)
Record PDFContentParser : Type := mkParser {
  fp_data : string;
  later : list string;
  unread : string;
  context : list (Z * option string * list StackEntry);
  curtype : option string;
  curstack : list StackEntry
}.

Definition set_unread (v : string) (p : PDFContentParser) :=
  mkParser (fp_data p) (later p) v (context p) (curtype p) (curstack p).

(** [seek(pos)]: reading restarts at byte [pos] of the current stream and
    goes on into the later ones. *)
Definition seek (pos : Z) (self : PDFContentParser) : PDFContentParser :=
  set_unread
    (string_drop (Z.to_nat pos) (fp_data self) ++ String.concat EmptyString (later self))
    self.

(** The stream [fillbuf] and [fillfp] have reached when [n] bytes have been
    read, [left] bytes being unread in the current stream [fp]: the parser
    stays on [fp] while it has the bytes, the last one included, and goes
    to the next stream, over empty ones, only when a byte is asked for that
    [fp] has not.  The result is the current stream and the streams after
    it.  (Asking for more bytes than there are raises [PSEOF] in the loop,
    before this is used.) *)
Fixpoint advance (n left : nat) (fp : string) (streams : list string)
  : string * list string :=
  if (n <=? left)%nat then (fp, streams)
  else
    match streams with
    | [] => (fp, [])
    | s :: streams' => advance (n - left) (String.length s) s streams'
    end.

(** [get_inline_data]: [seek], the loop, the two cuts; the parser is left
    on the stream the loop ended in, with the bytes it did not read. *)
Definition get_inline_data (self : PDFContentParser) (pos : Z)
    (target : string) : Exc (PDFContentParser * (Z * string)) :=
  let self := seek pos self in
  '(data, rest) <- inline_scan target 0 EmptyString (unread self) ;;
  let '(fp, streams) :=
    advance (String.length data)
      (String.length (string_drop (Z.to_nat pos) (fp_data self)))
      (fp_data self) (later self) in
  let data := drop_last (String.length target + 1) data in
  let data := strip_eol data in
  Ok (mkParser fp streams rest (context self) (curtype self) (curstack self),
      (pos, data)).

(** Modelled from the spec: [PSStackParser.push], [start_type] and
    [end_type] are inherited from [pdfminer.psparser], which is not among
    the sources.  Section 4.2: on [BI] the tokenizer enters the inline
    dictionary mode and accumulates operands until [ID]: [start_type] saves
    the current stack and opens an empty one of the given type; [end_type]
    fails with [PSTypeError] unless that type is open, and returns the
    objects accumulated, restoring the saved stack; [push] adds an entry to
    the current stack. *)
Definition push_entry (e : StackEntry) (self : PDFContentParser) :=
  mkParser (fp_data self) (later self) (unread self) (context self)
    (curtype self) (curstack self ++ [e]).

Definition start_type (pos : Z) (type : string) (self : PDFContentParser) :=
  mkParser (fp_data self) (later self) (unread self)
    (context self ++ [(pos, curtype self, curstack self)]) (Some type) [].

Definition entry_obj (e : StackEntry) : PDFObj :=
  match e with
  | Entry2 _ o => o
  | Entry3 _ o _ => o
  end.

Definition same_type (a : option string) (type : string) : bool :=
  match a with
  | Some t => String.eqb t type
  | None => false
  end.

Definition end_type (type : string) (self : PDFContentParser)
  : Exc (PDFContentParser * (Z * list PDFObj)) :=
  if negb (same_type (curtype self) type) then Raise PSTypeError
  else
    let objs := map entry_obj (curstack self) in
    match rev (context self) with
    | [] => Raise IndexError
    | (pos, ty, stack) :: before =>
        Ok (mkParser (fp_data self) (later self) (unread self) (rev before)
              ty stack, (pos, objs))
    end.

(** Modelled from the spec: [pdfminer.utils.choplist] is not among the
    sources; with [n = 2] it yields the consecutive pairs of a list. *)
Fixpoint choplist2 (objs : list PDFObj) : list (PDFObj * PDFObj) :=
  match objs with
  | k :: v :: rest => (k, v) :: choplist2 rest
  | _ => []
  end.

(** Modelled from the spec: [pdfminer.pdftypes.LITERALS_ASCII85_DECODE] is
    not among the sources; section 4.2 names [/A85] and
    [/ASCII85Decode]. *)
Definition LITERALS_ASCII85_DECODE : list string := ["ASCII85Decode"; "A85"].

(** [x in LITERALS_ASCII85_DECODE] *)
Definition in_LITERALS_ASCII85_DECODE (x : PDFObj) : bool :=
  match x with
  | OLit n => existsb (String.eqb n) LITERALS_ASCII85_DECODE
  | _ => false
  end.

(** [filter[0]], after [if isinstance(filter, PSLiteral): filter =
    [filter]]. *)
Definition filter_first (filter : PDFObj) : Exc PDFObj :=
  match filter with
  | OLit n => Ok (OLit n)
  | OArr (x :: _) => Ok x
  | OArr [] => Raise IndexError
  | OBytes (String c _) => Ok (OInt (Z.of_nat (nat_of_ascii c)))
  | OBytes EmptyString => Raise IndexError
  | ODict _ => Raise KeyError
  | OStream _ _ => Raise KeyError
  | _ => Raise TypeError
  end.

Definition KEYWORD_BI : PDFObj := OKwd "BI".
Definition KEYWORD_ID : PDFObj := OKwd "ID".
Definition KEYWORD_EI : PDFObj := OKwd "EI".

Definition is_keyword (name : string) (token : PDFObj) : bool :=
  match token with
  | OKwd n => String.eqb n name
  | _ => false
  end.

Section Parser.
Context {X : Externals}.

(** [{literal_name(k): resolve1(v) for (k, v) in choplist(2, objs)}] *)
Fixpoint inline_dict (pairs : list (PDFObj * PDFObj))
    (d : list (string * PDFObj)) : Exc (list (string * PDFObj)) :=
  match pairs with
  | [] => Ok d
  | (k, v) :: rest =>
      name <- literal_name k ;;
      inline_dict rest (dict_set name (resolve1 v) d)
  end.

(** The end marker [do_keyword] chooses from the dictionary. *)
Definition inline_eos (d : list (string * PDFObj)) : Exc string :=
  match dict_get "F" d with
  | None | Some ONone => Ok "EI"
  | Some filter =>
      f0 <- filter_first filter ;;
      Ok (if in_LITERALS_ASCII85_DECODE f0 then "~>" else "EI")
  end.

(** The body of the [try] of [do_keyword] after [end_type]. *)
Definition do_keyword_ID (self : PDFContentParser) (pos : Z)
    (objs : list PDFObj) : Exc PDFContentParser :=
  if negb (Nat.even (List.length objs)) then Raise PSTypeError
  else
    d <- inline_dict (choplist2 objs) [] ;;
    eos <- inline_eos d ;;
    '(self, (pos, data)) <- get_inline_data self (pos + 3) eos ;;
    let data := if negb (String.eqb eos "EI") then data ++ eos else data in
    let obj := OStream d data in
    let self := push_entry (Entry2 pos obj) self in
    Ok (if String.eqb eos "EI"
        then push_entry (Entry2 pos KEYWORD_EI) self
        else self).

(** [PDFContentParser.do_keyword].  A [PSTypeError] is raised, if at all,
    before anything after [end_type] changes the parser. *)
Definition do_keyword (self : PDFContentParser) (pos : Z) (token : PDFObj)
    (instruction_index : PDFObj) : Exc PDFContentParser :=
  if is_keyword "BI" token then Ok (start_type pos "inline" self)
  else if is_keyword "ID" token then
    match end_type "inline" self with
    | Raise PSTypeError => if STRICT then Raise PSTypeError else Ok self
    | Raise e => Raise e
    | OutOfFuel => OutOfFuel
    | Ok (self1, (_, objs)) =>
        match do_keyword_ID self1 pos objs with
        | Raise PSTypeError =>
            if STRICT then Raise PSTypeError else Ok self1
        | r => r
        end
    end
  else Ok (push_entry (Entry3 pos token instruction_index) self).
End Parser.

(** ** [PDFResourceManager.get_font] and the interpreter *)

Definition set_resources (v : PDFObj) (s : PDFPageInterpreter) :=
  mkInterp (rsrcmgr s) (device s) v (fontmap s) (xobjmap s) (csmap s)
    (gstack s) (ctm s) (textstate s) (graphicstate s) (curpath s)
    (argstack s) (scs s) (ncs s).

Definition set_fontmap (v : list (string * PDFFont)) (s : PDFPageInterpreter) :=
  mkInterp (rsrcmgr s) (device s) (resources s) v (xobjmap s) (csmap s)
    (gstack s) (ctm s) (textstate s) (graphicstate s) (curpath s)
    (argstack s) (scs s) (ncs s).

Definition set_xobjmap (v : list (string * PDFObj)) (s : PDFPageInterpreter) :=
  mkInterp (rsrcmgr s) (device s) (resources s) (fontmap s) v (csmap s)
    (gstack s) (ctm s) (textstate s) (graphicstate s) (curpath s)
    (argstack s) (scs s) (ncs s).

Definition set_csmap (v : list (string * PDFColorSpace))
    (s : PDFPageInterpreter) :=
  mkInterp (rsrcmgr s) (device s) (resources s) (fontmap s) (xobjmap s) v
    (gstack s) (ctm s) (textstate s) (graphicstate s) (curpath s)
    (argstack s) (scs s) (ncs s).

(** [l.pop()]: the list without its last element, and that element. *)
Fixpoint list_pop {A : Type} (l : list A) : option (list A * A) :=
  match l with
  | [] => None
  | x :: l' =>
      match list_pop l' with
      | None => Some ([], x)
      | Some (front, y) => Some (x :: front, y)
      end
  end.

(** The position a slice bound [k] denotes in a list of length [len]. *)
Definition slice_index (len : nat) (k : Z) : nat :=
  if k <? 0 then Z.to_nat (Z.max 0 (Z.of_nat len + k)) else Z.to_nat k.

(** [s.replace(c, by)] for a one-character [c]. *)
Fixpoint replace_char (c : ascii) (by_ : string) (s : string) : string :=
  match s with
  | EmptyString => EmptyString
  | String x s' =>
      if Ascii.eqb x c then by_ ++ replace_char c by_ s'
      else String x (replace_char c by_ s')
  end.

(** [obj.copy()] of a dictionary (or a list). *)
Definition py_copy (o : PDFObj) : Exc PDFObj :=
  match o with
  | ODict d => Ok (ODict d)
  | OArr l => Ok (OArr l)
  | _ => Raise AttributeError
  end.

Section Interpreter.
Context {X : Externals}.

(** The object id, if it is true in a test ([None] and [0] are not). *)
Definition objid_true (objid : option Z) : option Z :=
  match objid with
  | Some z => if z =? 0 then None else Some z
  | None => None
  end.

(** [for k in ("Encoding", "ToUnicode"): if k in spec: subspec[k] =
    resolve1(spec[k])], one [k]. *)
Definition inherit_key (k : string) (spec subspec : list (string * PDFObj))
  : list (string * PDFObj) :=
  match dict_get k spec with
  | Some v => dict_set k (resolve1 v) subspec
  | None => subspec
  end.

(** [PDFResourceManager.get_font]; the font of a [Type0] spec is that of
    its first descendant, found by a recursive call. *)
Fixpoint get_font (fuel : nat) (self : PDFResourceManager)
    (objid : option Z) (spec : list (string * PDFObj))
  : Exc (PDFFont * PDFResourceManager) :=
  match fuel with
  | O => OutOfFuel
  | S fuel' =>
      match match objid_true objid with
            | Some z => cache_get z (_cached_fonts self)
            | None => None
            end with
      | Some font => Ok (font, self)
      | None =>
          _ <- (if STRICT then
                  ty <- dict_getitem "Type" spec ;;
                  if is_literal "Font" ty then Ok tt
                  else Raise (PDFFontError "Type is not /Font")
                else Ok tt) ;;
          subtype <- (if dict_contains "Subtype" spec then
                        v <- dict_getitem "Subtype" spec ;; literal_name v
                      else if STRICT then
                        Raise (PDFFontError "Font Subtype is not specified.")
                      else Ok "Type1") ;;
          '(font, self) <-
            (if String.eqb subtype "Type1" || String.eqb subtype "MMType1"
             then Ok (PDFType1Font spec, self)
             else if String.eqb subtype "TrueType"
             then Ok (PDFTrueTypeFont spec, self)
             else if String.eqb subtype "Type3"
             then Ok (PDFType3Font spec, self)
             else if String.eqb subtype "CIDFontType0"
                     || String.eqb subtype "CIDFontType2"
             then Ok (PDFCIDFont spec, self)
             else if String.eqb subtype "Type0" then
               dv <- dict_getitem "DescendantFonts" spec ;;
               dfonts <- list_value dv ;;
               match dfonts with
               | [] => Raise AssertionError
               | d0 :: _ =>
                   subspec <- dict_value d0 ;;
                   let subspec := inherit_key "Encoding" spec subspec in
                   let subspec := inherit_key "ToUnicode" spec subspec in
                   get_font fuel' self None subspec
               end
             else if STRICT then Raise (PDFFontError "Invalid Font spec")
             else Ok (PDFType1Font spec, self)) ;;
          Ok (font,
              match objid_true objid with
              | Some z =>
                  if caching self
                  then mkResourceManager (caching self)
                         (cache_set z font (_cached_fonts self))
                  else self
              | None => self
              end)
      end
  end.

(** [get_colorspace], local to [init_resources]. *)
Definition get_colorspace (spec : PDFObj) : Exc (option PDFColorSpace) :=
  name <- match spec with
          | OArr (x :: _) => literal_name x
          | OArr [] => Raise IndexError
          | _ => literal_name spec
          end ;;
  match spec with
  | OArr (_ :: s1 :: _) =>
      if String.eqb name "ICCBased" then
        strm <- stream_value s1 ;;
        n <- dict_getitem "N" (attrs strm) ;;
        Ok (Some (mkColorSpace name n))
      else if String.eqb name "DeviceN" then
        l <- list_value s1 ;;
        Ok (Some (mkColorSpace name (OInt (Z.of_nat (List.length l)))))
      else Ok (dict_get name PREDEFINED_COLORSPACE)
  | _ => Ok (dict_get name PREDEFINED_COLORSPACE)
  end.

(** [for fontid, spec in dict_value(v).items(): ...] *)
Fixpoint init_fonts (fuel : nat) (items : list (string * PDFObj))
    (self : PDFPageInterpreter) : Exc PDFPageInterpreter :=
  match items with
  | [] => Ok self
  | (fontid, spec) :: rest =>
      let objid := match spec with ORef n => Some n | _ => None end in
      spec <- dict_value spec ;;
      '(font, r) <- get_font fuel (rsrcmgr self) objid spec ;;
      init_fonts fuel rest
        (set_fontmap (dict_set fontid font (fontmap self))
           (set_rsrcmgr r self))
  end.

(** [for csid, spec in dict_value(v).items(): ...] *)
Fixpoint init_colorspaces (items : list (string * PDFObj))
    (self : PDFPageInterpreter) : Exc PDFPageInterpreter :=
  match items with
  | [] => Ok self
  | (csid, spec) :: rest =>
      colorspace <- get_colorspace (resolve1 spec) ;;
      init_colorspaces rest
        match colorspace with
        | Some cs => set_csmap (dict_set csid cs (csmap self)) self
        | None => self
        end
  end.

(** [for xobjid, xobjstrm in dict_value(v).items(): ...] *)
Fixpoint init_xobjects (items : list (string * PDFObj))
    (self : PDFPageInterpreter) : PDFPageInterpreter :=
  match items with
  | [] => self
  | (xobjid, xobjstrm) :: rest =>
      init_xobjects rest
        (set_xobjmap (dict_set xobjid xobjstrm (xobjmap self)) self)
  end.

(** [for k, v in dict_value(resources).items(): ...] *)
Fixpoint init_resources_items (fuel : nat) (items : list (string * PDFObj))
    (self : PDFPageInterpreter) : Exc PDFPageInterpreter :=
  match items with
  | [] => Ok self
  | (k, v) :: rest =>
      self <-
        (if String.eqb k "Font" then
           fonts <- dict_value v ;; init_fonts fuel fonts self
         else if String.eqb k "ColorSpace" then
           spaces <- dict_value v ;; init_colorspaces spaces self
         else if String.eqb k "ProcSet" then
           _ <- list_value v ;; Ok self
         else if String.eqb k "XObject" then
           xobjs <- dict_value v ;; Ok (init_xobjects xobjs self)
         else Ok self) ;;
      init_resources_items fuel rest self
  end.

(** [init_resources] *)
Definition init_resources (fuel : nat) (resources_ : PDFObj)
    (self : PDFPageInterpreter) : Exc PDFPageInterpreter :=
  let self := set_resources resources_ self in
  let self := set_fontmap [] self in
  let self := set_xobjmap [] self in
  let self := set_csmap PREDEFINED_COLORSPACE self in
  if negb (py_truthy resources_) then Ok self
  else
    items <- dict_value resources_ ;;
    init_resources_items fuel items self.

(** [init_state] *)
Definition init_state (ctm_ : Matrix) (self : PDFPageInterpreter)
  : PDFPageInterpreter :=
  let self := set_gstack [] self in
  let self := set_ctm_field ctm_ self in
  let self := call_device (set_ctm (ctm self)) self in
  let self := set_textstate PDFTextState_init self in
  let self := set_graphicstate PDFGraphicState_init self in
  let self := set_curpath [] self in
  let self := set_argstack [] self in
  let self := set_scs None self in
  let self := set_ncs None self in
  match csmap self with
  | [] => self
  | (_, cs) :: _ => set_ncs (Some cs) (set_scs (Some cs) self)
  end.

(** [push] *)
Definition push (obj : PDFObj) (self : PDFPageInterpreter) :=
  set_argstack (argstack self ++ [obj]) self.

(** [pop]: [x = argstack[-n:]], [argstack = argstack[:-n]]. *)
Definition pop (n : Z) (self : PDFPageInterpreter)
  : list PDFObj * PDFPageInterpreter :=
  if n =? 0 then ([], self)
  else
    let k := slice_index (List.length (argstack self)) (- n) in
    (skipn k (argstack self), set_argstack (firstn k (argstack self)) self).

(** [get_current_state] *)
Definition get_current_state (self : PDFPageInterpreter)
  : Matrix * PDFTextState * PDFGraphicState :=
  (ctm self, PDFTextState_copy (textstate self),
   PDFGraphicState_copy (graphicstate self)).

(** [set_current_state] *)
Definition set_current_state
    (state : Matrix * PDFTextState * PDFGraphicState)
    (self : PDFPageInterpreter) : PDFPageInterpreter :=
  let '(m, ts, gs) := state in
  let self := set_graphicstate gs (set_textstate ts (set_ctm_field m self)) in
  call_device (set_ctm (ctm self)) self.

Definition do_q (self : PDFPageInterpreter) : Exc PDFPageInterpreter :=
  Ok (set_gstack (gstack self ++ [get_current_state self]) self).

Definition do_Q (self : PDFPageInterpreter) : Exc PDFPageInterpreter :=
  match list_pop (gstack self) with
  | Some (rest, state) => Ok (set_current_state state (set_gstack rest self))
  | None => Ok self
  end.

Definition do_cm (a1 b1 c1 d1 e1 f1 : PDFObj) (self : PDFPageInterpreter)
  : Exc PDFPageInterpreter :=
  m <- mult_matrix [a1; b1; c1; d1; e1; f1] (matrix_list (ctm self)) ;;
  let self := set_ctm_field m self in
  Ok (call_device (set_ctm (ctm self)) self).

(** The setters of the graphic state store the operand as it is. *)
Definition upd_gs (f : PDFGraphicState -> PDFGraphicState)
    (self : PDFPageInterpreter) : PDFPageInterpreter :=
  set_graphicstate (f (graphicstate self)) self.

Definition upd_ts (f : PDFTextState -> PDFTextState)
    (self : PDFPageInterpreter) : PDFPageInterpreter :=
  set_textstate (f (textstate self)) self.

Definition do_w (linewidth_ : PDFObj) self : Exc PDFPageInterpreter :=
  Ok (upd_gs (set_linewidth linewidth_) self).

Definition do_J (linecap_ : PDFObj) self : Exc PDFPageInterpreter :=
  Ok (upd_gs (set_linecap linecap_) self).

Definition do_j (linejoin_ : PDFObj) self : Exc PDFPageInterpreter :=
  Ok (upd_gs (set_linejoin linejoin_) self).

Definition do_M (miterlimit_ : PDFObj) self : Exc PDFPageInterpreter :=
  Ok (upd_gs (set_miterlimit miterlimit_) self).

Definition do_d (dash_ phase : PDFObj) self : Exc PDFPageInterpreter :=
  Ok (upd_gs (set_dash (Some (dash_, phase))) self).

Definition do_ri (intent_ : PDFObj) self : Exc PDFPageInterpreter :=
  Ok (upd_gs (set_intent intent_) self).

Definition do_i (flatness_ : PDFObj) self : Exc PDFPageInterpreter :=
  Ok (upd_gs (set_flatness flatness_) self).

Definition do_gs (name : PDFObj) (self : PDFPageInterpreter)
  : Exc PDFPageInterpreter := Ok self.

(** [self.curpath.append(seg)] *)
Definition curpath_append (seg : PathSegment) (self : PDFPageInterpreter) :=
  set_curpath (curpath self ++ [seg]) self.

Definition do_m (x y : PDFObj) self : Exc PDFPageInterpreter :=
  Ok (curpath_append (Seg_m x y) self).

Definition do_l (x y : PDFObj) self : Exc PDFPageInterpreter :=
  Ok (curpath_append (Seg_l x y) self).

Definition do_c (x1 y1 x2 y2 x3 y3 : PDFObj) self : Exc PDFPageInterpreter :=
  Ok (curpath_append (Seg_c x1 y1 x2 y2 x3 y3) self).

Definition do_v (x2 y2 x3 y3 : PDFObj) self : Exc PDFPageInterpreter :=
  Ok (curpath_append (Seg_v x2 y2 x3 y3) self).

Definition do_y (x1 y1 x3 y3 : PDFObj) self : Exc PDFPageInterpreter :=
  Ok (curpath_append (Seg_y x1 y1 x3 y3) self).

Definition do_h self : Exc PDFPageInterpreter :=
  Ok (curpath_append Seg_h self).

Definition do_re (x y w h : PDFObj) self : Exc PDFPageInterpreter :=
  let self := curpath_append (Seg_m x y) self in
  xw <- py_add x w ;;
  let self := curpath_append (Seg_l xw y) self in
  xw <- py_add x w ;;
  yh <- py_add y h ;;
  let self := curpath_append (Seg_l xw yh) self in
  yh <- py_add y h ;;
  let self := curpath_append (Seg_l x yh) self in
  Ok (curpath_append Seg_h self).

(** A paint operator: [device.paint_path(...)], then [curpath = []]. *)
Definition paint (stroke fill evenodd : bool) (self : PDFPageInterpreter) :=
  let self :=
    call_device
      (paint_path (graphicstate self) stroke fill evenodd (curpath self))
      self in
  set_curpath [] self.

Definition do_S self : Exc PDFPageInterpreter :=
  Ok (paint true false false self).

Definition do_s self : Exc PDFPageInterpreter :=
  self <- do_h self ;; do_S self.

Definition do_f self : Exc PDFPageInterpreter :=
  Ok (paint false true false self).

Definition do_F (self : PDFPageInterpreter) : Exc PDFPageInterpreter :=
  Ok self.

Definition do_f_a self : Exc PDFPageInterpreter :=
  Ok (paint false true true self).

Definition do_B self : Exc PDFPageInterpreter :=
  Ok (paint true true false self).

Definition do_B_a self : Exc PDFPageInterpreter :=
  Ok (paint true true true self).

Definition do_b self : Exc PDFPageInterpreter :=
  self <- do_h self ;; do_B self.

Definition do_b_a self : Exc PDFPageInterpreter :=
  self <- do_h self ;; do_B_a self.

Definition do_n self : Exc PDFPageInterpreter :=
  Ok (set_curpath [] self).

Definition do_W (self : PDFPageInterpreter) : Exc PDFPageInterpreter :=
  Ok self.

Definition do_W_a (self : PDFPageInterpreter) : Exc PDFPageInterpreter :=
  Ok self.

(** [self.scs = self.csmap[literal_name(name)]] under [except KeyError] *)
Definition lookup_colorspace (name : PDFObj) (self : PDFPageInterpreter)
  : Exc PDFColorSpace :=
  n <- literal_name name ;; dict_getitem n (csmap self).

Definition do_CS (name : PDFObj) self : Exc PDFPageInterpreter :=
  match lookup_colorspace name self with
  | Ok cs => Ok (set_scs (Some cs) self)
  | Raise KeyError =>
      if STRICT then Raise (PDFInterpreterError "Undefined ColorSpace")
      else Ok self
  | Raise e => Raise e
  | OutOfFuel => OutOfFuel
  end.

Definition do_cs (name : PDFObj) self : Exc PDFPageInterpreter :=
  match lookup_colorspace name self with
  | Ok cs => Ok (set_ncs (Some cs) self)
  | Raise KeyError =>
      if STRICT then Raise (PDFInterpreterError "Undefined ColorSpace")
      else Ok self
  | Raise e => Raise e
  | OutOfFuel => OutOfFuel
  end.

Definition do_G (gray : PDFObj) self : Exc PDFPageInterpreter :=
  let self := upd_gs (set_scolor (Some (ColorGray gray))) self in
  cs <- dict_getitem "DeviceGray" (csmap self) ;;
  Ok (set_scs (Some cs) self).

Definition do_g (gray : PDFObj) self : Exc PDFPageInterpreter :=
  let self := upd_gs (set_ncolor (Some (ColorGray gray))) self in
  cs <- dict_getitem "DeviceGray" (csmap self) ;;
  Ok (set_ncs (Some cs) self).

Definition do_RG (r g b : PDFObj) self : Exc PDFPageInterpreter :=
  let self := upd_gs (set_scolor (Some (ColorTuple [r; g; b]))) self in
  cs <- dict_getitem "DeviceRGB" (csmap self) ;;
  Ok (set_scs (Some cs) self).

Definition do_rg (r g b : PDFObj) self : Exc PDFPageInterpreter :=
  let self := upd_gs (set_ncolor (Some (ColorTuple [r; g; b]))) self in
  cs <- dict_getitem "DeviceRGB" (csmap self) ;;
  Ok (set_ncs (Some cs) self).

Definition do_K (c m y k : PDFObj) self : Exc PDFPageInterpreter :=
  let self := upd_gs (set_scolor (Some (ColorTuple [c; m; y; k]))) self in
  cs <- dict_getitem "DeviceCMYK" (csmap self) ;;
  Ok (set_scs (Some cs) self).

Definition do_k (c m y k : PDFObj) self : Exc PDFPageInterpreter :=
  let self := upd_gs (set_ncolor (Some (ColorTuple [c; m; y; k]))) self in
  cs <- dict_getitem "DeviceCMYK" (csmap self) ;;
  Ok (set_ncs (Some cs) self).

(** [self.pop(n)] for the component count [n] of a color space, which is
    whatever object the color space was built with: an [int] (or [bool])
    slices; a [float] equal to zero returns at [n == 0], any other object
    fails at [-n] or as a slice bound. *)
Definition pop_components (n : PDFObj) (self : PDFPageInterpreter)
  : Exc (list PDFObj * PDFPageInterpreter) :=
  match as_int n with
  | Some z => Ok (pop z self)
  | None =>
      match n with
      | OReal q => if (q =? 0)%float then Ok ([], self) else Raise TypeError
      | _ => Raise TypeError
      end
  end.

Definition do_SCN self : Exc PDFPageInterpreter :=
  n <- match scs self with
       | Some cs => Ok (ncomponents cs)
       | None =>
           if STRICT
           then Raise (PDFInterpreterError "No colorspace specified!")
           else Ok (OInt 1)
       end ;;
  '(color, self) <- pop_components n self ;;
  Ok (upd_gs (set_scolor (Some (ColorList color))) self).

Definition do_scn self : Exc PDFPageInterpreter :=
  n <- match ncs self with
       | Some cs => Ok (ncomponents cs)
       | None =>
           if STRICT
           then Raise (PDFInterpreterError "No colorspace specified!")
           else Ok (OInt 1)
       end ;;
  '(color, self) <- pop_components n self ;;
  Ok (upd_gs (set_ncolor (Some (ColorList color))) self).

Definition do_SC self : Exc PDFPageInterpreter := do_SCN self.

Definition do_sc self : Exc PDFPageInterpreter := do_scn self.

Definition do_sh (name : PDFObj) (self : PDFPageInterpreter)
  : Exc PDFPageInterpreter := Ok self.

Definition do_BT self : Exc PDFPageInterpreter :=
  Ok (upd_ts PDFTextState_reset self).

Definition do_ET (self : PDFPageInterpreter) : Exc PDFPageInterpreter :=
  Ok self.

Definition do_BX (self : PDFPageInterpreter) : Exc PDFPageInterpreter :=
  Ok self.

Definition do_EX (self : PDFPageInterpreter) : Exc PDFPageInterpreter :=
  Ok self.

Definition do_MP (tag : PDFObj) self : Exc PDFPageInterpreter :=
  Ok (call_device (do_tag tag None) self).

Definition do_DP (tag props : PDFObj) self : Exc PDFPageInterpreter :=
  Ok (call_device (do_tag tag (Some props)) self).

Definition do_BMC (tag : PDFObj) self : Exc PDFPageInterpreter :=
  Ok (call_device (begin_tag tag None) self).

Definition do_BDC (tag props : PDFObj) self : Exc PDFPageInterpreter :=
  Ok (call_device (begin_tag tag (Some props)) self).

Definition do_EMC self : Exc PDFPageInterpreter :=
  Ok (call_device end_tag self).

Definition do_Tc (space : PDFObj) self : Exc PDFPageInterpreter :=
  Ok (upd_ts (set_charspace space) self).

Definition do_Tw (space : PDFObj) self : Exc PDFPageInterpreter :=
  Ok (upd_ts (set_wordspace space) self).

Definition do_Tz (scale : PDFObj) self : Exc PDFPageInterpreter :=
  Ok (upd_ts (set_scaling scale) self).

Definition do_TL (leading_ : PDFObj) self : Exc PDFPageInterpreter :=
  l <- py_neg leading_ ;;
  Ok (upd_ts (set_leading l) self).

(** [self.textstate.font = self.fontmap[literal_name(fontid)]] under
    [except KeyError] *)
Definition lookup_font (fontid : PDFObj) (self : PDFPageInterpreter)
  : Exc PDFFont :=
  n <- literal_name fontid ;; dict_getitem n (fontmap self).

(** [do_Tf].  The font of the empty spec has no descendant: [get_font]
    needs one level for it. *)
Definition do_Tf (fontid fontsize_ : PDFObj) self : Exc PDFPageInterpreter :=
  self <-
    match lookup_font fontid self with
    | Ok f => Ok (upd_ts (set_font (Some f)) self)
    | Raise KeyError =>
        if STRICT then Raise (PDFInterpreterError "Undefined Font id")
        else
          '(f, r) <- get_font 1 (rsrcmgr self) None [] ;;
          Ok (upd_ts (set_font (Some f)) (set_rsrcmgr r self))
    | Raise e => Raise e
    | OutOfFuel => OutOfFuel
    end ;;
  Ok (upd_ts (set_fontsize fontsize_) self).

Definition do_Tr (render_ : PDFObj) self : Exc PDFPageInterpreter :=
  Ok (upd_ts (set_render render_) self).

Definition do_Ts (rise_ : PDFObj) self : Exc PDFPageInterpreter :=
  Ok (upd_ts (set_rise rise_) self).

(** The new text matrix of [Td] and [TD]:
    [(a, b, c, d, tx_ * a + ty_ * c + e, tx_ * b + ty_ * d + f)]. *)
Definition translate_matrix (tx_ ty_ : PDFObj) (m : Matrix) : Exc Matrix :=
  let '(a, b, c, d, e, f) := m in
  t1 <- py_mul tx_ a ;; t2 <- py_mul ty_ c ;; t3 <- py_add t1 t2 ;;
  e_new <- py_add t3 e ;;
  t1 <- py_mul tx_ b ;; t2 <- py_mul ty_ d ;; t3 <- py_add t1 t2 ;;
  f_new <- py_add t3 f ;;
  Ok (a, b, c, d, e_new, f_new).

Definition do_Td (tx ty : PDFObj) self : Exc PDFPageInterpreter :=
  tx_ <- safe_float tx ;;
  ty_ <- safe_float ty ;;
  self <-
    match tx_, ty_ with
    | Some tx_, Some ty_ =>
        m <- translate_matrix tx_ ty_ (matrix (textstate self)) ;;
        Ok (upd_ts (set_matrix m) self)
    | _, _ =>
        if STRICT then Raise (PDFValueError "Invalid offset for Td")
        else Ok self
    end ;;
  Ok (upd_ts (set_linematrix (OInt 0, OInt 0)) self).

Definition do_TD (tx ty : PDFObj) self : Exc PDFPageInterpreter :=
  tx_ <- safe_float tx ;;
  ty_ <- safe_float ty ;;
  self <-
    match tx_, ty_ with
    | Some tx_, Some ty_ =>
        m <- translate_matrix tx_ ty_ (matrix (textstate self)) ;;
        Ok (upd_ts (set_matrix m) self)
    | _, _ =>
        if STRICT
        then Raise (PDFValueError "Invalid offset ({tx}, {ty}) for TD")
        else Ok self
    end ;;
  let self :=
    match ty_ with
    | Some ty_ => upd_ts (set_leading ty_) self
    | None => self
    end in
  Ok (upd_ts (set_linematrix (OInt 0, OInt 0)) self).

Definition do_Tm (a b c d e f : PDFObj) self : Exc PDFPageInterpreter :=
  let self := upd_ts (set_matrix (a, b, c, d, e, f)) self in
  Ok (upd_ts (set_linematrix (OInt 0, OInt 0)) self).

Definition do_T_a self : Exc PDFPageInterpreter :=
  let '(a, b, c, d, e, f) := matrix (textstate self) in
  t <- py_mul (leading (textstate self)) c ;; e_new <- py_add t e ;;
  t <- py_mul (leading (textstate self)) d ;; f_new <- py_add t f ;;
  let self := upd_ts (set_matrix (a, b, c, d, e_new, f_new)) self in
  Ok (upd_ts (set_linematrix (OInt 0, OInt 0)) self).

Definition do_TJ (seq instruction_index : PDFObj) self
  : Exc PDFPageInterpreter :=
  match font (textstate self) with
  | None =>
      if STRICT then Raise (PDFInterpreterError "No font specified!")
      else Ok self
  | Some _ =>
      match ncs self with
      | None => Raise AssertionError
      | Some cs =>
          Ok (call_device
                (render_string (textstate self) seq cs
                   (PDFGraphicState_copy (graphicstate self))
                   instruction_index)
                self)
      end
  end.

Definition do_Tj (s instruction_index : PDFObj) self
  : Exc PDFPageInterpreter :=
  do_TJ (OArr [s]) instruction_index self.

(** The ['] operator. *)
Definition do__q (s instruction_index : PDFObj) self
  : Exc PDFPageInterpreter :=
  self <- do_T_a self ;;
  do_TJ (OArr [s]) instruction_index self.

(** The double-quote operator. *)
Definition do__w (aw ac s instruction_index : PDFObj) self
  : Exc PDFPageInterpreter :=
  self <- do_Tw aw self ;;
  self <- do_Tc ac self ;;
  do_TJ (OArr [s]) instruction_index self.

Definition do_BI (self : PDFPageInterpreter) : Exc PDFPageInterpreter :=
  Ok self.

Definition do_ID (self : PDFPageInterpreter) : Exc PDFPageInterpreter :=
  Ok self.

Definition UNIT_BBOX : list PDFObj := [OInt 0; OInt 0; OInt 1; OInt 1].

Definition do_EI (obj : PDFObj) self : Exc PDFPageInterpreter :=
  match obj with
  | OStream a data =>
      if dict_contains "W" a && dict_contains "H" a then
        let iobjid := FigId (mkStream a data) in
        let self :=
          call_device
            (begin_figure iobjid UNIT_BBOX (matrix_list MATRIX_IDENTITY))
            self in
        let self := call_device (render_image iobjid (mkStream a data)) self in
        Ok (call_device (end_figure iobjid) self)
      else Ok self
  | _ => Ok self
  end.

(** The recursive call of [do_Do]: [render_contents] of one less level,
    on the interpreter it is given. *)
Variable render_contents_rec :
  PDFPageInterpreter -> PDFObj -> PDFObj -> Matrix -> Exc PDFPageInterpreter.

(** [stream_value(self.xobjmap[xobjid])] under [except KeyError] *)
Definition lookup_xobject (xobjid : string) (self : PDFPageInterpreter)
  : Exc PDFStream :=
  v <- dict_getitem xobjid (xobjmap self) ;; stream_value v.

(** [xobj.get("Matrix", MATRIX_IDENTITY)] *)
Definition xobj_matrix (xobj : PDFStream) : PDFObj :=
  match dict_get "Matrix" (attrs xobj) with
  | Some m => m
  | None => OArr (matrix_list MATRIX_IDENTITY)
  end.

(** [xobj.get("Resources")], and the choice between the resources of the
    XObject and a copy of those of the interpreter. *)
Definition xobj_resources (xobj : PDFStream) (self : PDFPageInterpreter)
  : Exc PDFObj :=
  let xobjres :=
    match dict_get "Resources" (attrs xobj) with
    | Some r => r
    | None => ONone
    end in
  if py_truthy xobjres then d <- dict_value xobjres ;; Ok (ODict d)
  else py_copy (resources self).

Definition do_Do (xobjid_arg : PDFObj) self : Exc PDFPageInterpreter :=
  xobjid <- literal_name xobjid_arg ;;
  match lookup_xobject xobjid self with
  | Raise KeyError =>
      if STRICT then Raise (PDFInterpreterError "Undefined xobject id")
      else Ok self
  | Raise e => Raise e
  | OutOfFuel => OutOfFuel
  | Ok xobj =>
      let subtype := dict_get "Subtype" (attrs xobj) in
      if match subtype with Some t => is_literal "Form" t | None => false end
         && dict_contains "BBox" (attrs xobj)
      then
        let interpreter := dup self in
        bb <- dict_getitem "BBox" (attrs xobj) ;;
        bbox <- list_value bb ;;
        matrix_ <- list_value (xobj_matrix xobj) ;;
        resources_ <- xobj_resources xobj self ;;
        let self := call_device (begin_figure (FigStr xobjid) bbox matrix_) self in
        m <- mult_matrix matrix_ (matrix_list (ctm self)) ;;
        child <- render_contents_rec (set_device (device self) interpreter)
                   resources_ (OArr [stream_obj xobj]) m ;;
        let self := set_device (device child) (set_rsrcmgr (rsrcmgr child) self) in
        Ok (call_device (end_figure (FigStr xobjid)) self)
      else if match subtype with Some t => is_literal "Image" t | None => false end
              && dict_contains "Width" (attrs xobj)
              && dict_contains "Height" (attrs xobj)
      then
        let self :=
          call_device
            (begin_figure (FigStr xobjid) UNIT_BBOX (matrix_list MATRIX_IDENTITY))
            self in
        let self := call_device (render_image (FigStr xobjid) xobj) self in
        Ok (call_device (end_figure (FigStr xobjid)) self)
      else Ok self
  end.
End Interpreter.

(** ** The dispatch of [execute] *)

(** A [do_*] method, by the number of its parameters after [self]. *)
Inductive Method : Type :=
| Method0 (f : PDFPageInterpreter -> Exc PDFPageInterpreter)
| Method1 (f : PDFObj -> PDFPageInterpreter -> Exc PDFPageInterpreter)
| Method2 (f : PDFObj -> PDFObj -> PDFPageInterpreter -> Exc PDFPageInterpreter)
| Method3 (f : PDFObj -> PDFObj -> PDFObj ->
               PDFPageInterpreter -> Exc PDFPageInterpreter)
| Method4 (f : PDFObj -> PDFObj -> PDFObj -> PDFObj ->
               PDFPageInterpreter -> Exc PDFPageInterpreter)
| Method6 (f : PDFObj -> PDFObj -> PDFObj -> PDFObj -> PDFObj -> PDFObj ->
               PDFPageInterpreter -> Exc PDFPageInterpreter).

(** [func.__code__.co_argcount]: the parameters, [self] and those with a
    default included. *)
Definition co_argcount (func : Method) : Z :=
  match func with
  | Method0 _ => 1
  | Method1 _ => 2
  | Method2 _ => 3
  | Method3 _ => 4
  | Method4 _ => 5
  | Method6 _ => 7
  end.

(** [func] applied to the unpacked [args]: a call with as many arguments as the method has
    parameters; any other number is a [TypeError]. *)
Definition call_method (func : Method) (args : list PDFObj)
    (self : PDFPageInterpreter) : Exc PDFPageInterpreter :=
  match func, args with
  | Method0 f, [] => f self
  | Method1 f, [a] => f a self
  | Method2 f, [a; b] => f a b self
  | Method3 f, [a; b; c] => f a b c self
  | Method4 f, [a; b; c; d] => f a b c d self
  | Method6 f, [a; b; c; d; e; g] => f a b c d e g self
  | _, _ => Raise TypeError
  end.

Definition DQUOTE : ascii := "034"%char.
Definition SQUOTE : ascii := "039"%char.

(** The methods [execute] tests the name against,
    [["do_TJ", "do_Tj", "do_T_w", "do_T_q"]]. *)
Definition INDEXED_METHODS : list string :=
  ["do_TJ"; "do_Tj"; "do_T_w"; "do_T_q"].

Definition in_INDEXED_METHODS (method : string) : bool :=
  existsb (String.eqb method) INDEXED_METHODS.

(** ["do_%s" % name.replace("*", "_a").replace(DQUOTE, "_w").replace(SQUOTE,
    "_q")] *)
Definition method_name (name : string) : string :=
  "do_" ++ replace_char SQUOTE "_q"
             (replace_char DQUOTE "_w" (replace_char "*"%char "_a" name)).

Section Execute.
Context {X : Externals}.

Variable render_contents_rec :
  PDFPageInterpreter -> PDFObj -> PDFObj -> Matrix -> Exc PDFPageInterpreter.

(** The attributes of the interpreter whose name starts with [do_]: its
    operator methods. *)
Definition METHODS : list (string * Method) :=
  [ ("do_q", Method0 do_q); ("do_Q", Method0 do_Q); ("do_cm", Method6 do_cm);
    ("do_w", Method1 do_w); ("do_J", Method1 do_J); ("do_j", Method1 do_j);
    ("do_M", Method1 do_M); ("do_d", Method2 do_d); ("do_ri", Method1 do_ri);
    ("do_i", Method1 do_i); ("do_gs", Method1 do_gs);
    ("do_m", Method2 do_m); ("do_l", Method2 do_l); ("do_c", Method6 do_c);
    ("do_v", Method4 do_v); ("do_y", Method4 do_y); ("do_h", Method0 do_h);
    ("do_re", Method4 do_re); ("do_S", Method0 do_S); ("do_s", Method0 do_s);
    ("do_f", Method0 do_f); ("do_F", Method0 do_F);
    ("do_f_a", Method0 do_f_a); ("do_B", Method0 do_B);
    ("do_B_a", Method0 do_B_a); ("do_b", Method0 do_b);
    ("do_b_a", Method0 do_b_a); ("do_n", Method0 do_n);
    ("do_W", Method0 do_W); ("do_W_a", Method0 do_W_a);
    ("do_CS", Method1 do_CS); ("do_cs", Method1 do_cs);
    ("do_G", Method1 do_G); ("do_g", Method1 do_g);
    ("do_RG", Method3 do_RG); ("do_rg", Method3 do_rg);
    ("do_K", Method4 do_K); ("do_k", Method4 do_k);
    ("do_SCN", Method0 do_SCN); ("do_scn", Method0 do_scn);
    ("do_SC", Method0 do_SC); ("do_sc", Method0 do_sc);
    ("do_sh", Method1 do_sh); ("do_BT", Method0 do_BT);
    ("do_ET", Method0 do_ET); ("do_BX", Method0 do_BX);
    ("do_EX", Method0 do_EX); ("do_MP", Method1 do_MP);
    ("do_DP", Method2 do_DP); ("do_BMC", Method1 do_BMC);
    ("do_BDC", Method2 do_BDC); ("do_EMC", Method0 do_EMC);
    ("do_Tc", Method1 do_Tc); ("do_Tw", Method1 do_Tw);
    ("do_Tz", Method1 do_Tz); ("do_TL", Method1 do_TL);
    ("do_Tf", Method2 do_Tf); ("do_Tr", Method1 do_Tr);
    ("do_Ts", Method1 do_Ts); ("do_Td", Method2 do_Td);
    ("do_TD", Method2 do_TD); ("do_Tm", Method6 do_Tm);
    ("do_T_a", Method0 do_T_a); ("do_TJ", Method2 do_TJ);
    ("do_Tj", Method2 do_Tj); ("do__q", Method2 do__q);
    ("do__w", Method4 do__w); ("do_BI", Method0 do_BI);
    ("do_ID", Method0 do_ID); ("do_EI", Method1 do_EI);
    ("do_Do", Method1 (do_Do render_contents_rec)) ].

(** [hasattr(self, method)] and [getattr(self, method)] *)
Definition getattr_method (method : string) : option Method :=
  dict_get method METHODS.

(** [nargs]: [co_argcount - 1], and one less for the methods of
    [INDEXED_METHODS]. *)
Definition method_nargs (method : string) (func : Method) : Z :=
  let nargs := co_argcount func - 1 in
  if in_INDEXED_METHODS method then nargs - 1 else nargs.

(** What [execute] does with a keyword. *)
Definition execute_keyword (name : string) (instruction_index : PDFObj)
    (self : PDFPageInterpreter) : Exc PDFPageInterpreter :=
  let method := method_name name in
  match getattr_method method with
  | Some func =>
      let nargs := method_nargs method func in
      if negb (nargs =? 0) then
        let '(args, self) := pop nargs self in
        if Z.of_nat (List.length args) =? nargs then
          if in_INDEXED_METHODS method
          then call_method func (args ++ [instruction_index]) self
          else call_method func args self
        else Ok self
      else call_method func [] self
  | None =>
      if STRICT then Raise (PDFInterpreterError "Unknown operator")
      else Ok self
  end.

(** One turn of the loop of [execute], on the entry [nextobject]
    returned. *)
Definition execute_entry (entry : StackEntry) (self : PDFPageInterpreter)
  : Exc PDFPageInterpreter :=
  let '(obj, instruction_index) :=
    match entry with
    | Entry3 _ obj idx => (obj, idx)
    | Entry2 _ obj => (obj, ONone)
    end in
  match obj with
  | OKwd kw => execute_keyword (keyword_name kw) instruction_index self
  | _ => Ok (push obj self)
  end.

Fixpoint execute_entries (entries : list StackEntry)
    (self : PDFPageInterpreter) : Exc PDFPageInterpreter :=
  match entries with
  | [] => Ok self
  | entry :: rest =>
      self <- execute_entry entry self ;; execute_entries rest self
  end.

(** [execute]: the loop runs until the parser raises; [PSEOF] ends it,
    any other exception leaves it. *)
Definition execute (streams : list PDFObj) (self : PDFPageInterpreter)
  : Exc PDFPageInterpreter :=
  let '(entries, final) := nextobjects streams in
  self <- execute_entries entries self ;;
  match final with
  | None => Ok self
  | Some e => Raise e
  end.
End Execute.

Section Render.
Context {X : Externals}.

(** [render_contents].  [fuel] bounds the depth of the XObjects invoked
    within XObjects (and of the descendant fonts). *)
Fixpoint render_contents (fuel : nat) (self : PDFPageInterpreter)
    (resources_ streams : PDFObj) (ctm_ : Matrix) : Exc PDFPageInterpreter :=
  match fuel with
  | O => OutOfFuel
  | S fuel' =>
      self <- init_resources fuel' resources_ self ;;
      let self := init_state ctm_ self in
      streams <- list_value streams ;;
      execute (render_contents fuel') streams self
  end.

(** [page.rotate == k], for the [k] of [process_page]: 90, 180 and 270,
    which are floats. *)
Definition rotate_is (k : Z) (r : PDFObj) : bool :=
  match as_num r with
  | Some (NInt z) => z =? k
  | Some (NReal q) =>
      match py_float k with
      | Ok x => (q =? x)%float
      | _ => false
      end
  | None => false
  end.

(** [process_page] *)
Definition process_page (fuel : nat) (page : PDFPage)
    (self : PDFPageInterpreter) : Exc PDFPageInterpreter :=
  let '(x0, y0, x1, y1) := mediabox page in
  ctm_ <-
    (if rotate_is 90 (rotate page) then
       ny0 <- py_neg y0 ;; Ok (OInt 0, OInt (-1), OInt 1, OInt 0, ny0, x1)
     else if rotate_is 180 (rotate page) then
       Ok (OInt (-1), OInt 0, OInt 0, OInt (-1), x1, y1)
     else if rotate_is 270 (rotate page) then
       nx0 <- py_neg x0 ;; Ok (OInt 0, OInt 1, OInt (-1), OInt 0, y1, nx0)
     else
       nx0 <- py_neg x0 ;; ny0 <- py_neg y0 ;;
       Ok (OInt 1, OInt 0, OInt 0, OInt 1, nx0, ny0)) ;;
  let self := call_device (begin_page page ctm_) self in
  self <- render_contents fuel self (page_resources page) (contents page) ctm_ ;;
  Ok (call_device (end_page page) self).
End Render.

(** ** An instance to run the definitions on *)

(** The imported functions for a document whose objects are all resolved:
    a reference resolves to itself, and an accessor applied to an object of
    another kind raises in strict mode and returns the empty value
    otherwise.  The color-space table and the content parser are given. *)
Definition resolved_externals (strict : bool)
    (predefined : list (string * PDFColorSpace))
    (parser : list PDFObj -> list StackEntry * option exn) : Externals :=
  {| STRICT := strict;
     PREDEFINED_COLORSPACE := predefined;
     resolve1 := fun x => x;
     literal_name := fun x =>
       match x with
       | OLit n => Ok n
       | _ => if strict then Raise PSTypeError else Ok "?"
       end;
     dict_value := fun x =>
       match x with
       | ODict d => Ok d
       | _ => if strict then Raise PDFTypeError else Ok []
       end;
     list_value := fun x =>
       match x with
       | OArr l => Ok l
       | _ => if strict then Raise PDFTypeError else Ok []
       end;
     stream_value := fun x =>
       match x with
       | OStream a d => Ok (mkStream a d)
       | _ => if strict then Raise PDFTypeError
              else Ok (mkStream [] EmptyString)
       end;
     nextobjects := parser |}.

(** Three of the predefined color spaces, with their component counts. *)
Definition example_colorspaces : list (string * PDFColorSpace) :=
  [ ("DeviceGray", mkColorSpace "DeviceGray" (OInt 1));
    ("DeviceRGB", mkColorSpace "DeviceRGB" (OInt 3));
    ("DeviceCMYK", mkColorSpace "DeviceCMYK" (OInt 4)) ].

(** A parser that finds no object in any stream. *)
Definition empty_parser (streams : list PDFObj)
  : list StackEntry * option exn := ([], None).

Definition lenient : Externals :=
  resolved_externals false example_colorspaces empty_parser.

Definition strict : Externals :=
  resolved_externals true example_colorspaces empty_parser.

(** A fresh interpreter, and its state at the start of a page without
    resources. *)
Definition fresh_interpreter : PDFPageInterpreter :=
  PDFPageInterpreter_init (mkResourceManager true []) [].

Definition page_start (X : Externals) : PDFPageInterpreter :=
  init_state MATRIX_IDENTITY
    (set_csmap (@PREDEFINED_COLORSPACE X) fresh_interpreter).

(** The content of a Form XObject, and a parser that knows the objects
    of that content only. *)
Definition example_form_content : string := "1 1 m 2 2 l S".

Definition example_parser (streams : list PDFObj)
  : list StackEntry * option exn :=
  match streams with
  | [OStream _ data] =>
      if String.eqb data example_form_content
      then ([ Entry2 0 (OInt 1); Entry2 2 (OInt 1); Entry3 4 (OKwd "m") (OInt 0);
              Entry2 6 (OInt 2); Entry2 8 (OInt 2); Entry3 10 (OKwd "l") (OInt 1);
              Entry3 12 (OKwd "S") (OInt 2) ], None)
      else ([], None)
  | _ => ([], None)
  end.

Definition lenient_with_form : Externals :=
  resolved_externals false example_colorspaces example_parser.

(** [c in s] *)
Fixpoint string_has (c : ascii) (s : string) : bool :=
  match s with
  | EmptyString => false
  | String x s' => Ascii.eqb x c || string_has c s'
  end.

(** Whether some byte of [s] is white space. *)
Fixpoint any_space (s : string) : bool :=
  match s with
  | EmptyString => false
  | String c s' => isspace c || any_space s'
  end.

(** [s[-1:]]: the last byte of [s], if any. *)
Fixpoint last_byte (s : string) : option ascii :=
  match s with
  | EmptyString => None
  | String c EmptyString => Some c
  | String _ s' => last_byte s'
  end.

(** The interpreter [dst] with the state of [src] in the place of its own:
    the resource manager, the device and the resource maps of [dst], the
    stacks, matrices, states, path and color spaces of [src]. *)
Definition with_state_of (src dst : PDFPageInterpreter) : PDFPageInterpreter :=
  mkInterp (rsrcmgr dst) (device dst) (resources dst) (fontmap dst)
    (xobjmap dst) (csmap dst) (gstack src) (ctm src) (textstate src)
    (graphicstate src) (curpath src) (argstack src) (scs src) (ncs src).

(** [f] applied to the value of an outcome. *)
Definition map_ok {A B : Type} (f : A -> B) (m : Exc A) : Exc B :=
  match m with
  | Ok a => Ok (f a)
  | Raise e => Raise e
  | OutOfFuel => OutOfFuel
  end.

(** ** What the device was told *)

(** The matrix the device was last given by [set_ctm], if it was given
    one. *)
Fixpoint device_ctm (calls : list DeviceCall) : option Matrix :=
  match calls with
  | [] => None
  | c :: rest =>
      match device_ctm rest with
      | Some m => Some m
      | None => match c with set_ctm m => Some m | _ => None end
      end
  end.

Definition is_render_string (c : DeviceCall) : bool :=
  match c with
  | render_string _ _ _ _ _ => true
  | _ => false
  end.

(** An entry of the content that is no keyword, or a keyword that runs
    none of the methods [names]. *)
Definition runs_none_of (names : list string) (e : StackEntry) : bool :=
  match entry_obj e with
  | OKwd kw => negb (existsb (String.eqb (method_name (keyword_name kw))) names)
  | _ => true
  end.

(** The current matrix, that of every saved state and the one the device
    holds are all [m]. *)
Definition at_matrix (m : Matrix) (s : PDFPageInterpreter) : Prop :=
  ctm s = m
  /\ Forall (fun st => fst (fst st) = m) (gstack s)
  /\ device_ctm (device s) = Some m.

(** No font is selected, now or in a saved state, and the calls of
    [render_string] the device has had are [shown]. *)
Definition no_font (shown : list DeviceCall) (s : PDFPageInterpreter) : Prop :=
  font (textstate s) = None
  /\ Forall (fun st => font (snd (fst st)) = None) (gstack s)
  /\ filter is_render_string (device s) = shown.

(** A call that opens or closes a figure. *)
Definition is_figure_call (c : DeviceCall) : bool :=
  match c with
  | begin_figure _ _ _ => true
  | end_figure _ => true
  | _ => false
  end.

(** A run of device calls in which the figures are bracketed: every
    [begin_figure] is closed by an [end_figure] of the same name, and the
    figures opened in between are closed in between. *)
Inductive bracketed : list DeviceCall -> Prop :=
| bracketed_nil : bracketed []
| bracketed_call (c : DeviceCall) (l : list DeviceCall) :
    is_figure_call c = false -> bracketed l -> bracketed (c :: l)
| bracketed_figure (name : FigName) (bbox m : list PDFObj)
    (inner l : list DeviceCall) :
    bracketed inner -> bracketed l ->
    bracketed (begin_figure name bbox m :: inner ++ end_figure name :: l).

(** The device calls [d'] are the calls [d] and then a bracketed run. *)
Definition grows_bracketed (d d' : list DeviceCall) : Prop :=
  exists calls, d' = (d ++ calls)%list /\ bracketed calls.

(** ** The resource manager over time *)

(** [serves r r']: the resource manager [r] is [r'] after some calls of
    [get_font], for any object ids and specs, that returned. *)
Inductive serves {X : Externals}
  : PDFResourceManager -> PDFResourceManager -> Prop :=
| serves_none (r : PDFResourceManager) : serves r r
| serves_font (r r1 r2 : PDFResourceManager) (fuel : nat) (objid : option Z)
    (spec : list (string * PDFObj)) (f : PDFFont) :
    serves r r1 -> get_font fuel r1 objid spec = Ok (f, r2) -> serves r r2.

(** ** Nesting of [q] and [Q] *)

(** The depth of save/restore nesting a run of entries ends at, from a
    given depth: [q] opens a level, [Q] closes one; [None] when a [Q] of the
    run has no [q] of the run before it. *)
Fixpoint nesting (depth : nat) (entries : list StackEntry) : option nat :=
  match entries with
  | [] => Some depth
  | e :: rest =>
      if is_keyword "q" (entry_obj e) then nesting (S depth) rest
      else if is_keyword "Q" (entry_obj e) then
        match depth with
        | O => None
        | S d => nesting d rest
        end
      else nesting depth rest
  end.

(** A run of entries that keeps its [q]/[Q] pairs nested. *)
Definition nested (entries : list StackEntry) : Prop :=
  nesting 0 entries = Some O.

(** * Properties *)

Unset Implicit Arguments.

(** ** Lemmas on the data *)

Lemma list_pop_app {A : Type} (l : list A) (x : A) :
  list_pop (l ++ [x]) = Some (l, x).
Proof.
  induction l as [|y l IH]; simpl; [reflexivity|].
  now rewrite IH.
Qed.

Lemma list_pop_nil_inv {A : Type} (l : list A) :
  list_pop l = None -> l = [].
Proof.
  destruct l as [|x l]; [reflexivity|].
  simpl. destruct (list_pop l) as [[front y]|]; discriminate.
Qed.

(** *** Floats

    The facts on binary64 sums and products that the text operators need,
    from the specification of the primitive floats. *)

Lemma iter_pos_comm {A} (f : A -> A) (m : positive) (y : A) :
  SpecFloat.iter_pos f m (f y) = f (SpecFloat.iter_pos f m y).
Proof. revert y. induction m as [m IH|m IH|]; intros y; simpl; now rewrite ?IH. Qed.

Lemma iter_pos_succ {A} (f : A -> A) (n : positive) (x : A) :
  SpecFloat.iter_pos f (Pos.succ n) x = f (SpecFloat.iter_pos f n x).
Proof.
  revert x. induction n as [n IH|n IH|]; intros x; simpl.
  - rewrite IH, IH. rewrite !iter_pos_comm. reflexivity.
  - rewrite !iter_pos_comm. reflexivity.
  - reflexivity.
Qed.

(** One shift of a mantissa that has more than one digit leaves a positive
    mantissa with one digit less. *)
Lemma shr_1_digits (p : positive) (r s : bool) :
  (1 < digits2_pos p)%positive ->
  exists q r' s',
    shr_1 (Build_shr_record (Zpos p) r s) = Build_shr_record (Zpos q) r' s'
    /\ Zpos (digits2_pos q) = Zpos (digits2_pos p) - 1.
Proof.
  intros H. destruct p as [p|p|]; cbn [digits2_pos shr_1] in *.
  - exists p, true, (r || s). split; [reflexivity | lia].
  - exists p, false, (r || s). split; [reflexivity | lia].
  - lia.
Qed.

Lemma iter_shr_1_positive (n : positive) :
  forall (p : positive) (r s : bool),
    Zpos n < Zpos (digits2_pos p) ->
    exists q r' s',
      SpecFloat.iter_pos shr_1 n (Build_shr_record (Zpos p) r s)
      = Build_shr_record (Zpos q) r' s'
      /\ Zpos (digits2_pos q) = Zpos (digits2_pos p) - Zpos n.
Proof.
  induction n using Pos.peano_ind; intros p r s H.
  - simpl. apply shr_1_digits. lia.
  - rewrite iter_pos_succ.
    destruct (IHn p r s ltac:(lia)) as (q & r' & s' & -> & Hd).
    destruct (shr_1_digits q r' s' ltac:(lia)) as (q2 & r2 & s2 & -> & Hd2).
    exists q2, r2, s2. split; [reflexivity | lia].
Qed.

(** Above the least exponent, the shift of [shr_fexp] keeps a mantissa
    positive. *)
Lemma shr_fexp_positive (p : positive) (e : Z) (l : location) :
  emin <= e ->
  exists q r s e',
    shr_fexp prec emax (Zpos p) e l = (Build_shr_record (Zpos q) r s, e')
    /\ emin <= e'.
Proof.
  intros He. unfold shr_fexp, shr.
  set (n := SpecFloat.fexp prec emax (Zdigits2 (Zpos p) + e) - e).
  assert (Hn : n < Zpos (digits2_pos p)).
  { unfold n, SpecFloat.fexp, SpecFloat.emin, prec, emax in *.
    cbn [Zdigits2]. lia. }
  destruct (shr_record_of_loc (Zpos p) l) as [m r s] eqn:E.
  assert (Hm : m = Zpos p) by (destruct l as [|[]]; simpl in E; congruence).
  subst m.
  clearbody n. destruct n as [|k|k].
  - exists p, r, s, e. auto.
  - destruct (iter_shr_1_positive k p r s Hn) as (q & r' & s' & Hq & _).
    exists q, r', s', (e + Zpos k). rewrite Hq. split; [reflexivity|].
    unfold SpecFloat.emin, prec, emax in *. lia.
  - exists p, r, s, e. auto.
Qed.

(** Rounding a positive mantissa above the least exponent never gives a
    zero. *)
Lemma binary_round_aux_not_zero (sx : bool) (p : positive) (e : Z) (l : location) (s : bool) :
  emin <= e ->
  binary_round_aux prec emax sx (Zpos p) e l <> S754_zero s.
Proof.
  intros He. unfold binary_round_aux.
  destruct (shr_fexp_positive p e l He) as (q & r & s1 & e' & -> & He').
  cbn [shr_m].
  assert (Hr : exists q', round_nearest_even (Zpos q)
                 (loc_of_shr_record {| shr_m := Zpos q; shr_r := r; shr_s := s1 |})
               = Zpos q').
  { destruct r, s1; cbn [loc_of_shr_record round_nearest_even];
      try destruct (Z.even (Zpos q));
      first [ now exists q | exists (q + 1)%positive; lia ]. }
  destruct Hr as (q' & ->).
  destruct (shr_fexp_positive q' e' loc_Exact He') as (q2 & r2 & s2 & e2 & -> & _).
  cbn [shr_m]. destruct (e2 <=? emax - prec); discriminate.
Qed.

Lemma shl_align_exp (m : positive) (e e' : Z) :
  snd (shl_align m e e') = Z.min e e'.
Proof.
  unfold shl_align. destruct (e' - e) eqn:E; simpl; lia.
Qed.

Lemma binary_round_not_zero (sx : bool) (p : positive) (e : Z) (s : bool) :
  emin <= e ->
  binary_round prec emax sx p e <> S754_zero s.
Proof.
  intros He. unfold binary_round.
  pose proof (shl_align_exp p e (SpecFloat.fexp prec emax (Zpos (digits2_pos p) + e))) as H.
  destruct (shl_align p e _) as [mz ez]. cbn [snd] in H.
  apply binary_round_aux_not_zero.
  subst ez. unfold SpecFloat.fexp, SpecFloat.emin, prec, emax in *. lia.
Qed.

Lemma valid_exponent (s : bool) (m : positive) (e : Z) :
  valid_binary (S754_finite s m e) = true -> emin <= e.
Proof.
  unfold SpecFloat.valid_binary, bounded, canonical_mantissa.
  intros H. apply andb_true_iff in H. destruct H as [H _].
  apply Z.eqb_eq in H. unfold SpecFloat.fexp, SpecFloat.emin, prec, emax in *. lia.
Qed.

(** The sum of two finite floats is never the negative zero. *)
Lemma SFadd_finite_not_neg_zero (sx sy : bool) (mx my : positive) (ex ey : Z) :
  emin <= ex -> emin <= ey ->
  SF64add (S754_finite sx mx ex) (S754_finite sy my ey) <> S754_zero true.
Proof.
  intros Hx Hy. unfold SF64add, SFadd, binary_normalize.
  match goal with
  | |- match ?m with _ => _ end <> _ => destruct m
  end.
  - discriminate.
  - apply binary_round_not_zero. lia.
  - apply binary_round_not_zero. lia.
Qed.

Lemma digits2_iter_xO (n : positive) :
  forall m, Zpos (digits2_pos (Pos.iter xO m n)) = Zpos (digits2_pos m) + Zpos n.
Proof.
  induction n using Pos.peano_ind; intros m.
  - cbn. lia.
  - rewrite Pos.iter_succ. cbn [digits2_pos]. rewrite Pos2Z.inj_succ, IHn. lia.
Qed.

Lemma iter_shr_1_xO (n : positive) :
  forall m,
    SpecFloat.iter_pos shr_1 n
      (Build_shr_record (Zpos (Pos.iter xO m n)) false false)
    = Build_shr_record (Zpos m) false false.
Proof.
  induction n using Pos.peano_ind; intros m.
  - reflexivity.
  - rewrite iter_pos_succ, Pos.iter_succ, <- iter_pos_comm.
    cbn [shr_1 orb]. apply IHn.
Qed.

Lemma SFmul_one_finite (s : bool) (m : positive) (e : Z) :
  valid_binary (S754_finite s m e) = true ->
  SF64mul (S754_finite s m e) (S754_finite false 4503599627370496 (-52)) = S754_finite s m e.
Proof.
  unfold SpecFloat.valid_binary, bounded, canonical_mantissa.
  intros H. apply andb_true_iff in H. destruct H as [Hc Hb].
  apply Z.eqb_eq in Hc.
  unfold SF64mul, SFmul. rewrite xorb_false_r.
  replace (m * 4503599627370496)%positive with (Pos.iter xO m 52)
    by (rewrite Pos.mul_comm; reflexivity).
  unfold binary_round_aux, shr_fexp.
  cbn [Zdigits2]. rewrite digits2_iter_xO.
  replace (Zpos (digits2_pos m) + 52 + (e + -52)) with (Zpos (digits2_pos m) + e)
    by lia.
  rewrite Hc.
  replace (e - (e + -52)) with 52 by lia.
  cbn [shr_record_of_loc]. unfold shr at 1. rewrite iter_shr_1_xO.
  cbn [shr_m loc_of_shr_record round_nearest_even shr_record_of_loc Zdigits2].
  replace (e + -52 + 52) with e by lia.
  rewrite Hc, Z.sub_diag. cbn [shr shr_m]. now rewrite Hb.
Qed.

Lemma xorb_f (s : bool) : xorb s false = s.
Proof. now destruct s. Qed.

(** [x * 1.0] is [x], for every float. *)
Lemma mul_one (x : float) : (x * 1)%float = x.
Proof.
  apply Prim2SF_inj. rewrite mul_spec.
  pose proof (Prim2SF_valid x) as Hv.
  change (Prim2SF 1) with (S754_finite false 4503599627370496 (-52)).
  destruct (Prim2SF x) as [s|s| |s m e].
  - cbn. now rewrite xorb_f.
  - cbn. now rewrite xorb_f.
  - reflexivity.
  - now apply SFmul_one_finite.
Qed.

Lemma SFadd_comm (x y : spec_float) : SF64add x y = SF64add y x.
Proof.
  destruct x as [sx|sx| |sx mx ex], y as [sy|sy| |sy my ey];
    try reflexivity; try (destruct sx, sy; reflexivity).
  unfold SF64add, SFadd. rewrite (Z.min_comm ey ex). f_equal. apply Z.add_comm.
Qed.

Lemma add_comm (x y : float) : (x + y)%float = (y + x)%float.
Proof. apply Prim2SF_inj. rewrite !add_spec. apply SFadd_comm. Qed.

(** What [is_finite] says of the form of a float. *)
Lemma is_finite_form (x : float) :
  is_finite x = true ->
  match Prim2SF x with
  | S754_zero _ => True
  | S754_finite _ _ e => emin <= e
  | _ => False
  end.
Proof.
  unfold is_finite, is_nan, is_infinity.
  rewrite !FloatAxioms.eqb_spec, FloatAxioms.abs_spec.
  pose proof (Prim2SF_valid x) as Hv.
  change (Prim2SF infinity) with (S754_infinity false).
  destruct (Prim2SF x) as [s|s| |s m e]; try exact (fun _ => I).
  - destruct s; intros H; discriminate H.
  - intros H; discriminate H.
  - intros _. exact (valid_exponent s m e Hv).
Qed.

Lemma not_neg_zero_form (x : float) :
  x <> neg_zero -> Prim2SF x <> S754_zero true.
Proof.
  intros H E. apply H. rewrite <- (SF2Prim_Prim2SF x), E. reflexivity.
Qed.

Ltac float_forms :=
  repeat match goal with
         | H : is_finite _ = true |- _ => apply is_finite_form in H
         | H : _ <> neg_zero |- _ => apply not_neg_zero_form in H
         end.

(** The update of [Td] on a text matrix [(1, 0, c, d, e, f)]. *)
Lemma translate_one_zero (u v w : float) :
  is_finite u = true -> is_finite v = true -> w <> neg_zero ->
  (u * 1 + v * 0 + w = u + w)%float.
Proof.
  intros Hu Hv Hw. rewrite mul_one. float_forms.
  apply Prim2SF_inj. rewrite !add_spec, mul_spec.
  change (Prim2SF 0) with (S754_zero false).
  destruct (Prim2SF u) as [su|su| |su mu eu]; try contradiction;
    destruct (Prim2SF v) as [sv|sv| |sv mv ev]; try contradiction;
    destruct (Prim2SF w) as [[]|sw| |sw mw ew]; try congruence;
    try destruct su; try destruct sv; reflexivity.
Qed.

Lemma translate_zero_one (u v w : float) :
  is_finite u = true -> is_finite v = true -> w <> neg_zero ->
  (u * 0 + v * 1 + w = v + w)%float.
Proof.
  intros Hu Hv Hw. rewrite mul_one. float_forms.
  apply Prim2SF_inj. rewrite !add_spec, mul_spec.
  change (Prim2SF 0) with (S754_zero false).
  destruct (Prim2SF u) as [su|su| |su mu eu]; try contradiction;
    destruct (Prim2SF v) as [sv|sv| |sv mv ev]; try contradiction;
    destruct (Prim2SF w) as [[]|sw| |sw mw ew]; try congruence;
    try destruct su; try destruct sv; reflexivity.
Qed.

(** A sum is the negative zero only if both terms are. *)
Lemma add_not_neg_zero (u w : float) :
  w <> neg_zero -> (u + w)%float <> neg_zero.
Proof.
  intros Hw E. float_forms. apply (f_equal Prim2SF) in E.
  rewrite add_spec in E. change (Prim2SF neg_zero) with (S754_zero true) in E.
  pose proof (Prim2SF_valid u) as Vu. pose proof (Prim2SF_valid w) as Vw.
  destruct (Prim2SF u) as [su|su| |su mu eu],
           (Prim2SF w) as [sw|sw| |sw mw ew];
    try discriminate E; try congruence;
    try (destruct su, sw; cbn in E; congruence).
  revert E. apply SFadd_finite_not_neg_zero; eapply valid_exponent; eassumption.
Qed.

(** Two translations from zero, and the translation by the sum. *)
Lemma add_add_zero (x1 x2 : float) :
  is_finite x1 = true -> is_finite x2 = true ->
  (x2 + (x1 + 0) = x1 + x2 + 0)%float.
Proof.
  intros H1 H2.
  destruct (PrimFloat.Leibniz.eqb (x1 + x2)%float neg_zero) eqn:E.
  - (* the sum is the negative zero: both are zeros *)
    apply FloatAxioms.Leibniz.eqb_spec in E. rewrite E.
    apply (f_equal Prim2SF) in E. rewrite add_spec in E.
    change (Prim2SF neg_zero) with (S754_zero true) in E.
    float_forms. pose proof (Prim2SF_valid x1) as V1.
    pose proof (Prim2SF_valid x2) as V2.
    apply Prim2SF_inj. rewrite !add_spec.
    change (Prim2SF 0) with (S754_zero false).
    change (Prim2SF neg_zero) with (S754_zero true).
    destruct (Prim2SF x1) as [s1|s1| |s1 m1 e1]; try contradiction;
      destruct (Prim2SF x2) as [s2|s2| |s2 m2 e2]; try contradiction;
      try (destruct s1, s2; cbn in E; try discriminate E; reflexivity);
      try discriminate E.
    exfalso. revert E. apply SFadd_finite_not_neg_zero; assumption.
  - assert (Hs : (x1 + x2)%float <> neg_zero).
    { intros F. rewrite F in E. discriminate E. }
    rewrite (add_comm x2). float_forms.
    apply Prim2SF_inj. rewrite !add_spec.
    rewrite add_spec in Hs.
    change (Prim2SF 0) with (S754_zero false).
    destruct (Prim2SF x1) as [s1|s1| |s1 m1 e1]; try contradiction;
      destruct (Prim2SF x2) as [s2|s2| |s2 m2 e2]; try contradiction;
      try (destruct s1, s2; reflexivity); try (destruct s1; reflexivity);
      try (destruct s2; reflexivity).
    change (SF64add (S754_finite s1 m1 e1) (S754_zero false))
      with (S754_finite s1 m1 e1).
    destruct (SF64add (S754_finite s1 m1 e1) (S754_finite s2 m2 e2))
      as [[]|s| |s m e]; try congruence; reflexivity.
Qed.

(** The update of [Td] with a zero [tx], against that of [T*]. *)
Lemma translate_zero_first (a y w : float) :
  is_finite a = true -> w <> neg_zero ->
  (0 * a + y + w = y + w)%float.
Proof.
  intros Ha Hw. float_forms.
  apply Prim2SF_inj. rewrite !add_spec, mul_spec.
  change (Prim2SF 0) with (S754_zero false).
  destruct (Prim2SF a) as [sa|sa| |sa ma ea]; try contradiction;
    destruct (Prim2SF y) as [sy|sy| |sy my ey];
    destruct (Prim2SF w) as [[]|sw| |sw mw ew]; try congruence;
    try destruct sa; try destruct sy; try destruct sw; reflexivity.
Qed.

(** The sum of two floats is finite only when both are. *)
Lemma is_finite_spec (x : float) :
  is_finite x
  = match Prim2SF x with
    | S754_zero _ | S754_finite _ _ _ => true
    | _ => false
    end.
Proof.
  unfold is_finite, is_nan, is_infinity.
  rewrite !FloatAxioms.eqb_spec, FloatAxioms.abs_spec.
  change (Prim2SF infinity) with (S754_infinity false).
  destruct (Prim2SF x) as [s|s| |s m e]; try reflexivity.
  - destruct s; reflexivity.
  - unfold SFeqb, SFabs, SFcompare.
    rewrite Z.compare_refl, Pos.compare_cont_refl.
    destruct s; reflexivity.
Qed.

Lemma add_finite_inv (x y : float) :
  is_finite (x + y) = true -> is_finite x = true /\ is_finite y = true.
Proof.
  rewrite !is_finite_spec, add_spec.
  destruct (Prim2SF x) as [s|s| |s m e], (Prim2SF y) as [t|t| |t n g];
    cbn; try (intros H; now split); try (intros H; discriminate H).
  all: try (destruct (Bool.eqb s t); cbn; intros H; now try discriminate H).
  destruct s, t; intros H; discriminate H.
Qed.

Lemma zero_not_neg_zero : 0%float <> neg_zero.
Proof.
  intros E. apply (f_equal Prim2SF) in E. vm_compute in E. discriminate E.
Qed.

(** *** Numbers as operands *)

Lemma safe_float_num (n : num) :
  safe_float (of_num n) = (x <- to_float n ;; Ok (Some (OReal x))).
Proof. now destruct n. Qed.

Lemma as_num_of_num (n : num) : as_num (of_num n) = Some n.
Proof. now destruct n. Qed.

Lemma py_add_num (x y : num) :
  py_add (of_num x) (of_num y) = (n <- num_add x y ;; Ok (of_num n)).
Proof. unfold py_add. now rewrite !as_num_of_num. Qed.

Lemma py_mul_num (x y : num) :
  py_mul (of_num x) (of_num y) = (n <- num_mul x y ;; Ok (of_num n)).
Proof. unfold py_mul. now rewrite !as_num_of_num. Qed.

Lemma py_mul_real (x : float) (n : num) :
  py_mul (OReal x) (of_num n) = (y <- to_float n ;; Ok (OReal (x * y)%float)).
Proof.
  change (OReal x) with (of_num (NReal x)). rewrite py_mul_num.
  destruct n as [z|y]; cbn; [destruct (py_float z)|]; reflexivity.
Qed.

Lemma py_add_real (x : float) (n : num) :
  py_add (OReal x) (of_num n) = (y <- to_float n ;; Ok (OReal (x + y)%float)).
Proof.
  change (OReal x) with (of_num (NReal x)). rewrite py_add_num.
  destruct n as [z|y]; cbn; [destruct (py_float z)|]; reflexivity.
Qed.

Lemma py_add_reals (x y : float) :
  py_add (OReal x) (OReal y) = Ok (OReal (x + y)%float).
Proof. reflexivity. Qed.

(** The text matrix of [Td] and [TD] on a matrix of numbers. *)
Lemma translate_matrix_numbers (x y : float) (a b c d e f : num)
    (A B C D E F : float) :
  to_float a = Ok A -> to_float b = Ok B -> to_float c = Ok C ->
  to_float d = Ok D -> to_float e = Ok E -> to_float f = Ok F ->
  translate_matrix (OReal x) (OReal y)
    (of_num a, of_num b, of_num c, of_num d, of_num e, of_num f)
  = Ok (of_num a, of_num b, of_num c, of_num d,
        OReal (x * A + y * C + E)%float, OReal (x * B + y * D + F)%float).
Proof.
  intros Ha Hb Hc Hd He Hf. unfold translate_matrix.
  rewrite !py_mul_real, Ha, Hb, Hc, Hd. cbn [bind].
  rewrite !py_add_reals. cbn [bind].
  rewrite !py_add_real, He, Hf. reflexivity.
Qed.

(** What [Td] does on a text matrix of numbers. *)
Lemma do_Td_numbers {X : Externals} (tx ty a b c d e f : num)
    (x y A B C D E F : float) (s : PDFPageInterpreter) :
  matrix (textstate s)
  = (of_num a, of_num b, of_num c, of_num d, of_num e, of_num f) ->
  to_float tx = Ok x -> to_float ty = Ok y ->
  to_float a = Ok A -> to_float b = Ok B -> to_float c = Ok C ->
  to_float d = Ok D -> to_float e = Ok E -> to_float f = Ok F ->
  do_Td (of_num tx) (of_num ty) s
  = Ok (upd_ts (set_linematrix (OInt 0, OInt 0))
          (upd_ts
             (set_matrix
                (of_num a, of_num b, of_num c, of_num d,
                 OReal (x * A + y * C + E)%float,
                 OReal (x * B + y * D + F)%float)) s)).
Proof.
  intros Hs Hx Hy Ha Hb Hc Hd He Hf.
  unfold do_Td. rewrite !safe_float_num, Hx, Hy. cbn [bind]. rewrite Hs.
  rewrite (translate_matrix_numbers x y a b c d e f A B C D E F)
    by assumption.
  reflexivity.
Qed.

Lemma num_add_float (x y : num) (a b : float) :
  to_float x = Ok a -> to_float y = Ok b ->
  (forall z1 z2, x = NInt z1 -> y = NInt z2 ->
                 py_float (z1 + z2) = Ok (a + b)%float) ->
  exists s, num_add x y = Ok s /\ to_float s = Ok (a + b)%float.
Proof.
  intros Hx Hy Hz. destruct x as [z1|p], y as [z2|q]; cbn in *.
  - exists (NInt (z1 + z2)). split; [reflexivity|]. now apply Hz.
  - rewrite Hx. injection Hy as ->. cbn. now eexists.
  - rewrite Hy. injection Hx as ->. cbn. now eexists.
  - injection Hx as ->. injection Hy as ->. now eexists.
Qed.

Lemma PDFTextState_copy_id (ts : PDFTextState) : PDFTextState_copy ts = ts.
Proof. now destruct ts. Qed.

Lemma PDFGraphicState_copy_id (gs : PDFGraphicState) :
  PDFGraphicState_copy gs = gs.
Proof. now destruct gs. Qed.

(** Popping as many operands as were just pushed returns them and leaves
    the stack as it was before. *)
Lemma pop_pushed (l st : list PDFObj) (self : PDFPageInterpreter) :
  l <> [] ->
  argstack self = (st ++ l)%list ->
  pop (Z.of_nat (List.length l)) self = (l, set_argstack st self).
Proof.
  intros Hl Hs. unfold pop.
  assert (Hlen : (0 < List.length l)%nat)
    by (destruct l; [contradiction | simpl; lia]).
  destruct (Z.of_nat (List.length l) =? 0) eqn:E; [lia|].
  rewrite Hs.
  assert (Hk : slice_index (List.length (st ++ l)%list)
                 (- Z.of_nat (List.length l))
               = List.length st).
  { unfold slice_index. rewrite length_app.
    destruct (- Z.of_nat (List.length l) <? 0) eqn:F; lia. }
  rewrite Hk.
  rewrite skipn_app, firstn_app, Nat.sub_diag, skipn_all, firstn_all.
  simpl. rewrite app_nil_r. reflexivity.
Qed.

(** With fewer operands than asked for, [pop] returns them all and
    empties the stack. *)
Lemma pop_underflow (n : Z) (self : PDFPageInterpreter) :
  Z.of_nat (List.length (argstack self)) < n ->
  pop n self = (argstack self, set_argstack [] self).
Proof.
  intros Hn. unfold pop.
  destruct (n =? 0) eqn:E; [lia|].
  assert (Hk : slice_index (List.length (argstack self)) (- n) = O).
  { unfold slice_index. destruct (- n <? 0) eqn:F; lia. }
  rewrite Hk. reflexivity.
Qed.

(** ** Save and restore with an empty stack *)

(** C9: [Q] with an empty [gstack] is a no-op: the handler returns the
    interpreter as it is ([ctm], [textstate], [graphicstate], [gstack] and
    the record of device calls included), also when it is reached through
    the dispatch of [execute]. *)
Theorem do_Q_empty_gstack_noop (self : PDFPageInterpreter) :
  gstack self = [] ->
  do_Q self = Ok self /\
  forall (X : Externals) rc (idx : PDFObj),
    execute_keyword rc "Q" idx self = Ok self.
Proof.
  intros Hg.
  assert (H : do_Q self = Ok self) by (unfold do_Q; now rewrite Hg).
  split; [exact H|].
  intros X rc idx. exact H.
Qed.

Lemma do_Q_empty_gstack_noop_witness :
  gstack (page_start lenient) = [] /\
  do_Q (page_start lenient) = Ok (page_start lenient).
Proof.
  split; [reflexivity|].
  apply (do_Q_empty_gstack_noop (page_start lenient)). reflexivity.
Defined.

(** ** The dispatch of a keyword *)

(** A keyword whose method is not one of the indexed ones, with its
    operands on top of the stack: the method is called on them. *)
Lemma execute_keyword_call {X : Externals} rc (name : string) (idx : PDFObj)
    (func : Method) (args st : list PDFObj) (self : PDFPageInterpreter) :
  getattr_method rc (method_name name) = Some func ->
  in_INDEXED_METHODS (method_name name) = false ->
  co_argcount func - 1 = Z.of_nat (List.length args) ->
  args <> [] ->
  argstack self = (st ++ args)%list ->
  execute_keyword rc name idx self
  = call_method func args (set_argstack st self).
Proof.
  intros Hf Hi Hn Ha Hs. unfold execute_keyword, method_nargs.
  rewrite Hf, Hi, Hn.
  assert (Hlen : (0 < List.length args)%nat)
    by (destruct args; [contradiction | simpl; lia]).
  destruct (Z.of_nat (List.length args) =? 0) eqn:E; [lia|].
  cbn [negb]. rewrite (@pop_pushed args st self Ha Hs), Z.eqb_refl. reflexivity.
Qed.

(** A keyword whose method takes no operand: the method is called. *)
Lemma execute_keyword_call0 {X : Externals} rc (name : string) (idx : PDFObj)
    (f : PDFPageInterpreter -> Exc PDFPageInterpreter)
    (self : PDFPageInterpreter) :
  getattr_method rc (method_name name) = Some (Method0 f) ->
  in_INDEXED_METHODS (method_name name) = false ->
  execute_keyword rc name idx self = f self.
Proof.
  intros Hf Hi. unfold execute_keyword, method_nargs.
  rewrite Hf, Hi. reflexivity.
Qed.




(** ** Paths and painting *)




(** C2 as stated fails: on a page whose current path holds one segment,
    [n] does not call [paint_path] with all three flags false, and [F] does
    not call [paint_path] with fill=true and empty the path. *)
Lemma n_and_F_do_not_paint :
  let self := curpath_append (Seg_m (OInt 0) (OInt 0)) (page_start lenient) in
  ~ (exists s, do_n self = Ok s /\
       device s = (device self
                   ++ [paint_path (graphicstate self) false false false
                         (curpath self)])%list /\
       curpath s = [])
  /\
  ~ (exists s, do_F self = Ok s /\
       device s = (device self
                   ++ [paint_path (graphicstate self) false true false
                         (curpath self)])%list /\
       curpath s = []).
Proof.
  split; intros (s & Hs & Hd & _); inversion Hs; subst s; discriminate Hd.
Qed.

(** C2, amended: each of [S], [s], [f], [f*], [B], [B*], [b], [b*] calls
    [paint_path] with the graphic state, the flags of its row of the table
    of section 4.6 and the current path ([s], [b], [b*] after appending
    [Close] to it), and then empties [curpath]; [n] empties [curpath] and
    calls nothing.  Nothing else of the interpreter changes. *)
Theorem paint_operators_follow_table {X : Externals} rc (idx : PDFObj)
    (self : PDFPageInterpreter) :
  let painted stroke fill evenodd path :=
    Ok (set_curpath []
          (call_device
             (paint_path (graphicstate self) stroke fill evenodd path) self)) in
  let closed := (curpath self ++ [Seg_h])%list in
  execute_keyword rc "S" idx self = painted true false false (curpath self)
  /\ execute_keyword rc "s" idx self = painted true false false closed
  /\ execute_keyword rc "f" idx self = painted false true false (curpath self)
  /\ execute_keyword rc "f*" idx self = painted false true true (curpath self)
  /\ execute_keyword rc "B" idx self = painted true true false (curpath self)
  /\ execute_keyword rc "B*" idx self = painted true true true (curpath self)
  /\ execute_keyword rc "b" idx self = painted true true false closed
  /\ execute_keyword rc "b*" idx self = painted true true true closed
  /\ execute_keyword rc "n" idx self = Ok (set_curpath [] self).
Proof.
  repeat split; reflexivity.
Qed.

(** ** Text positioning *)

(** C8 as stated fails for integers that are no floats: [float] rounds
    2^53+1 to 2^53, so [Td (2^53+1) 0] followed by [Td (-2^53) 0] ends at
    [e = 0.0], where [Td 1 0] ends at [e = 1.0]. *)
Lemma Td_rounds_its_operands :
  let self := page_start lenient in
  (s1 <- @do_Td lenient (OInt 9007199254740993) (OInt 0) self ;;
   s2 <- @do_Td lenient (OInt (-9007199254740992)) (OInt 0) s1 ;;
   Ok (matrix (textstate s2)))
  = Ok (OInt 1, OInt 0, OInt 0, OInt 1, OReal 0, OReal 0)
  /\ (s <- @do_Td lenient (OInt (9007199254740993 + -9007199254740992))
              (OInt (0 + 0)) self ;;
      Ok (matrix (textstate s)))
     = Ok (OInt 1, OInt 0, OInt 0, OInt 1, OReal 1, OReal 0)
  /\ (0 =? 1)%float = false.
Proof.
  repeat split; vm_compute; reflexivity.
Qed.

(** C8, amended: from the identity text matrix, for numbers [tx1], [ty1],
    [tx2], [ty2] that have float values [X1], [Y1], [X2], [Y2] with finite
    sums, and where two integers are added with [float] of their sum being
    the sum of their floats, Python computes [tx1+tx2] and [ty1+ty2], and
    [Td tx1 ty1] followed by [Td tx2 ty2] ends in the very state
    [Td (tx1+tx2) (ty1+ty2)] ends in, with [e = X1 + X2 + 0.0] and
    [f = Y1 + Y2 + 0.0]; and on a text matrix [(a,b,c,d,e,f)] of numbers
    with float values, [Td tx ty] leaves [a,b,c,d] and sets
    [e' = tx*a + ty*c + e] and [f' = tx*b + ty*d + f] in float arithmetic. *)
Theorem Td_translations_compose {X : Externals} (tx1 ty1 tx2 ty2 : num)
    (X1 Y1 X2 Y2 : float) (self : PDFPageInterpreter) :
  matrix (textstate self) = MATRIX_IDENTITY ->
  to_float tx1 = Ok X1 -> to_float ty1 = Ok Y1 ->
  to_float tx2 = Ok X2 -> to_float ty2 = Ok Y2 ->
  (forall z1 z2, tx1 = NInt z1 -> tx2 = NInt z2 ->
                 py_float (z1 + z2) = Ok (X1 + X2)%float) ->
  (forall z1 z2, ty1 = NInt z1 -> ty2 = NInt z2 ->
                 py_float (z1 + z2) = Ok (Y1 + Y2)%float) ->
  is_finite (X1 + X2) = true -> is_finite (Y1 + Y2) = true ->
  (exists sx sy s1 s2,
     num_add tx1 tx2 = Ok sx /\ num_add ty1 ty2 = Ok sy /\
     do_Td (of_num tx1) (of_num ty1) self = Ok s1 /\
     do_Td (of_num tx2) (of_num ty2) s1 = Ok s2 /\
     do_Td (of_num sx) (of_num sy) self = Ok s2 /\
     matrix (textstate s2)
     = (OInt 1, OInt 0, OInt 0, OInt 1,
        OReal (X1 + X2 + 0)%float, OReal (Y1 + Y2 + 0)%float))
  /\
  (forall (a b c d e f tx ty : num) (A B C D E F TX TY : float)
          (s : PDFPageInterpreter),
     matrix (textstate s)
     = (of_num a, of_num b, of_num c, of_num d, of_num e, of_num f) ->
     to_float tx = Ok TX -> to_float ty = Ok TY ->
     to_float a = Ok A -> to_float b = Ok B -> to_float c = Ok C ->
     to_float d = Ok D -> to_float e = Ok E -> to_float f = Ok F ->
     exists s',
       do_Td (of_num tx) (of_num ty) s = Ok s' /\
       matrix (textstate s')
       = (of_num a, of_num b, of_num c, of_num d,
          OReal (TX * A + TY * C + E)%float,
          OReal (TX * B + TY * D + F)%float)).
Proof.
  intros Hm H1 H2 H3 H4 Ex Ey Fx Fy. split.
  - destruct (add_finite_inv _ _ Fx) as [FX1 FX2].
    destruct (add_finite_inv _ _ Fy) as [FY1 FY2].
    destruct (num_add_float tx1 tx2 X1 X2 H1 H3 Ex) as (sx & Hsx & Hfx).
    destruct (num_add_float ty1 ty2 Y1 Y2 H2 H4 Ey) as (sy & Hsy & Hfy).
    exists sx, sy.
    pose proof (do_Td_numbers tx1 ty1 (NInt 1) (NInt 0) (NInt 0) (NInt 1)
                  (NInt 0) (NInt 0) X1 Y1 1 0 0 1 0 0 self Hm H1 H2
                  eq_refl eq_refl eq_refl eq_refl eq_refl eq_refl) as T1.
    pose proof (do_Td_numbers sx sy (NInt 1) (NInt 0) (NInt 0) (NInt 1)
                  (NInt 0) (NInt 0) (X1 + X2) (Y1 + Y2) 1 0 0 1 0 0 self Hm
                  Hfx Hfy
                  eq_refl eq_refl eq_refl eq_refl eq_refl eq_refl) as T3.
    rewrite (translate_one_zero X1 Y1 0 FX1 FY1 zero_not_neg_zero),
            (translate_zero_one X1 Y1 0 FX1 FY1 zero_not_neg_zero) in T1.
    rewrite (translate_one_zero _ _ 0 Fx Fy zero_not_neg_zero),
            (translate_zero_one _ _ 0 Fx Fy zero_not_neg_zero) in T3.
    match type of T1 with _ = Ok ?s => set (s1 := s) in * end.
    exists s1. eexists.
    split; [exact Hsx|]. split; [exact Hsy|]. split; [exact T1|].
    rewrite (do_Td_numbers tx2 ty2 (NInt 1) (NInt 0) (NInt 0) (NInt 1)
               (NReal (X1 + 0)) (NReal (Y1 + 0)) X2 Y2 1 0 0 1
               (X1 + 0) (Y1 + 0) s1 eq_refl H3 H4
               eq_refl eq_refl eq_refl eq_refl eq_refl eq_refl).
    rewrite (translate_one_zero X2 Y2 _ FX2 FY2
               (add_not_neg_zero X1 0 zero_not_neg_zero)),
            (translate_zero_one X2 Y2 _ FX2 FY2
               (add_not_neg_zero Y1 0 zero_not_neg_zero)).
    rewrite (add_add_zero X1 X2 FX1 FX2), (add_add_zero Y1 Y2 FY1 FY2).
    split; [reflexivity|]. rewrite T3. subst s1.
    split; [|reflexivity].
    destruct self as [? ? ? ? ? ? ? ? ts ? ? ? ? ?]; destruct ts.
    reflexivity.
  - intros a b c d e f tx ty A B C D E F TX TY s Hs Hx Hy Ha Hb Hc Hd He Hf.
    rewrite (do_Td_numbers tx ty a b c d e f TX TY A B C D E F s)
      by assumption.
    eexists. split; reflexivity.
Qed.

Lemma Td_translations_compose_witness :
  matrix (textstate (page_start lenient)) = MATRIX_IDENTITY /\
  exists sx sy s1 s2,
    num_add (NInt 72) (NInt 0) = Ok sx /\
    num_add (NInt 700) (NReal 20.5) = Ok sy /\
    @do_Td lenient (OInt 72) (OInt 700) (page_start lenient) = Ok s1 /\
    @do_Td lenient (OInt 0) (OReal 20.5) s1 = Ok s2 /\
    @do_Td lenient (of_num sx) (of_num sy) (page_start lenient) = Ok s2 /\
    matrix (textstate s2)
    = (OInt 1, OInt 0, OInt 0, OInt 1,
       OReal (72 + 0 + 0)%float, OReal (700 + 20.5 + 0)%float).
Proof.
  split; [reflexivity|].
  refine (proj1 (@Td_translations_compose lenient (NInt 72) (NInt 700)
                   (NInt 0) (NReal 20.5) 72 700 0 20.5 (page_start lenient)
                   eq_refl eq_refl eq_refl eq_refl eq_refl _ _
                   eq_refl eq_refl)).
  - intros z1 z2 E1 E2. injection E1 as <-. injection E2 as <-. reflexivity.
  - intros z1 z2 _ E2. discriminate E2.
Defined.

(** ** Operands missing *)

(** C3 as stated fails in strict mode: [m] takes two operands; with one
    operand on the stack and [STRICT] set, [execute] raises nothing, it
    drops the operand and goes on. *)
Lemma strict_underflow_raises_nothing :
  let self := push (OInt 1) (page_start strict) in
  @execute_keyword strict (@render_contents strict 0) "m" ONone self
  = Ok (page_start strict)
  /\ ~ (exists e,
          @execute_keyword strict (@render_contents strict 0) "m" ONone self
          = Raise e).
Proof.
  split; [vm_compute; reflexivity|].
  intros (e & He). vm_compute in He. discriminate He.
Qed.

(** C3, amended: when the stack holds fewer operands than the [nargs]
    that [execute] computes for the method of a keyword, the method is not
    called and nothing is raised, whether [STRICT] is set or not: the
    operands that were there are dropped and nothing else changes. *)
Theorem underflow_skips_operator {X : Externals} rc (name : string)
    (idx : PDFObj) (func : Method) (self : PDFPageInterpreter) :
  getattr_method rc (method_name name) = Some func ->
  Z.of_nat (List.length (argstack self)) < method_nargs (method_name name) func ->
  execute_keyword rc name idx self = Ok (set_argstack [] self).
Proof.
  intros Hf Hn. unfold execute_keyword. rewrite Hf.
  destruct (method_nargs (method_name name) func =? 0) eqn:E; [lia|].
  cbn [negb]. rewrite (pop_underflow _ _ Hn).
  destruct (Z.of_nat (List.length (argstack self))
            =? method_nargs (method_name name) func) eqn:F; [lia|].
  reflexivity.
Qed.

Lemma underflow_skips_operator_witness :
  let self := push (OInt 1) (page_start strict) in
  @execute_keyword strict (@render_contents strict 0) "m" ONone self
  = Ok (set_argstack [] self).
Proof.
  intros self.
  apply (@underflow_skips_operator strict (@render_contents strict 0) "m"
           ONone (Method2 do_m) self); [reflexivity | vm_compute; reflexivity].
Defined.

(** ** The show-text operators with a line move *)

(** C1, the code at the failing input.  After [/F1 12 Tf 14 TL] on a fresh
    page (leading [-14], text matrix the identity), [do__w 1 2 (A)] calls
    [render_string] with the text matrix still the identity, whereas [Tw 1],
    [Tc 2] and then [do__q (A)] call it with the matrix moved by the leading
    to [(1,0,0,1,0,-14)]: [do__w] leaves out the [T*] step of [do__q].  Run
    through [execute] with its three operands, the double-quote keyword is
    moreover skipped, its [nargs] being computed as four. *)
Theorem dquote_leaves_out_line_move :
  exists s0 s1 s2 ts1 ts2 cs gs,
    (s <- @do_Tf lenient (OLit "F1") (OInt 12) (page_start lenient) ;;
     do_TL (OInt 14) s) = Ok s0
    /\ @do__w lenient (OInt 1) (OInt 2) (OBytes "A") ONone s0 = Ok s1
    /\ (s <- do_Tw (OInt 1) s0 ;; s <- do_Tc (OInt 2) s ;;
        @do__q lenient (OBytes "A") ONone s) = Ok s2
    /\ device s1
       = (device s0 ++ [render_string ts1 (OArr [OBytes "A"]) cs gs ONone])%list
    /\ device s2
       = (device s0 ++ [render_string ts2 (OArr [OBytes "A"]) cs gs ONone])%list
    /\ matrix ts1 = MATRIX_IDENTITY
    /\ matrix ts2 = (OInt 1, OInt 0, OInt 0, OInt 1, OInt 0, OInt (-14))
    /\ @execute_entries lenient (@render_contents lenient 0)
         [ Entry2 0 (OInt 1); Entry2 2 (OInt 2); Entry2 4 (OBytes "A");
           Entry3 8 (OKwd (String DQUOTE EmptyString)) (OInt 3) ] s0
       = Ok s0.
Proof.
  do 7 eexists.
  split; [vm_compute; reflexivity|].
  split; [vm_compute; reflexivity|].
  split; [vm_compute; reflexivity|].
  split; [vm_compute; reflexivity|].
  split; [vm_compute; reflexivity|].
  split; [vm_compute; reflexivity|].
  split; [vm_compute; reflexivity|].
  vm_compute; reflexivity.
Qed.

(** ** Inline images *)

(** The scanning loop raises nothing but [PSEOF] (and [IndexError] on an
    empty target). *)
Lemma inline_scan_not_PSTypeError (target : string) (buf : string) :
  forall (i : nat) (data : string),
    inline_scan target i data buf <> Raise PSTypeError.
Proof.
  induction buf as [|c buf IH]; intros i data; simpl.
  - destruct (String.length target <? i)%nat; discriminate.
  - destruct (String.length target <? i)%nat; [discriminate|].
    destruct (i =? 0)%nat.
    + destruct (String.get 0 target); [|discriminate].
      destruct (Ascii.eqb c a); apply IH.
    + destruct (_ || _); apply IH.
Qed.

Lemma get_inline_data_not_PSTypeError (self : PDFContentParser) (pos : Z)
    (target : string) :
  get_inline_data self pos target <> Raise PSTypeError.
Proof.
  unfold get_inline_data.
  pose proof (@inline_scan_not_PSTypeError target (unread (seek pos self))
                O EmptyString) as H.
  destruct (inline_scan target 0 EmptyString (unread (seek pos self)))
    as [[data rest]| e |]; cbn [bind]; try congruence.
  destruct (advance _ _ _ _); discriminate.
Qed.

(** The end marker chosen when [F] names an ASCII85 filter, alone or first
    in an array. *)
Lemma inline_eos_ascii85 {X : Externals} (d : list (string * PDFObj))
    (n : string) (rest : list PDFObj) :
  dict_get "F" d = Some (OLit n) \/ dict_get "F" d = Some (OArr (OLit n :: rest)) ->
  In n LITERALS_ASCII85_DECODE ->
  inline_eos d = Ok "~>".
Proof.
  intros HF Hn. unfold inline_eos.
  assert (Hin : in_LITERALS_ASCII85_DECODE (OLit n) = true).
  { simpl in Hn. destruct Hn as [<- | [<- | []]]; reflexivity. }
  destruct HF as [-> | ->]; cbn [filter_first bind]; now rewrite Hin.
Qed.

(** C6: at [ID], with the operands read since [BI] forming the dictionary
    [d].  If key [F] of [d] names an ASCII85 filter ([/A85] or
    [/ASCII85Decode], alone or first in an array), the data are read by
    [get_inline_data] with the end marker [~>], the stream pushed holds the
    data with [~>] appended, and nothing else is pushed: no [EI] keyword.
    If the end marker is [EI], the data are read up to [EI], and the
    keyword [EI] is pushed after the stream. *)
Theorem inline_image_end_marker {X : Externals}
    (self self1 : PDFContentParser) (pos p0 : Z) (idx : PDFObj)
    (objs : list PDFObj) (d : list (string * PDFObj)) :
  end_type "inline" self = Ok (self1, (p0, objs)) ->
  Nat.even (List.length objs) = true ->
  inline_dict (choplist2 objs) [] = Ok d ->
  (forall (n : string) (rest : list PDFObj),
     dict_get "F" d = Some (OLit n)
     \/ dict_get "F" d = Some (OArr (OLit n :: rest)) ->
     In n LITERALS_ASCII85_DECODE ->
     do_keyword self pos KEYWORD_ID idx
     = ('(p, (pos', data)) <- get_inline_data self1 (pos + 3) "~>" ;;
        Ok (push_entry (Entry2 pos' (OStream d (data ++ "~>"))) p)))
  /\
  (inline_eos d = Ok "EI" ->
     do_keyword self pos KEYWORD_ID idx
     = ('(p, (pos', data)) <- get_inline_data self1 (pos + 3) "EI" ;;
        Ok (push_entry (Entry2 pos' KEYWORD_EI)
              (push_entry (Entry2 pos' (OStream d data)) p)))).
Proof.
  intros Hend Heven Hd.
  assert (Hkw : forall eos, inline_eos d = Ok eos ->
            do_keyword self pos KEYWORD_ID idx
            = ('(p, (pos', data)) <- get_inline_data self1 (pos + 3) eos ;;
               let data := if negb (String.eqb eos "EI") then data ++ eos
                           else data in
               let p := push_entry (Entry2 pos' (OStream d data)) p in
               Ok (if String.eqb eos "EI"
                   then push_entry (Entry2 pos' KEYWORD_EI) p else p))).
  { intros eos Heos. unfold do_keyword. cbn [is_keyword KEYWORD_ID String.eqb].
    change (is_keyword "BI" (OKwd "ID")) with false.
    change (is_keyword "ID" (OKwd "ID")) with true. cbn iota.
    rewrite Hend. unfold do_keyword_ID.
    rewrite Heven, Hd. cbn [negb bind]. rewrite Heos. cbn [bind].
    pose proof (@get_inline_data_not_PSTypeError self1 (pos + 3) eos) as Hne.
    destruct (get_inline_data self1 (pos + 3) eos) as [[p [pos' data]]| e |];
      cbn [bind]; try reflexivity.
    destruct e; try reflexivity. congruence. }
  split.
  - intros n rest HF Hn.
    rewrite (Hkw "~>" (inline_eos_ascii85 d n rest HF Hn)). reflexivity.
  - intros Heos. rewrite (Hkw "EI" Heos). reflexivity.
Qed.

Lemma inline_image_end_marker_witness :
  let data := "BI /F /A85 ID abc~> EI Q" in
  let opened := mkParser data [] " abc~> EI Q" [(0, None, [])] (Some "inline")
                  [Entry2 3 (OLit "F"); Entry2 6 (OLit "A85")] in
  @do_keyword lenient opened 11 KEYWORD_ID (OInt 1)
  = Ok (mkParser data [] "EI Q" [] None
          [Entry2 14 (OStream [("F", OLit "A85")] "abc~>")]).
Proof.
  intros data opened.
  destruct (@inline_image_end_marker lenient opened
              (mkParser data [] " abc~> EI Q" [] None []) 11 0 (OInt 1)
              [OLit "F"; OLit "A85"] [("F", OLit "A85")]
              eq_refl eq_refl eq_refl) as [H _].
  rewrite (H "A85" [] (or_introl eq_refl) (or_intror (or_introl eq_refl))).
  vm_compute. reflexivity.
Defined.

(** ** What the methods leave alone *)

Lemma dict_get_In {V : Type} (k : string) (v : V) (d : list (string * V)) :
  dict_get k d = Some v -> In (k, v) d.
Proof.
  induction d as [|[k' v'] d IH]; simpl; [discriminate|].
  destruct (String.eqb_spec k k') as [->|Hne].
  - intros [= ->]. now left.
  - intros H. right. auto.
Qed.

(** Breaks the hypotheses [e = Ok s] along the binds and tests of [e]. *)
Ltac crunch :=
  repeat
    match goal with
    | H : Ok _ = Ok _ |- _ => injection H; clear H; intros; try subst
    | H : (_, _) = (_, _) |- _ => injection H; clear H; intros; try subst
    | H : Raise _ = Ok _ |- _ => discriminate H
    | H : OutOfFuel = Ok _ |- _ => discriminate H
    | H : context [bind ?m _] |- _ => destruct m eqn:?; cbn [bind] in H
    | H : context [match ?x with _ => _ end] |- _ => destruct x eqn:?
    end.

(** Closes a goal on a field of a state built by the setters. *)
Ltac finish :=
  cbn;
  repeat (match goal with
          | |- context [match ?x with _ => _ end] => destruct x
          end; cbn);
  auto.

Create HintDb handlers.
#[local] Hint Unfold do_q do_Q do_cm do_w do_J do_j do_M do_d do_ri do_i do_gs
  do_m do_l do_c do_v do_y do_h do_re do_S do_s do_f do_F do_f_a do_B do_B_a
  do_b do_b_a do_n do_W do_W_a do_CS do_cs do_G do_g do_RG do_rg do_K do_k
  do_SCN do_scn do_SC do_sc do_sh do_BT do_ET do_BX do_EX do_MP do_DP do_BMC
  do_BDC do_EMC do_Tc do_Tw do_Tz do_TL do_Tf do_Tr do_Ts do_Td do_TD do_Tm
  do_T_a do_TJ do_Tj do__q do__w do_BI do_ID do_EI do_Do
  pop_components pop paint curpath_append upd_gs upd_ts set_current_state
  : handlers.

Section Frames.
Context {X : Externals}.
Variable rc :
  PDFPageInterpreter -> PDFObj -> PDFObj -> Matrix -> Exc PDFPageInterpreter.

(** Every method but [do_q] and [do_Q] leaves [gstack] as it is. *)
Lemma methods_keep_gstack (method : string) (func : Method) :
  In (method, func) (METHODS rc) ->
  method <> "do_q" -> method <> "do_Q" ->
  forall args self s',
    call_method func args self = Ok s' -> gstack s' = gstack self.
Proof.
  intros Hin Hq HQ args self s' H.
  simpl in Hin.
  repeat (destruct Hin as [Hin|Hin];
          [injection Hin as <- <-; try congruence;
           unfold call_method in H; autounfold with handlers in H;
           crunch; finish |]).
  contradiction.
Qed.

(** Every method leaves the two color spaces set, if they were. *)
Lemma methods_keep_colorspaces (method : string) (func : Method) :
  In (method, func) (METHODS rc) ->
  forall args self s',
    call_method func args self = Ok s' ->
    scs self <> None /\ ncs self <> None ->
    scs s' <> None /\ ncs s' <> None.
Proof.
  intros Hin args self s' H [Hs Hn].
  simpl in Hin.
  repeat (destruct Hin as [Hin|Hin];
          [injection Hin as <- <-;
           unfold call_method in H; autounfold with handlers in H;
           crunch; finish; (split; congruence) |]).
  contradiction.
Qed.
End Frames.

(** ** The method a keyword names *)

Lemma replace_char_empty (c : ascii) (x y : ascii) (s : string) :
  replace_char c (String x (String y EmptyString)) s = EmptyString ->
  s = EmptyString.
Proof.
  destruct s as [|a s]; [reflexivity|].
  simpl. destruct (Ascii.eqb a c); discriminate.
Qed.

(** A replacement by an underscore and a letter yields a one-letter name
    other than the underscore only from that very name. *)
Lemma replace_char_single (c x y : ascii) (s : string) :
  y <> "_"%char ->
  replace_char c (String "_" (String x EmptyString)) s = String y EmptyString ->
  s = String y EmptyString.
Proof.
  intros Hy. destruct s as [|a s]; [discriminate|].
  simpl. destruct (Ascii.eqb a c).
  - simpl. intros H. inversion H; congruence.
  - intros [= -> E]. now rewrite (replace_char_empty _ _ _ _ E).
Qed.

Lemma method_name_single (y : ascii) (name : string) :
  y <> "_"%char ->
  method_name name = "do_" ++ String y EmptyString ->
  name = String y EmptyString.
Proof.
  intros Hy H. unfold method_name in H. simpl in H.
  injection H as H.
  apply (replace_char_single _ _ _ _ Hy) in H.
  apply (replace_char_single _ _ _ _ Hy) in H.
  apply (replace_char_single _ _ _ _ Hy) in H.
  exact H.
Qed.

Lemma is_keyword_false (k : string) (kw : string) :
  is_keyword k (OKwd kw) = false -> kw <> k.
Proof.
  simpl. intros H ->. now rewrite String.eqb_refl in H.
Qed.

Lemma is_keyword_true (k : string) (o : PDFObj) :
  is_keyword k o = true -> o = OKwd k.
Proof.
  destruct o; simpl; try discriminate.
  intros H. apply String.eqb_eq in H. now subst.
Qed.

(** ** Save and restore *)

Section SaveRestore.
Context {X : Externals}.
Variable rc :
  PDFPageInterpreter -> PDFObj -> PDFObj -> Matrix -> Exc PDFPageInterpreter.

Lemma execute_entries_app (a b : list StackEntry) (self : PDFPageInterpreter) :
  execute_entries rc (a ++ b) self
  = (s <- execute_entries rc a self ;; execute_entries rc b s).
Proof.
  revert self. induction a as [|e a IH]; intros self; simpl; [reflexivity|].
  destruct (execute_entry rc e self); simpl; auto.
Qed.

Lemma execute_entry_keyword (e : StackEntry) (kw : string) :
  entry_obj e = OKwd kw ->
  exists idx, forall self,
    execute_entry rc e self = execute_keyword rc kw idx self.
Proof.
  destruct e as [p o | p o i]; simpl; intros ->; eexists; reflexivity.
Qed.

Lemma pop_keeps_gstack (n : Z) (self : PDFPageInterpreter) :
  gstack (snd (pop n self)) = gstack self.
Proof. unfold pop. now destruct (n =? 0). Qed.

(** An entry that is neither [q] nor [Q] leaves [gstack] as it is. *)
Lemma execute_entry_keeps_gstack (e : StackEntry) (self s' : PDFPageInterpreter) :
  is_keyword "q" (entry_obj e) = false ->
  is_keyword "Q" (entry_obj e) = false ->
  execute_entry rc e self = Ok s' ->
  gstack s' = gstack self.
Proof.
  intros Hq HQ H.
  assert (Hk : forall kw idx, entry_obj e = OKwd kw ->
            execute_keyword rc kw idx self = Ok s' -> gstack s' = gstack self).
  { intros kw idx Hkw Hex. rewrite Hkw in Hq, HQ.
    apply is_keyword_false in Hq, HQ.
    unfold execute_keyword in Hex.
    destruct (getattr_method rc (method_name kw)) as [func|] eqn:Hf.
    - apply dict_get_In in Hf.
      assert (Hnq : method_name kw <> "do_q").
      { intros E. apply Hq. apply (method_name_single "q"%char kw); [|exact E].
        discriminate. }
      assert (HnQ : method_name kw <> "do_Q").
      { intros E. apply HQ. apply (method_name_single "Q"%char kw); [|exact E].
        discriminate. }
      pose proof (methods_keep_gstack rc _ _ Hf Hnq HnQ) as Hm.
      destruct (negb (method_nargs (method_name kw) func =? 0)).
      + pose proof (pop_keeps_gstack (method_nargs (method_name kw) func) self)
          as Hp.
        destruct (pop (method_nargs (method_name kw) func) self) as [args s1].
        simpl in Hp.
        destruct (Z.of_nat (List.length args)
                  =? method_nargs (method_name kw) func).
        * destruct (in_INDEXED_METHODS (method_name kw));
            apply Hm in Hex; congruence.
        * injection Hex as <-. exact Hp.
      + apply Hm in Hex. exact Hex.
    - destruct STRICT; [discriminate|]. now injection Hex as <-. }
  destruct e as [p o | p o i]; simpl in *;
    destruct o; try (injection H as <-; reflexivity);
    eapply Hk; eauto.
Qed.

(** A run that keeps its pairs nested touches only the part of [gstack] it
    has pushed itself. *)
Lemma nesting_run (entries : list StackEntry) :
  forall (depth depth' : nat) (self s' : PDFPageInterpreter)
         (base top : list (Matrix * PDFTextState * PDFGraphicState)),
    nesting depth entries = Some depth' ->
    gstack self = (base ++ top)%list ->
    List.length top = depth ->
    execute_entries rc entries self = Ok s' ->
    exists top', gstack s' = (base ++ top')%list /\ List.length top' = depth'.
Proof.
  induction entries as [|e entries IH];
    intros depth depth' self s' base top Hn Hg Hl Hex.
  - simpl in *. injection Hn as <-. injection Hex as <-. eauto.
  - simpl in Hn, Hex.
    destruct (execute_entry rc e self) as [s1| |] eqn:He; try discriminate.
    simpl in Hex.
    destruct (is_keyword "q" (entry_obj e)) eqn:Hq.
    + apply is_keyword_true in Hq.
      assert (Hs1 : s1 = set_gstack (gstack self ++ [get_current_state self]) self).
      { destruct (execute_entry_keyword e "q" Hq) as (idx & Hidx).
        rewrite Hidx in He.
        rewrite (@execute_keyword_call0 X rc "q" idx do_q) in He;
          try reflexivity.
        unfold do_q in He. now injection He as <-. }
      apply (IH (S depth) depth' s1 s' base
               (top ++ [get_current_state self])%list Hn); [| |exact Hex].
      * rewrite Hs1. simpl. rewrite Hg. now rewrite app_assoc.
      * rewrite length_app. simpl. lia.
    + destruct (is_keyword "Q" (entry_obj e)) eqn:HQ.
      * apply is_keyword_true in HQ.
        destruct depth as [|d]; [discriminate|].
        destruct (@exists_last _ top) as (top0 & x & Htop).
        { intros ->. discriminate. }
        assert (Hs1 : gstack s1 = (base ++ top0)%list).
        { assert (Hdo : do_Q self = Ok s1).
          { destruct (execute_entry_keyword e "Q" HQ) as (idx & Hidx).
            rewrite Hidx in He.
            rewrite (@execute_keyword_call0 X rc "Q" idx do_Q) in He;
              try reflexivity.
            exact He. }
          unfold do_Q in Hdo. rewrite Hg, Htop, app_assoc, list_pop_app in Hdo.
          injection Hdo as <-. unfold set_current_state.
          now destruct x as [[m ts] gs]. }
        apply (IH d depth' s1 s' base top0 Hn Hs1); [|exact Hex].
        subst top. rewrite length_app in Hl. simpl in Hl. lia.
      * pose proof (execute_entry_keeps_gstack e self s1 Hq HQ He) as Hk.
        apply (IH depth depth' s1 s' base top Hn); [congruence|exact Hl|exact Hex].
Qed.
End SaveRestore.

(** C4: [q], then a run of entries that keeps its own [q]/[Q] pairs
    nested, then [Q]: if the run reaches that [Q], its [ctm], [textstate],
    [graphicstate] (and [gstack]) are those at the [q], and that [Q] calls
    [set_ctm] with the restored [ctm] as the last thing it does. *)
Theorem q_Q_restores_state {X : Externals} rc (mid : list StackEntry)
    (p1 p2 : Z) (i1 i2 : PDFObj) (self s' : PDFPageInterpreter) :
  nested mid ->
  execute_entries rc
    (Entry3 p1 (OKwd "q") i1 :: mid ++ [Entry3 p2 (OKwd "Q") i2]) self = Ok s' ->
  ctm s' = ctm self
  /\ textstate s' = textstate self
  /\ graphicstate s' = graphicstate self
  /\ gstack s' = gstack self
  /\ exists before,
       execute_entries rc (Entry3 p1 (OKwd "q") i1 :: mid) self = Ok before
       /\ device s' = (device before ++ [set_ctm (ctm self)])%list.
Proof.
  intros Hmid Hex.
  change (Entry3 p1 (OKwd "q") i1 :: mid ++ [Entry3 p2 (OKwd "Q") i2])
    with ((Entry3 p1 (OKwd "q") i1 :: mid) ++ [Entry3 p2 (OKwd "Q") i2])%list
    in Hex.
  rewrite execute_entries_app in Hex.
  destruct (execute_entries rc (Entry3 p1 (OKwd "q") i1 :: mid) self)
    as [before| |] eqn:Hrun; try discriminate.
  cbn [bind] in Hex.
  pose proof Hrun as Hrun'.
  cbn [execute_entries execute_entry keyword_name] in Hrun.
  rewrite (@execute_keyword_call0 X rc "q" i1 do_q) in Hrun; try reflexivity.
  unfold do_q in Hrun. cbn [bind] in Hrun.
  destruct (@nesting_run X rc mid O O
              (set_gstack (gstack self ++ [get_current_state self]) self)
              before (gstack self ++ [get_current_state self])%list [] Hmid)
    as (top' & Hg & Hl);
    [simpl; now rewrite app_nil_r | reflexivity | exact Hrun |].
  destruct top'; [|discriminate]. rewrite app_nil_r in Hg.
  cbn [execute_entries execute_entry keyword_name] in Hex.
  rewrite (@execute_keyword_call0 X rc "Q" i2 do_Q) in Hex; try reflexivity.
  unfold do_Q in Hex. rewrite Hg, list_pop_app in Hex. cbn [bind] in Hex.
  injection Hex as <-.
  unfold get_current_state, set_current_state.
  rewrite PDFTextState_copy_id, PDFGraphicState_copy_id.
  repeat split; try reflexivity.
  exists before. split; reflexivity.
Qed.

Lemma q_Q_restores_state_witness :
  let start := page_start lenient in
  let mid :=
    [ Entry2 2 (OInt 2); Entry2 4 (OInt 0); Entry2 6 (OInt 0); Entry2 8 (OInt 2);
      Entry2 10 (OInt 0); Entry2 12 (OInt 0); Entry3 14 (OKwd "cm") (OInt 1);
      Entry3 17 (OKwd "q") (OInt 2); Entry2 19 (OInt 5);
      Entry3 21 (OKwd "w") (OInt 3); Entry3 23 (OKwd "Q") (OInt 4);
      Entry2 25 (OInt 0); Entry2 27 (OInt 0); Entry3 29 (OKwd "m") (OInt 5);
      Entry2 31 (OInt 1); Entry2 33 (OInt 1); Entry3 35 (OKwd "l") (OInt 6);
      Entry3 37 (OKwd "S") (OInt 7) ] in
  let run :=
    (Entry3 0 (OKwd "q") (OInt 0) :: mid ++ [Entry3 39 (OKwd "Q") (OInt 8)])%list in
  nested mid /\
  exists s',
    @execute_entries lenient (@render_contents lenient 0) run start = Ok s'
    /\ ctm s' = ctm start
    /\ textstate s' = textstate start
    /\ graphicstate s' = graphicstate start.
Proof.
  intros start mid run.
  assert (Hn : nested mid) by reflexivity.
  split; [exact Hn|].
  destruct (@execute_entries lenient (@render_contents lenient 0) run start)
    as [s'| e |] eqn:E;
    [| vm_compute in E; discriminate E | vm_compute in E; discriminate E].
  exists s'. split; [reflexivity|].
  destruct (@q_Q_restores_state lenient (@render_contents lenient 0) mid
              0 39 (OInt 0) (OInt 8) start s' Hn E) as (H1 & H2 & H3 & _).
  auto.
Defined.

(** ** Binding the resources *)

Lemma dict_set_not_nil {V : Type} (k : string) (v : V) (d : list (string * V)) :
  dict_set k v d <> [].
Proof.
  destruct d as [|[k' v'] d]; simpl; [discriminate|].
  destruct (String.eqb k k'); discriminate.
Qed.

Section Resources.
Context {X : Externals}.

Lemma init_fonts_frame (fuel : nat) (items : list (string * PDFObj)) :
  forall self s',
    init_fonts fuel items self = Ok s' ->
    device s' = device self /\ csmap s' = csmap self.
Proof.
  induction items as [|[fontid spec] items IH]; intros self s' H; simpl in H.
  - injection H as <-. auto.
  - destruct (dict_value spec) as [d| |]; try discriminate. cbn [bind] in H.
    destruct (get_font fuel (rsrcmgr self) _ d) as [[f r]| |]; try discriminate.
    cbn [bind] in H. apply IH in H. exact H.
Qed.

Lemma init_colorspaces_frame (items : list (string * PDFObj)) :
  forall self s',
    init_colorspaces items self = Ok s' ->
    device s' = device self /\ (csmap self <> [] -> csmap s' <> []).
Proof.
  induction items as [|[csid spec] items IH]; intros self s' H; simpl in H.
  - injection H as <-. auto.
  - destruct (get_colorspace (resolve1 spec)) as [[cs|]| |]; try discriminate;
      cbn [bind] in H; apply IH in H; cbn in H; destruct H as [Hd Hc];
      split; auto.
    intros _. apply Hc. apply dict_set_not_nil.
Qed.

Lemma init_xobjects_frame (items : list (string * PDFObj)) :
  forall self,
    device (init_xobjects items self) = device self
    /\ csmap (init_xobjects items self) = csmap self.
Proof.
  induction items as [|[xobjid strm] items IH]; intros self; simpl; [auto|].
  destruct (IH (set_xobjmap (dict_set xobjid strm (xobjmap self)) self)); auto.
Qed.

Lemma init_resources_items_frame (fuel : nat) (items : list (string * PDFObj)) :
  forall self s',
    init_resources_items fuel items self = Ok s' ->
    device s' = device self /\ (csmap self <> [] -> csmap s' <> []).
Proof.
  induction items as [|[k v] items IH]; intros self s' H; simpl in H.
  - injection H as <-. auto.
  - match type of H with
    | bind ?m _ = _ => destruct m as [s1| |] eqn:E; try discriminate
    end.
    cbn [bind] in H. apply IH in H. destruct H as [Hd Hc].
    assert (Hs1 : device s1 = device self /\ (csmap self <> [] -> csmap s1 <> [])).
    { destruct (String.eqb k "Font").
      { destruct (dict_value v); try discriminate. cbn [bind] in E.
        apply init_fonts_frame in E. destruct E as [E1 E2].
        split; [exact E1 | now rewrite E2]. }
      destruct (String.eqb k "ColorSpace").
      { destruct (dict_value v); try discriminate. cbn [bind] in E.
        now apply init_colorspaces_frame in E. }
      destruct (String.eqb k "ProcSet").
      { destruct (list_value v); try discriminate. cbn [bind] in E.
        injection E as <-. auto. }
      destruct (String.eqb k "XObject").
      { destruct (dict_value v) as [xs| |]; try discriminate. cbn [bind] in E.
        injection E as <-. destruct (init_xobjects_frame xs self) as [E1 E2].
        split; [exact E1 | now rewrite E2]. }
      injection E as <-. auto. }
    destruct Hs1 as [Hd1 Hc1]. split; [congruence | auto].
Qed.

(** [init_resources] calls nothing on the device, and the color-space map
    it leaves holds at least the predefined table. *)
Lemma init_resources_frame (fuel : nat) (resources_ : PDFObj)
    (self s' : PDFPageInterpreter) :
  init_resources fuel resources_ self = Ok s' ->
  device s' = device self
  /\ (PREDEFINED_COLORSPACE <> [] -> csmap s' <> []).
Proof.
  unfold init_resources. intros H.
  destruct (negb (py_truthy resources_)).
  - injection H as <-. auto.
  - destruct (dict_value resources_) as [items| |]; try discriminate.
    cbn [bind] in H. apply init_resources_items_frame in H. exact H.
Qed.

(** [init_state] leaves the interpreter with the given [ctm], told to the
    device, and with empty stacks and path. *)
Lemma init_state_start (m : Matrix) (self : PDFPageInterpreter) :
  ctm (init_state m self) = m
  /\ device (init_state m self) = (device self ++ [set_ctm m])%list
  /\ gstack (init_state m self) = []
  /\ argstack (init_state m self) = []
  /\ curpath (init_state m self) = []
  /\ rsrcmgr (init_state m self) = rsrcmgr self.
Proof.
  unfold init_state. cbn. destruct (csmap self) as [|[k cs] rest]; cbn; auto 10.
Qed.
End Resources.

(** ** Form XObjects *)

(** C5: [Do] on a Form XObject with a [BBox], whose [Matrix] entry (the
    identity when absent) reads as [M]: [begin_figure(xobjid, bbox, M)] is
    called; the content is rendered by [render_contents] on a new
    interpreter that shares the device and the resource manager, with the
    stream itself as the only content stream and [mult_matrix(M, ctm)] as
    [ctm], so that the child starts with that [ctm], tells it to the device
    and has empty stacks; when the rendering returns, [end_figure(xobjid)]
    is called and nothing of the parent has changed but the record of
    device calls and the resource manager.  Without a [Resources] entry the
    resources given to the child are a copy of the parent's. *)
Theorem Do_form_xobject {X : Externals} (fuel : nat)
    (self : PDFPageInterpreter) (xobjid_arg : PDFObj) (xobjid : string)
    (xobj : PDFStream) (bb : PDFObj) (bbox M : list PDFObj) (res : PDFObj)
    (m : Matrix) :
  literal_name xobjid_arg = Ok xobjid ->
  lookup_xobject xobjid self = Ok xobj ->
  dict_get "Subtype" (attrs xobj) = Some LITERAL_FORM ->
  dict_get "BBox" (attrs xobj) = Some bb ->
  list_value bb = Ok bbox ->
  list_value (xobj_matrix xobj) = Ok M ->
  xobj_resources xobj self = Ok res ->
  mult_matrix M (matrix_list (ctm self)) = Ok m ->
  let figure := FigStr xobjid in
  let child0 :=
    set_device (device self ++ [begin_figure figure bbox M])%list (dup self) in
  let content := OArr [stream_obj xobj] in
  do_Do (render_contents fuel) xobjid_arg self
  = (child <- render_contents fuel child0 res content m ;;
     Ok (call_device (end_figure figure)
           (set_device (device child) (set_rsrcmgr (rsrcmgr child) self))))
  /\ rsrcmgr child0 = rsrcmgr self
  /\ (forall fuel' c1,
        init_resources fuel' res child0 = Ok c1 ->
        render_contents (S fuel') child0 res content m
        = (streams <- list_value content ;;
           execute (render_contents fuel') streams (init_state m c1))
        /\ ctm (init_state m c1) = m
        /\ device (init_state m c1)
           = (device self ++ [begin_figure figure bbox M; set_ctm m])%list
        /\ gstack (init_state m c1) = []
        /\ argstack (init_state m c1) = []
        /\ curpath (init_state m c1) = [])
  /\ (dict_get "Matrix" (attrs xobj) = None ->
      xobj_matrix xobj = OArr (matrix_list MATRIX_IDENTITY))
  /\ (dict_get "Resources" (attrs xobj) = None ->
      py_copy (resources self) = Ok res
      /\ forall d, resources self = ODict d -> res = resources self).
Proof.
  intros Hname Hxobj Hsub Hbb Hbbox HM Hres Hmult figure child0 content.
  split; [|split; [reflexivity|split; [|split]]].
  - unfold do_Do. rewrite Hname. cbn [bind]. rewrite Hxobj, Hsub.
    unfold dict_contains, dict_getitem. rewrite Hbb.
    cbn [LITERAL_FORM is_literal String.eqb Ascii.eqb Bool.eqb andb bind].
    rewrite Hbbox. cbn [bind]. rewrite HM. cbn [bind]. rewrite Hres.
    cbn [bind]. cbn [call_device ctm]. rewrite Hmult. cbn [bind].
    reflexivity.
  - intros fuel' c1 Hc1.
    destruct (init_resources_frame _ _ _ _ Hc1) as [Hdev _].
    destruct (init_state_start m c1) as (H1 & H2 & H3 & H4 & H5 & _).
    repeat split; try assumption.
    + cbn [render_contents]. rewrite Hc1. reflexivity.
    + rewrite H2, Hdev. unfold child0. cbn [set_device device].
      now rewrite <- app_assoc.
  - intros Hnone. unfold xobj_matrix. now rewrite Hnone.
  - intros Hnone. unfold xobj_resources in Hres. rewrite Hnone in Hres.
    cbn [py_truthy] in Hres. split; [exact Hres|].
    intros d Hd. rewrite Hd in Hres. cbn in Hres. injection Hres as <-.
    now rewrite Hd.
Qed.

Lemma Do_form_xobject_witness :
  let form :=
    mkStream
      [ ("Subtype", OLit "Form");
        ("BBox", OArr [OInt 0; OInt 0; OInt 100; OInt 100]);
        ("Matrix", OArr [OInt 2; OInt 0; OInt 0; OInt 2; OInt 10; OInt 20]) ]
      example_form_content in
  let page_res := ODict [("XObject", ODict [("X1", stream_obj form)])] in
  let parent :=
    set_resources page_res
      (set_xobjmap [("X1", stream_obj form)] (page_start lenient_with_form)) in
  exists s',
    @do_Do lenient_with_form (@render_contents lenient_with_form 2)
      (OLit "X1") parent = Ok s'
    /\ device s'
       = [ set_ctm MATRIX_IDENTITY;
           begin_figure (FigStr "X1") [OInt 0; OInt 0; OInt 100; OInt 100]
             [OInt 2; OInt 0; OInt 0; OInt 2; OInt 10; OInt 20];
           set_ctm (OInt 2, OInt 0, OInt 0, OInt 2, OInt 10, OInt 20);
           paint_path PDFGraphicState_init true false false
             [Seg_m (OInt 1) (OInt 1); Seg_l (OInt 2) (OInt 2)];
           end_figure (FigStr "X1") ].
Proof.
  intros form page_res parent.
  destruct (@Do_form_xobject lenient_with_form 2 parent (OLit "X1") "X1" form
              (OArr [OInt 0; OInt 0; OInt 100; OInt 100])
              [OInt 0; OInt 0; OInt 100; OInt 100]
              [OInt 2; OInt 0; OInt 0; OInt 2; OInt 10; OInt 20]
              page_res
              (OInt 2, OInt 0, OInt 0, OInt 2, OInt 10, OInt 20)
              eq_refl eq_refl eq_refl eq_refl eq_refl eq_refl eq_refl eq_refl)
    as [Hdo _].
  rewrite Hdo. vm_compute. eexists. split; reflexivity.
Defined.

(** ** The color spaces are always set *)

Section ColorSpaces.
Context {X : Externals}.
Variable rc :
  PDFPageInterpreter -> PDFObj -> PDFObj -> Matrix -> Exc PDFPageInterpreter.

Lemma pop_keeps_colorspaces (n : Z) (self : PDFPageInterpreter) :
  scs (snd (pop n self)) = scs self /\ ncs (snd (pop n self)) = ncs self.
Proof. unfold pop. now destruct (n =? 0). Qed.

Lemma execute_keyword_keeps_colorspaces (kw : string) (idx : PDFObj)
    (self s' : PDFPageInterpreter) :
  execute_keyword rc kw idx self = Ok s' ->
  scs self <> None /\ ncs self <> None ->
  scs s' <> None /\ ncs s' <> None.
Proof.
  intros Hex Hinv. unfold execute_keyword in Hex.
  destruct (getattr_method rc (method_name kw)) as [func|] eqn:Hf.
  - apply dict_get_In in Hf.
    pose proof (methods_keep_colorspaces rc _ _ Hf) as Hm.
    destruct (negb (method_nargs (method_name kw) func =? 0)).
    + pose proof (pop_keeps_colorspaces (method_nargs (method_name kw) func) self)
        as [Hp1 Hp2].
      destruct (pop (method_nargs (method_name kw) func) self) as [args s1].
      simpl in Hp1, Hp2.
      assert (Hinv1 : scs s1 <> None /\ ncs s1 <> None)
        by (rewrite Hp1, Hp2; exact Hinv).
      destruct (Z.of_nat (List.length args)
                =? method_nargs (method_name kw) func).
      * destruct (in_INDEXED_METHODS (method_name kw));
          exact (Hm _ _ _ Hex Hinv1).
      * injection Hex as <-. exact Hinv1.
    + exact (Hm _ _ _ Hex Hinv).
  - destruct STRICT; [discriminate|]. now injection Hex as <-.
Qed.

Lemma execute_entry_keeps_colorspaces (e : StackEntry)
    (self s' : PDFPageInterpreter) :
  execute_entry rc e self = Ok s' ->
  scs self <> None /\ ncs self <> None ->
  scs s' <> None /\ ncs s' <> None.
Proof.
  intros H Hinv.
  destruct e as [p o | p o i]; simpl in H;
    destruct o; try (injection H as <-; exact Hinv);
    exact (execute_keyword_keeps_colorspaces _ _ _ _ H Hinv).
Qed.

Lemma execute_entries_keep_colorspaces (entries : list StackEntry) :
  forall self s',
    execute_entries rc entries self = Ok s' ->
    scs self <> None /\ ncs self <> None ->
    scs s' <> None /\ ncs s' <> None.
Proof.
  induction entries as [|e entries IH]; intros self s' H Hinv; simpl in H.
  - now injection H as <-.
  - destruct (execute_entry rc e self) as [s1| |] eqn:He; try discriminate.
    cbn [bind] in H.
    exact (IH _ _ H (execute_entry_keeps_colorspaces _ _ _ He Hinv)).
Qed.
End ColorSpaces.

(** [init_state] sets both color spaces to the first value of a color-space
    map that is not empty. *)
Lemma init_state_colorspaces (m : Matrix) (self : PDFPageInterpreter) :
  csmap self <> [] ->
  exists k cs rest,
    csmap self = (k, cs) :: rest
    /\ scs (init_state m self) = Some cs
    /\ ncs (init_state m self) = Some cs.
Proof.
  intros Hne. unfold init_state. cbn.
  destruct (csmap self) as [|[k cs] rest]; [contradiction|].
  exists k, cs, rest. cbn. auto.
Qed.

(** C10: in an execution started by [render_contents], with a predefined
    color-space table that is not empty: [init_state] sets [scs] and [ncs]
    to the first value of [csmap], and in every state the loop of [execute]
    reaches, after any number of entries, both are set; so [do_SCN] and
    [do_scn] run there take the component count of the color space, never
    the branch for a missing one. *)
Theorem colorspaces_always_set {X : Externals} (fuel : nat)
    (self c1 s : PDFPageInterpreter) (resources_ : PDFObj) (ctm_ : Matrix)
    (entries : list StackEntry) :
  PREDEFINED_COLORSPACE <> [] ->
  init_resources fuel resources_ self = Ok c1 ->
  execute_entries (render_contents fuel) entries (init_state ctm_ c1) = Ok s ->
  (exists k cs rest,
     csmap c1 = (k, cs) :: rest
     /\ scs (init_state ctm_ c1) = Some cs
     /\ ncs (init_state ctm_ c1) = Some cs)
  /\ (exists cs,
        scs s = Some cs
        /\ do_SCN s
           = ('(color, s1) <- pop_components (ncomponents cs) s ;;
              Ok (upd_gs (set_scolor (Some (ColorList color))) s1)))
  /\ (exists cs,
        ncs s = Some cs
        /\ do_scn s
           = ('(color, s1) <- pop_components (ncomponents cs) s ;;
              Ok (upd_gs (set_ncolor (Some (ColorList color))) s1))).
Proof.
  intros Hpre Hinit Hrun.
  destruct (init_resources_frame _ _ _ _ Hinit) as [_ Hcs].
  destruct (init_state_colorspaces ctm_ c1 (Hcs Hpre))
    as (k & cs0 & rest & Hmap & Hs0 & Hn0).
  split; [exists k, cs0, rest; auto|].
  destruct (execute_entries_keep_colorspaces (render_contents fuel) entries
              _ _ Hrun) as [Hs Hn].
  { rewrite Hs0, Hn0. split; discriminate. }
  split.
  - destruct (scs s) as [cs|] eqn:E; [|contradiction].
    exists cs. split; [reflexivity|]. unfold do_SCN. now rewrite E.
  - destruct (ncs s) as [cs|] eqn:E; [|contradiction].
    exists cs. split; [reflexivity|]. unfold do_scn. now rewrite E.
Qed.

Lemma colorspaces_always_set_witness :
  let entries :=
    [ Entry2 0 (OLit "DeviceRGB"); Entry3 11 (OKwd "cs") (OInt 0);
      Entry2 14 (OInt 1); Entry2 16 (OInt 0); Entry2 18 (OInt 0) ] in
  exists c1 s,
    @init_resources lenient 1 ONone fresh_interpreter = Ok c1
    /\ @execute_entries lenient (@render_contents lenient 1) entries
         (init_state MATRIX_IDENTITY c1) = Ok s
    /\ ncs s = Some (mkColorSpace "DeviceRGB" (OInt 3))
    /\ exists s', @do_scn lenient s = Ok s'
         /\ ncolor (graphicstate s') = Some (ColorList [OInt 1; OInt 0; OInt 0])
         /\ argstack s' = [].
Proof.
  intros entries.
  destruct (@init_resources lenient 1 ONone fresh_interpreter)
    as [c1| e |] eqn:Ec;
    [| vm_compute in Ec; discriminate Ec | vm_compute in Ec; discriminate Ec].
  destruct (@execute_entries lenient (@render_contents lenient 1) entries
              (init_state MATRIX_IDENTITY c1)) as [s| e |] eqn:Es;
    [| vm_compute in Ec; injection Ec as <-; vm_compute in Es; discriminate Es
     | vm_compute in Ec; injection Ec as <-; vm_compute in Es; discriminate Es].
  exists c1, s. split; [reflexivity|]. split; [exact Es|].
  destruct (@colorspaces_always_set lenient 1 fresh_interpreter c1 s ONone
              MATRIX_IDENTITY entries) as (_ & _ & cs & Hcs & Hdo);
    [discriminate | exact Ec | exact Es |].
  vm_compute in Ec. injection Ec as <-.
  vm_compute in Es. injection Es as <-.
  vm_compute in Hcs. injection Hcs as <-.
  split; [reflexivity|].
  rewrite Hdo. vm_compute. eexists. repeat split.
Defined.

(** * Further properties of the module *)

(** ** The operand stack *)

Lemma pop_rejoins (n : Z) (self : PDFPageInterpreter) :
  (argstack (snd (pop n self)) ++ fst (pop n self))%list = argstack self.
Proof.
  unfold pop. destruct (n =? 0).
  - cbn. apply app_nil_r.
  - cbn [fst snd argstack set_argstack]. apply firstn_skipn.
Qed.

(** [pop] splits the stack and nothing else: what it returns, put back
    behind what it leaves, is the stack it found, for every [n]; the
    operands returned are the last [n] at most (for a negative [n], all but
    the first [-n]). *)
Theorem pop_splits_stack (n : Z) (self : PDFPageInterpreter) :
  (argstack (snd (pop n self)) ++ fst (pop n self))%list = argstack self
  /\ snd (pop n self) = set_argstack (argstack (snd (pop n self))) self
  /\ List.length (fst (pop n self))
     = if n <? 0
       then (List.length (argstack self) - Z.to_nat (- n))%nat
       else Nat.min (Z.to_nat n) (List.length (argstack self)).
Proof.
  split; [apply pop_rejoins|].
  unfold pop. destruct (n =? 0) eqn:E.
  - apply Z.eqb_eq in E. subst n. cbn.
    split; [now destruct self | reflexivity].
  - cbn [fst snd argstack set_argstack].
    split; [reflexivity|].
    rewrite length_skipn. unfold slice_index.
    destruct (n <? 0) eqn:F.
    + assert (H : (- n <? 0) = false) by lia. rewrite H. reflexivity.
    + assert (H : (- n <? 0) = true) by lia. rewrite H. lia.
Qed.

(** [push] of one or more objects, then [pop] of as many: the objects come
    back in the order pushed and the interpreter is as before. *)
Theorem push_pop_round_trip (objs : list PDFObj) (self : PDFPageInterpreter) :
  objs <> [] ->
  pop (Z.of_nat (List.length objs)) (fold_left (fun s o => push o s) objs self)
  = (objs, self).
Proof.
  intros Hne.
  assert (Hfold : forall l s,
            fold_left (fun s o => push o s) l s
            = set_argstack (argstack s ++ l) s).
  { induction l as [|o l IH]; intros s; simpl.
    - rewrite app_nil_r. now destruct s.
    - rewrite IH. unfold push. cbn. now rewrite <- app_assoc. }
  rewrite Hfold.
  rewrite (pop_pushed objs (argstack self)
             (set_argstack (argstack self ++ objs) self) Hne eq_refl).
  now destruct self.
Qed.

Lemma push_pop_round_trip_witness :
  pop 2 (push (OInt 20) (push (OInt 10) (page_start lenient)))
  = ([OInt 10; OInt 20], page_start lenient).
Proof.
  apply (push_pop_round_trip [OInt 10; OInt 20] (page_start lenient)).
  discriminate.
Defined.

(** ** Colors *)

(** With at least as many operands as the nonstroking color space has
    components, [scn] (and [sc]) take exactly that many from the top of the
    stack as the nonstroking color and leave the others, whatever the
    stroking color space is; [SCN] (and [SC]) do the same with the stroking
    color space for the stroking color. *)
Theorem scn_takes_the_components {X : Externals} (self : PDFPageInterpreter)
    (cs : PDFColorSpace) (st comps : list PDFObj) :
  ncomponents cs = OInt (Z.of_nat (List.length comps)) ->
  comps <> [] ->
  argstack self = (st ++ comps)%list ->
  (ncs self = Some cs ->
   do_scn self
   = Ok (upd_gs (set_ncolor (Some (ColorList comps))) (set_argstack st self))
   /\ do_sc self = do_scn self)
  /\ (scs self = Some cs ->
      do_SCN self
      = Ok (upd_gs (set_scolor (Some (ColorList comps)))
              (set_argstack st self))
      /\ do_SC self = do_SCN self).
Proof.
  intros Hc Hne Hst.
  split; intros Hs; (split; [|reflexivity]);
    unfold do_scn, do_SCN, pop_components;
    rewrite Hs; cbn [bind]; rewrite Hc; cbn [as_int bind];
    rewrite (pop_pushed comps st self Hne Hst); reflexivity.
Qed.

Lemma scn_takes_the_components_witness :
  let gray := mkColorSpace "DeviceGray" (OInt 1) in
  let rgb := mkColorSpace "DeviceRGB" (OInt 3) in
  let self :=
    set_argstack [OInt 9; OInt 1; OInt 0; OInt 0]
      (set_ncs (Some rgb) (set_scs (Some gray) (page_start lenient))) in
  @do_scn lenient self
  = Ok (upd_gs (set_ncolor (Some (ColorList [OInt 1; OInt 0; OInt 0])))
          (set_argstack [OInt 9] self))
  /\ @do_SCN lenient self
     = Ok (upd_gs (set_scolor (Some (ColorList [OInt 0])))
             (set_argstack [OInt 9; OInt 1; OInt 0] self)).
Proof.
  intros gray rgb self. split.
  - exact (proj1 (proj1 (@scn_takes_the_components lenient self rgb [OInt 9]
                           [OInt 1; OInt 0; OInt 0] eq_refl
                           ltac:(discriminate) eq_refl) eq_refl)).
  - exact (proj1 (proj2 (@scn_takes_the_components lenient self gray
                           [OInt 9; OInt 1; OInt 0] [OInt 0] eq_refl
                           ltac:(discriminate) eq_refl) eq_refl)).
Defined.

(** With fewer operands than the nonstroking color space has components,
    [scn] raises nothing, in strict mode either: the nonstroking color
    becomes the short list of the operands that were there, and the stack
    is left empty, whatever the stroking color space is; and so [SCN] with
    the stroking color space and color. *)
Theorem scn_with_too_few_operands {X : Externals} (self : PDFPageInterpreter)
    (cs : PDFColorSpace) (n : Z) :
  ncomponents cs = OInt n ->
  Z.of_nat (List.length (argstack self)) < n ->
  (ncs self = Some cs ->
   do_scn self
   = Ok (upd_gs (set_ncolor (Some (ColorList (argstack self))))
           (set_argstack [] self)))
  /\ (scs self = Some cs ->
      do_SCN self
      = Ok (upd_gs (set_scolor (Some (ColorList (argstack self))))
              (set_argstack [] self))).
Proof.
  intros Hc Hl.
  split; intros Hs;
    unfold do_scn, do_SCN, pop_components;
    rewrite Hs; cbn [bind]; rewrite Hc; cbn [as_int bind];
    rewrite (pop_underflow n self Hl); reflexivity.
Qed.

Lemma scn_with_too_few_operands_witness :
  let gray := mkColorSpace "DeviceGray" (OInt 1) in
  let cmyk := mkColorSpace "DeviceCMYK" (OInt 4) in
  let self :=
    set_argstack [OInt 1; OInt 0]
      (set_ncs (Some cmyk) (set_scs (Some gray) (page_start strict))) in
  @do_scn strict self
  = Ok (upd_gs (set_ncolor (Some (ColorList [OInt 1; OInt 0])))
          (set_argstack [] self)).
Proof.
  intros gray cmyk self.
  exact (proj1 (@scn_with_too_few_operands strict self cmyk 4 eq_refl
                  ltac:(vm_compute; reflexivity)) eq_refl).
Defined.

(** ** What an operator can change *)

Section MoreFrames.
Context {X : Externals}.
Variable rc :
  PDFPageInterpreter -> PDFObj -> PDFObj -> Matrix -> Exc PDFPageInterpreter.

(** No method changes the maps bound by [init_resources]. *)
Lemma methods_keep_maps (method : string) (func : Method) :
  In (method, func) (METHODS rc) ->
  forall args self s',
    call_method func args self = Ok s' ->
    csmap s' = csmap self /\ fontmap s' = fontmap self
    /\ xobjmap s' = xobjmap self /\ resources s' = resources self.
Proof.
  intros Hin args self s' H.
  simpl in Hin.
  repeat (destruct Hin as [Hin|Hin];
          [injection Hin as <- <-;
           unfold call_method in H; autounfold with handlers in H;
           crunch; finish |]).
  contradiction.
Qed.

(** A method leaves on the stack a front part of what it found there. *)
Lemma methods_take_from_the_top (method : string) (func : Method) :
  In (method, func) (METHODS rc) ->
  forall args self s',
    call_method func args self = Ok s' ->
    exists k, argstack s' = firstn k (argstack self).
Proof.
  intros Hin args self s' H.
  simpl in Hin.
  repeat (destruct Hin as [Hin|Hin];
          [injection Hin as <- <-;
           unfold call_method in H; autounfold with handlers in H;
           crunch; cbn;
           repeat (match goal with
                   | |- context [match ?x with _ => _ end] => destruct x
                   end; cbn);
           first [ eexists; symmetry; apply firstn_all
                 | eexists; reflexivity ] |]).
  contradiction.
Qed.

Lemma pop_keeps_maps (n : Z) (self : PDFPageInterpreter) :
  csmap (snd (pop n self)) = csmap self.
Proof. unfold pop. now destruct (n =? 0). Qed.

Lemma execute_entry_keeps_csmap (e : StackEntry) (self s' : PDFPageInterpreter) :
  execute_entry rc e self = Ok s' -> csmap s' = csmap self.
Proof.
  intros H.
  assert (Hk : forall kw idx,
            execute_keyword rc kw idx self = Ok s' -> csmap s' = csmap self).
  { intros kw idx Hex. unfold execute_keyword in Hex.
    destruct (getattr_method rc (method_name kw)) as [func|] eqn:Hf.
    - apply dict_get_In in Hf.
      pose proof (methods_keep_maps _ _ Hf) as Hm.
      destruct (negb (method_nargs (method_name kw) func =? 0)).
      + pose proof (pop_keeps_maps (method_nargs (method_name kw) func) self)
          as Hp.
        destruct (pop (method_nargs (method_name kw) func) self) as [args s1].
        simpl in Hp.
        destruct (Z.of_nat (List.length args)
                  =? method_nargs (method_name kw) func).
        * destruct (in_INDEXED_METHODS (method_name kw));
            apply Hm in Hex; destruct Hex as [Hex _]; congruence.
        * injection Hex as <-. exact Hp.
      + apply Hm in Hex. tauto.
    - destruct STRICT; [discriminate|]. now injection Hex as <-. }
  destruct e as [p o | p o i]; simpl in H;
    destruct o; try (injection H as <-; reflexivity); eapply Hk; eauto.
Qed.

Lemma execute_entries_keep_csmap (entries : list StackEntry) :
  forall self s',
    execute_entries rc entries self = Ok s' -> csmap s' = csmap self.
Proof.
  induction entries as [|e entries IH]; intros self s' H; simpl in H.
  - now injection H as <-.
  - destruct (execute_entry rc e self) as [s1| |] eqn:He; try discriminate.
    cbn [bind] in H. apply IH in H. apply execute_entry_keeps_csmap in He.
    congruence.
Qed.
End MoreFrames.

(** Whatever an operator does, the operand stack it leaves is a front part
    of the one it found: [execute] pushes nothing when it meets a keyword
    and never touches the operands below those it takes. *)
Theorem operators_only_take_from_the_top {X : Externals} rc (name : string)
    (idx : PDFObj) (self s' : PDFPageInterpreter) :
  execute_keyword rc name idx self = Ok s' ->
  exists k, argstack s' = firstn k (argstack self).
Proof.
  intros Hex. unfold execute_keyword in Hex.
  destruct (getattr_method rc (method_name name)) as [func|] eqn:Hf.
  - apply dict_get_In in Hf.
    pose proof (methods_take_from_the_top rc _ _ Hf) as Hm.
    destruct (negb (method_nargs (method_name name) func =? 0)).
    + pose proof (pop_rejoins (method_nargs (method_name name) func) self)
        as Hsplit.
      destruct (pop (method_nargs (method_name name) func) self) as [args s1].
      cbn [fst snd] in Hsplit.
      assert (Hs1 : argstack s1
                    = firstn (List.length (argstack s1)) (argstack self)).
      { rewrite <- Hsplit. rewrite firstn_app, Nat.sub_diag, firstn_all.
        cbn. now rewrite app_nil_r. }
      assert (Hcall : forall a, call_method func a s1 = Ok s' ->
                exists k, argstack s' = firstn k (argstack self)).
      { intros a Ha. destruct (Hm _ _ _ Ha) as (k & Hk).
        exists (Nat.min k (List.length (argstack s1))).
        rewrite Hk, Hs1 at 1. apply firstn_firstn. }
      destruct (Z.of_nat (List.length args)
                =? method_nargs (method_name name) func).
      * destruct (in_INDEXED_METHODS (method_name name)); eapply Hcall; eauto.
      * injection Hex as <-. eauto.
    + exact (Hm _ _ _ Hex).
  - destruct STRICT; [discriminate|]. injection Hex as <-.
    exists (List.length (argstack self)). symmetry. apply firstn_all.
Qed.

Lemma operators_only_take_from_the_top_witness :
  let self :=
    set_argstack [OInt 7; OInt 1; OInt 2] (page_start lenient) in
  exists s',
    @execute_keyword lenient (@render_contents lenient 0) "m" ONone self = Ok s'
    /\ exists k, argstack s' = firstn k [OInt 7; OInt 1; OInt 2].
Proof.
  intros self.
  destruct (@execute_keyword lenient (@render_contents lenient 0) "m" ONone self)
    as [s'| e |] eqn:E;
    [| vm_compute in E; discriminate E | vm_compute in E; discriminate E].
  exists s'. split; [reflexivity|].
  exact (@operators_only_take_from_the_top lenient _ "m" ONone self s' E).
Defined.

(** ** Save and restore: what is not saved *)

(** [Q] restores [ctm], [textstate] and [graphicstate] only: whether
    [gstack] is empty or not, the two color spaces, the current path and the
    operand stack stay as they are at the [Q]. *)
Theorem Q_keeps_colorspaces_and_path (self : PDFPageInterpreter) :
  exists s',
    do_Q self = Ok s'
    /\ scs s' = scs self /\ ncs s' = ncs self
    /\ curpath s' = curpath self /\ argstack s' = argstack self.
Proof.
  unfold do_Q. destruct (list_pop (gstack self)) as [[rest [[m ts] gs]]|].
  - eexists. split; [reflexivity|]. cbn. auto.
  - eexists. split; [reflexivity|]. auto.
Qed.

(** ** The color spaces of the devices *)

Lemma dict_get_set_keeps {V : Type} (k k' : string) (v : V)
    (d : list (string * V)) :
  dict_get k d <> None -> dict_get k (dict_set k' v d) <> None.
Proof.
  induction d as [|[k0 v0] d IH]; simpl; [congruence|].
  destruct (String.eqb k' k0) eqn:E1; simpl.
  - destruct (String.eqb k k0); [discriminate | auto].
  - destruct (String.eqb k k0); [discriminate | auto].
Qed.

Section ColorSpaceNames.
Context {X : Externals}.
Variable P : list (string * PDFColorSpace) -> Prop.
Hypothesis P_set : forall k v d, P d -> P (dict_set k v d).

Lemma init_colorspaces_pred (items : list (string * PDFObj)) :
  forall self s',
    init_colorspaces items self = Ok s' -> P (csmap self) -> P (csmap s').
Proof.
  induction items as [|[csid spec] items IH]; intros self s' H HP; simpl in H.
  - now injection H as <-.
  - destruct (get_colorspace (resolve1 spec)) as [[cs|]| |]; try discriminate;
      cbn [bind] in H; apply IH in H; auto.
    cbn. auto.
Qed.

Lemma init_resources_items_pred (fuel : nat) (items : list (string * PDFObj)) :
  forall self s',
    init_resources_items fuel items self = Ok s' ->
    P (csmap self) -> P (csmap s').
Proof.
  induction items as [|[k v] items IH]; intros self s' H HP; simpl in H.
  - now injection H as <-.
  - match type of H with
    | bind ?m _ = _ => destruct m as [s1| |] eqn:E; try discriminate
    end.
    cbn [bind] in H. apply IH in H; [exact H|].
    destruct (String.eqb k "Font").
    { destruct (dict_value v); try discriminate. cbn [bind] in E.
      apply init_fonts_frame in E. destruct E as [_ E2]. now rewrite E2. }
    destruct (String.eqb k "ColorSpace").
    { destruct (dict_value v); try discriminate. cbn [bind] in E.
      now apply init_colorspaces_pred in E. }
    destruct (String.eqb k "ProcSet").
    { destruct (list_value v); try discriminate. cbn [bind] in E.
      now injection E as <-. }
    destruct (String.eqb k "XObject").
    { destruct (dict_value v) as [xs| |]; try discriminate. cbn [bind] in E.
      injection E as <-. destruct (init_xobjects_frame xs self) as [_ E2].
      now rewrite E2. }
    now injection E as <-.
Qed.

Lemma init_resources_pred (fuel : nat) (resources_ : PDFObj)
    (self s' : PDFPageInterpreter) :
  init_resources fuel resources_ self = Ok s' ->
  P PREDEFINED_COLORSPACE -> P (csmap s').
Proof.
  unfold init_resources. intros H HP.
  destruct (negb (py_truthy resources_)).
  - now injection H as <-.
  - destruct (dict_value resources_) as [items| |]; try discriminate.
    cbn [bind] in H. apply init_resources_items_pred in H; auto.
Qed.
End ColorSpaceNames.

Lemma init_state_csmap (m : Matrix) (self : PDFPageInterpreter) :
  csmap (init_state m self) = csmap self.
Proof.
  unfold init_state. cbn.
  destruct self as [? ? ? ? ? cm ? ? ? ? ? ? ? ?]. cbn.
  destruct cm as [|[k cs] rest]; reflexivity.
Qed.

(** A name of the predefined table stays in [csmap] whatever the resources
    of the page declare and whatever the content does (the resources can
    only give it another color space).  So in an execution started by
    [render_contents], with [DeviceGray], [DeviceRGB] and [DeviceCMYK]
    predefined, the operators [G g RG rg K k] never raise, whatever their
    operands. *)
Theorem device_color_operators_never_raise {X : Externals} (fuel : nat)
    (self c1 s : PDFPageInterpreter) (resources_ : PDFObj) (ctm_ : Matrix)
    (entries : list StackEntry) :
  dict_get "DeviceGray" PREDEFINED_COLORSPACE <> None ->
  dict_get "DeviceRGB" PREDEFINED_COLORSPACE <> None ->
  dict_get "DeviceCMYK" PREDEFINED_COLORSPACE <> None ->
  init_resources fuel resources_ self = Ok c1 ->
  execute_entries (render_contents fuel) entries (init_state ctm_ c1) = Ok s ->
  forall a b c d : PDFObj,
    (exists s', do_G a s = Ok s') /\ (exists s', do_g a s = Ok s')
    /\ (exists s', do_RG a b c s = Ok s') /\ (exists s', do_rg a b c s = Ok s')
    /\ (exists s', do_K a b c d s = Ok s') /\ (exists s', do_k a b c d s = Ok s').
Proof.
  intros Hg Hr Hc Hinit Hrun a b c d.
  assert (Hkey : forall k, dict_get k PREDEFINED_COLORSPACE <> None ->
            dict_get k (csmap s) <> None).
  { intros k Hk.
    rewrite (execute_entries_keep_csmap _ _ _ _ Hrun), init_state_csmap.
    apply (init_resources_pred (fun d => dict_get k d <> None)
             (fun k' v d => dict_get_set_keeps k k' v d) _ _ _ _ Hinit Hk). }
  pose proof (Hkey _ Hg) as Kg. pose proof (Hkey _ Hr) as Kr.
  pose proof (Hkey _ Hc) as Kc.
  unfold do_G, do_g, do_RG, do_rg, do_K, do_k, dict_getitem, upd_gs. cbn.
  destruct (dict_get "DeviceGray" (csmap s)); [|contradiction].
  destruct (dict_get "DeviceRGB" (csmap s)); [|contradiction].
  destruct (dict_get "DeviceCMYK" (csmap s)); [|contradiction].
  cbn. repeat split; eexists; reflexivity.
Qed.

Lemma device_color_operators_never_raise_witness :
  let entries :=
    [ Entry2 0 (OLit "DeviceRGB"); Entry3 11 (OKwd "cs") (OInt 0) ] in
  exists c1 s,
    @init_resources strict 1 ONone fresh_interpreter = Ok c1
    /\ @execute_entries strict (@render_contents strict 1) entries
         (init_state MATRIX_IDENTITY c1) = Ok s
    /\ exists s', do_g (OBytes "x") s = Ok s'.
Proof.
  intros entries.
  destruct (@init_resources strict 1 ONone fresh_interpreter)
    as [c1| e |] eqn:Ec;
    [| vm_compute in Ec; discriminate Ec | vm_compute in Ec; discriminate Ec].
  destruct (@execute_entries strict (@render_contents strict 1) entries
              (init_state MATRIX_IDENTITY c1)) as [s| e |] eqn:Es;
    [| vm_compute in Ec; injection Ec as <-; vm_compute in Es; discriminate Es
     | vm_compute in Ec; injection Ec as <-; vm_compute in Es; discriminate Es].
  exists c1, s. split; [reflexivity|]. split; [exact Es|].
  destruct (@device_color_operators_never_raise strict 1 fresh_interpreter
              c1 s ONone MATRIX_IDENTITY entries
              ltac:(discriminate) ltac:(discriminate) ltac:(discriminate)
              Ec Es (OBytes "x") ONone ONone ONone) as (_ & Hg & _).
  exact Hg.
Defined.

(** ** The operands of the show-text operators *)

(** A keyword whose method is one of the indexed ones, with its operands
    on top of the stack: the method is called on them and on the
    instruction index of the parser. *)
Lemma execute_keyword_call_indexed {X : Externals} rc (name : string)
    (idx : PDFObj) (func : Method) (args st : list PDFObj)
    (self : PDFPageInterpreter) :
  getattr_method rc (method_name name) = Some func ->
  in_INDEXED_METHODS (method_name name) = true ->
  co_argcount func - 1 - 1 = Z.of_nat (List.length args) ->
  args <> [] ->
  argstack self = (st ++ args)%list ->
  execute_keyword rc name idx self
  = call_method func (args ++ [idx]) (set_argstack st self).
Proof.
  intros Hf Hi Hn Ha Hs. unfold execute_keyword, method_nargs.
  rewrite Hf, Hi, Hn.
  assert (Hlen : (0 < List.length args)%nat)
    by (destruct args; [contradiction | simpl; lia]).
  destruct (Z.of_nat (List.length args) =? 0) eqn:E; [lia|].
  cbn [negb]. rewrite (pop_pushed args st self Ha Hs), Z.eqb_refl. reflexivity.
Qed.

(** Through [execute], [Tj] and [TJ] take one operand and are given the
    instruction index of the parser; ['] takes two operands and the
    double-quote operator four, the topmost of which is passed in the place
    of the instruction index, the index of the parser being dropped. *)
Theorem show_operators_and_the_index {X : Externals} rc (idx : PDFObj)
    (self : PDFPageInterpreter) (st : list PDFObj) (aw ac s x : PDFObj) :
  execute_keyword rc "Tj" idx (set_argstack (st ++ [s]) self)
  = do_Tj s idx (set_argstack st self)
  /\ execute_keyword rc "TJ" idx (set_argstack (st ++ [s]) self)
     = do_TJ s idx (set_argstack st self)
  /\ execute_keyword rc "'" idx (set_argstack (st ++ [s; x]) self)
     = do__q s x (set_argstack st self)
  /\ execute_keyword rc (String DQUOTE EmptyString) idx
       (set_argstack (st ++ [aw; ac; s; x]) self)
     = do__w aw ac s x (set_argstack st self).
Proof.
  repeat split.
  - rewrite (execute_keyword_call_indexed rc "Tj" idx (Method2 do_Tj) [s] st);
      try reflexivity; discriminate.
  - rewrite (execute_keyword_call_indexed rc "TJ" idx (Method2 do_TJ) [s] st);
      try reflexivity; discriminate.
  - rewrite (execute_keyword_call rc "'" idx (Method2 do__q) [s; x] st);
      try reflexivity; discriminate.
  - rewrite (execute_keyword_call rc (String DQUOTE EmptyString) idx
               (Method4 do__w) [aw; ac; s; x] st);
      try reflexivity; discriminate.
Qed.

(** ** Keywords that are no operators *)

Lemma string_has_app (c : ascii) (a b : string) :
  string_has c (a ++ b) = string_has c a || string_has c b.
Proof.
  induction a as [|x a IH]; simpl; [reflexivity|].
  now rewrite IH, orb_assoc.
Qed.

Lemma replace_char_absent (c : ascii) (by_ s : string) :
  string_has c s = false -> replace_char c by_ s = s.
Proof.
  induction s as [|x s IH]; simpl; [reflexivity|].
  intros H. apply orb_false_iff in H. destruct H as [H1 H2].
  rewrite H1. now rewrite IH.
Qed.

Lemma replace_char_removes (c : ascii) (by_ s : string) :
  string_has c by_ = false -> string_has c (replace_char c by_ s) = false.
Proof.
  intros Hby. induction s as [|x s IH]; simpl; [reflexivity|].
  destruct (Ascii.eqb x c) eqn:E.
  - now rewrite string_has_app, Hby, IH.
  - simpl. now rewrite E, IH.
Qed.

Lemma replace_char_keeps_absent (c c' : ascii) (by_ s : string) :
  string_has c by_ = false ->
  string_has c s = false ->
  string_has c (replace_char c' by_ s) = false.
Proof.
  intros Hby. induction s as [|x s IH]; simpl; [reflexivity|].
  intros H. apply orb_false_iff in H. destruct H as [H1 H2].
  destruct (Ascii.eqb x c').
  - now rewrite string_has_app, Hby, IH.
  - simpl. now rewrite H1, IH.
Qed.

(** [execute] finds the method of a keyword by its rewritten name, so a
    keyword spelled as the rewritten name is taken for the operator itself:
    [T_a] runs as [T*], [f_a] as [f*], [_q] as [']. *)
Theorem rewritten_keyword_runs_as_operator {X : Externals} rc (name : string)
    (idx : PDFObj) (self : PDFPageInterpreter) :
  let rewritten :=
    replace_char SQUOTE "_q"
      (replace_char DQUOTE "_w" (replace_char "*"%char "_a" name)) in
  method_name name = "do_" ++ rewritten
  /\ execute_keyword rc rewritten idx self = execute_keyword rc name idx self.
Proof.
  intros rewritten. split; [reflexivity|].
  assert (Hm : method_name rewritten = method_name name).
  { unfold method_name. f_equal. fold rewritten.
    assert (H1 : string_has "*"%char rewritten = false).
    { unfold rewritten.
      apply replace_char_keeps_absent; [reflexivity|].
      apply replace_char_keeps_absent; [reflexivity|].
      apply replace_char_removes. reflexivity. }
    assert (H2 : string_has DQUOTE rewritten = false).
    { unfold rewritten.
      apply replace_char_keeps_absent; [reflexivity|].
      apply replace_char_removes. reflexivity. }
    assert (H3 : string_has SQUOTE rewritten = false).
    { unfold rewritten. apply replace_char_removes. reflexivity. }
    rewrite (replace_char_absent _ _ _ H1), (replace_char_absent _ _ _ H2).
    apply (replace_char_absent _ _ _ H3). }
  unfold execute_keyword. rewrite Hm. reflexivity.
Qed.

(** ** Reading the data of an inline image *)

Lemma append_assoc (a b c : string) : ((a ++ b) ++ c = a ++ (b ++ c))%string.
Proof. induction a as [|x a IH]; simpl; [reflexivity | now rewrite IH]. Qed.

Lemma append_nil_r (a : string) : (a ++ EmptyString)%string = a.
Proof. induction a as [|x a IH]; simpl; [reflexivity | now rewrite IH]. Qed.

Lemma length_append (a b : string) :
  String.length (a ++ b) = (String.length a + String.length b)%nat.
Proof. induction a as [|x a IH]; simpl; [reflexivity | now rewrite IH]. Qed.

Lemma add_byte_append (data : string) (c : ascii) (buf : string) :
  (add_byte data c ++ buf = data ++ String c buf)%string.
Proof. unfold add_byte. now rewrite append_assoc. Qed.

Lemma substring_prefix (a b : string) :
  substring 0 (String.length a) (a ++ b) = a.
Proof. induction a as [|x a IH]; simpl; [now destruct b | now rewrite IH]. Qed.

Lemma substring_is_prefix (m : nat) (s : string) :
  exists t, s = (substring 0 m s ++ t)%string.
Proof.
  revert m. induction s as [|x s IH]; intros m.
  - exists EmptyString. now destruct m.
  - destruct m as [|m]; simpl.
    + now exists (String x s).
    + destruct (IH m) as (t & Ht). exists t. now rewrite <- Ht.
Qed.

Lemma substring_snoc (i : nat) (s : string) (c : ascii) :
  String.get i s = Some c ->
  substring 0 (S i) s = (substring 0 i s ++ String c EmptyString)%string.
Proof.
  revert i. induction s as [|x s IH]; intros i H; [discriminate|].
  destruct i as [|i]; simpl in *.
  - injection H as ->. now destruct s.
  - now rewrite (IH i H).
Qed.

Lemma substring_all (s : string) : substring 0 (String.length s) s = s.
Proof. induction s as [|x s IH]; simpl; [reflexivity | now rewrite IH]. Qed.

Lemma get_in_range (i : nat) (s : string) :
  (i < String.length s)%nat -> exists c, String.get i s = Some c.
Proof.
  revert i. induction s as [|x s IH]; intros i H; simpl in H; [lia|].
  destruct i as [|i]; simpl; [eauto|]. apply IH. lia.
Qed.

(** The loop reads the bytes in order and loses none: the data gathered
    and the bytes left unread make up what was there. *)
Lemma inline_scan_conserves (target : string) (buf : string) :
  forall (i : nat) (data raw rest : string),
    inline_scan target i data buf = Ok (raw, rest) ->
    (data ++ buf = raw ++ rest)%string.
Proof.
  induction buf as [|c buf IH]; intros i data raw rest H; simpl in H.
  - destruct (String.length target <? i)%nat; [|discriminate].
    now injection H as <- <-.
  - destruct (String.length target <? i)%nat.
    + now injection H as <- <-.
    + rewrite <- add_byte_append.
      destruct (i =? 0)%nat.
      * destruct (String.get 0 target); [|discriminate].
        destruct (Ascii.eqb c a); eapply IH; eauto.
      * destruct (_ || _); eapply IH; eauto.
Qed.

(** The loop ends only on the target followed by a white-space byte. *)
Lemma inline_scan_ends_on_target (target : string) (buf : string) :
  forall (i : nat) (data raw rest : string),
    (i <= String.length target)%nat ->
    (exists p, data = (p ++ substring 0 i target)%string) ->
    inline_scan target i data buf = Ok (raw, rest) ->
    exists payload ws,
      raw = (payload ++ target ++ String ws EmptyString)%string
      /\ isspace ws = true.
Proof.
  induction buf as [|c buf IH]; intros i data raw rest Hi (p & Hp) H;
    simpl in H.
  - destruct (String.length target <? i)%nat eqn:E; [|discriminate].
    apply Nat.ltb_lt in E. lia.
  - destruct (String.length target <? i)%nat eqn:E;
      [apply Nat.ltb_lt in E; lia|].
    assert (Hzero : forall d, exists q,
              d = (q ++ substring 0 0 target)%string).
    { intros d. exists d. destruct target; simpl; now rewrite append_nil_r. }
    destruct (i =? 0)%nat eqn:E0.
    + apply Nat.eqb_eq in E0. subst i.
      destruct (String.get 0 target) as [t0|] eqn:Ht; [|discriminate].
      destruct (Ascii.eqb_spec c t0) as [->|Hne].
      * refine (IH _ _ _ _ _ _ H).
        { destruct target; [discriminate | simpl; lia]. }
        exists data. unfold add_byte. f_equal.
        rewrite (substring_snoc 0 target t0 Ht).
        now destruct target.
      * refine (IH _ _ _ _ _ _ H); [lia | apply Hzero].
    + apply Nat.eqb_neq in E0.
      destruct (String.length target <=? i)%nat eqn:E1.
      * apply Nat.leb_le in E1. assert (i = String.length target) by lia.
        subst i.
        assert (E2 : (String.length target <? String.length target)%nat = false)
          by (apply Nat.ltb_ge; lia).
        rewrite E2 in H. cbn [andb orb] in H. rewrite orb_false_r in H.
        destruct (isspace c) eqn:Es.
        -- destruct buf as [|c' buf']; simpl in H.
           ++ assert (E3 : (String.length target
                            <? String.length target + 1)%nat = true)
                by (apply Nat.ltb_lt; lia).
              rewrite E3 in H. injection H as <- <-.
              exists p, c. split; [|exact Es].
              unfold add_byte. rewrite Hp, substring_all.
              now rewrite append_assoc.
           ++ assert (E3 : (String.length target
                            <? String.length target + 1)%nat = true)
                by (apply Nat.ltb_lt; lia).
              rewrite E3 in H. injection H as <- <-.
              exists p, c. split; [|exact Es].
              unfold add_byte. rewrite Hp, substring_all.
              now rewrite append_assoc.
        -- refine (IH _ _ _ _ _ _ H); [lia | apply Hzero].
      * apply Nat.leb_gt in E1.
        assert (E2 : (i <? String.length target)%nat = true)
          by (apply Nat.ltb_lt; lia).
        rewrite E2 in H. cbn [andb orb] in H.
        destruct (get_in_range i target E1) as (t & Ht). rewrite Ht in H.
        destruct (Ascii.eqb_spec c t) as [->|Hne].
        -- refine (IH _ _ _ _ _ _ H); [lia|].
           exists p. unfold add_byte. rewrite Hp, append_assoc.
           f_equal. rewrite Nat.add_1_r. now rewrite (substring_snoc i target t Ht).
        -- refine (IH _ _ _ _ _ _ H); [lia | apply Hzero].
Qed.

Lemma concat_cons (s : string) (l : list string) :
  String.concat EmptyString (s :: l)
  = (s ++ String.concat EmptyString l)%string.
Proof. destruct l; simpl; [now rewrite append_nil_r | reflexivity]. Qed.

Lemma string_drop_app_le (n : nat) (s t : string) :
  (n <= String.length s)%nat ->
  string_drop n (s ++ t) = (string_drop n s ++ t)%string.
Proof.
  revert n. induction s as [|c s IH]; intros [|n] H; simpl in *;
    try reflexivity; try lia.
  apply IH. lia.
Qed.

Lemma string_drop_app_ge (n : nat) (s t : string) :
  (String.length s <= n)%nat ->
  string_drop n (s ++ t) = string_drop (n - String.length s) t.
Proof.
  revert n. induction s as [|c s IH]; intros n H; simpl in *.
  - now rewrite Nat.sub_0_r.
  - destruct n as [|n]; [lia|]. simpl. apply IH. lia.
Qed.

Lemma string_drop_drop (n p : nat) (s : string) :
  string_drop n (string_drop p s) = string_drop (p + n) s.
Proof.
  revert p. induction s as [|c s IH]; intros [|p]; simpl;
    try reflexivity.
  - now destruct n.
  - apply IH.
Qed.

Lemma string_drop_length_app (s t : string) :
  string_drop (String.length s) (s ++ t) = t.
Proof. induction s as [|c s IH]; simpl; [reflexivity | exact IH]. Qed.

(** Where [advance] leaves the parser: on one of the streams, the ones
    before it passed over, the bytes not read being the rest of that stream
    and the streams after it; it is the stream the parser was on exactly
    when that stream has the bytes read. *)
Lemma advance_spec (streams : list string) :
  forall (n p : nat) (fp fp' : string) (streams' : list string),
    (n <= String.length (string_drop p fp
                         ++ String.concat EmptyString streams))%nat ->
    advance n (String.length (string_drop p fp)) fp streams = (fp', streams') ->
    exists skipped k,
      (fp :: streams = skipped ++ fp' :: streams')%list
      /\ string_drop n (string_drop p fp ++ String.concat EmptyString streams)
         = (string_drop k fp' ++ String.concat EmptyString streams')%string
      /\ (skipped = [] <-> (n <= String.length (string_drop p fp))%nat).
Proof.
  induction streams as [|s streams IH]; intros n p fp fp' streams' Hn H;
    cbn [advance] in H.
  - assert (Hle : (n <= String.length (string_drop p fp))%nat).
    { cbn [String.concat] in Hn. rewrite append_nil_r in Hn. exact Hn. }
    assert (E : (fp, @nil string) = (fp', streams'))
      by (destruct (n <=? _)%nat; exact H).
    injection E as <- <-.
    exists [], (p + n)%nat. split; [reflexivity|]. split.
    + now rewrite string_drop_app_le, string_drop_drop.
    + split; intros _; [exact Hle | reflexivity].
  - destruct (n <=? String.length (string_drop p fp))%nat eqn:L.
    + injection H as <- <-. apply Nat.leb_le in L.
      exists [], (p + n)%nat. split; [reflexivity|]. split.
      * now rewrite string_drop_app_le, string_drop_drop.
      * split; intros _; [exact L | reflexivity].
    + apply Nat.leb_gt in L.
      rewrite concat_cons in Hn. rewrite length_append in Hn.
      destruct (IH (n - String.length (string_drop p fp))%nat 0%nat s fp'
                  streams') as (skipped & k & Hs & Hk & _).
      * cbn [string_drop]. lia.
      * exact H.
      * exists (fp :: skipped), k. split; [|split].
        -- cbn [app]. now rewrite Hs.
        -- rewrite string_drop_app_ge by lia.
           rewrite concat_cons. exact Hk.
        -- split; [discriminate | lia].
Qed.

(** The parser stays on its stream when that stream has the bytes. *)
Lemma advance_stays (n left : nat) (fp : string) (streams : list string) :
  (n <= left)%nat -> advance n left fp streams = (fp, streams).
Proof.
  intros H. apply Nat.leb_le in H. destruct streams; cbn [advance]; now rewrite H.
Qed.

(** When [get_inline_data] returns: the position returned is the one
    given; the bytes read from that position are the data returned, then a
    cut, then the bytes left unread, none lost; what was read ends with the
    end marker and one white-space byte; the parser is on the stream it was
    on or on a later one, the bytes left unread being the rest of that
    stream and the streams after it; and its stack fields are as they
    were. *)
Theorem get_inline_data_splits_the_input (self self' : PDFContentParser)
    (pos pos' : Z) (target data : string) :
  get_inline_data self pos target = Ok (self', (pos', data)) ->
  pos' = pos
  /\ context self' = context self
  /\ curtype self' = curtype self
  /\ curstack self' = curstack self
  /\ (exists skipped k,
        (fp_data self :: later self
         = skipped ++ fp_data self' :: later self')%list
        /\ unread self'
           = (string_drop k (fp_data self')
              ++ String.concat EmptyString (later self'))%string)
  /\ exists cut payload ws,
       unread (seek pos self) = (data ++ cut ++ unread self')%string
       /\ (data ++ cut = payload ++ target ++ String ws EmptyString)%string
       /\ isspace ws = true.
Proof.
  intros H. unfold get_inline_data in H.
  destruct (inline_scan target 0 EmptyString (unread (seek pos self)))
    as [[raw rest]| |] eqn:E; try discriminate.
  cbn [bind] in H.
  destruct (advance _ _ _ _) as [fp streams] eqn:A in H.
  injection H as <- <- <-.
  pose proof (inline_scan_conserves _ _ _ _ _ _ E) as Hc. cbn [append] in Hc.
  cbn [seek set_unread fp_data later unread context curtype curstack] in *.
  split; [reflexivity|]. do 3 (split; [reflexivity|]).
  split.
  { destruct (advance_spec (later self) (String.length raw) (Z.to_nat pos)
                (fp_data self) fp streams) as (skipped & k & Hs & Hk & _).
    - rewrite Hc, length_append. lia.
    - exact A.
    - exists skipped, k. split; [exact Hs|].
      rewrite <- Hk, Hc. now rewrite string_drop_length_app. }
  destruct (inline_scan_ends_on_target target
              (string_drop (Z.to_nat pos) (fp_data self)
               ++ String.concat EmptyString (later self)) 0%nat
              EmptyString raw rest)
    as (payload & ws & Hraw & Hws); [lia | | exact E |].
  { exists EmptyString. now destruct target. }
  assert (Hpre : exists cut,
            raw = (strip_eol (drop_last (String.length target + 1) raw)
                   ++ cut)%string).
  { destruct (substring_is_prefix
                (String.length raw - (String.length target + 1)) raw)
      as (t1 & Ht1).
    fold (drop_last (String.length target + 1) raw) in Ht1.
    set (d := drop_last (String.length target + 1) raw) in *.
    assert (Hs : exists t2, d = (strip_eol d ++ t2)%string).
    { unfold strip_eol.
      destruct (rev (list_ascii_of_string d)) as [|c1 [|c2 [|c3 l]]];
        repeat match goal with
               | |- context [if ?b then _ else _] => destruct b
               end;
        try (exists EmptyString; now rewrite append_nil_r);
        apply substring_is_prefix. }
    destruct Hs as (t2 & Ht2).
    exists (t2 ++ t1)%string. rewrite <- append_assoc, <- Ht2. exact Ht1. }
  destruct Hpre as (cut & Hcut).
  exists cut, payload, ws.
  split; [|split; [|exact Hws]].
  - rewrite <- append_assoc, <- Hcut. exact Hc.
  - rewrite <- Hcut. exact Hraw.
Qed.

Lemma get_inline_data_splits_the_input_witness :
  let self := mkParser "ID abc" [EmptyString; " EI Q"; "q"] EmptyString []
                None [] in
  exists self' data,
    get_inline_data self 3 "EI" = Ok (self', (3, data))
    /\ fp_data self' = " EI Q" /\ later self' = ["q"]
    /\ exists cut payload ws,
         unread (seek 3 self) = (data ++ cut ++ unread self')%string
         /\ (data ++ cut = payload ++ "EI" ++ String ws EmptyString)%string
         /\ isspace ws = true.
Proof.
  intros self.
  destruct (get_inline_data self 3 "EI") as [[self' [pos' data]]| e |] eqn:E;
    [| vm_compute in E; discriminate E | vm_compute in E; discriminate E].
  destruct (get_inline_data_splits_the_input self self' 3 pos' "EI" data E)
    as (-> & _ & _ & _ & _ & H).
  exists self', data. split; [reflexivity|].
  vm_compute in E. injection E as <- <-.
  split; [reflexivity|]. split; [reflexivity | exact H].
Defined.

Lemma string_drop_get (i : nat) (s : string) (c : ascii) (suffix : string) :
  string_drop i s = String c suffix ->
  String.get i s = Some c /\ string_drop (S i) s = suffix
  /\ (i < String.length s)%nat.
Proof.
  revert i. induction s as [|x s IH]; intros i H.
  - destruct i; discriminate.
  - destruct i as [|i]; simpl in *.
    + injection H as -> ->. repeat split. lia.
    + destruct (IH i H) as (H1 & H2 & H3). repeat split; auto. lia.
Qed.

Lemma string_drop_nil (i : nat) (s : string) :
  string_drop i s = EmptyString -> (String.length s <= i)%nat.
Proof.
  revert i. induction s as [|x s IH]; intros i H; simpl; [lia|].
  destruct i as [|i]; simpl in H; [discriminate|].
  apply IH in H. lia.
Qed.

(** Once the first byte of the target is matched, the rest of the target
    followed by a white-space byte ends the loop. *)
Lemma inline_scan_matches_target (target : string) (ws : ascii) (rest : string) :
  isspace ws = true ->
  forall (suffix : string) (i : nat) (data : string),
    string_drop i target = suffix ->
    (1 <= i <= String.length target)%nat ->
    inline_scan target i data (suffix ++ String ws rest)
    = Ok ((data ++ suffix ++ String ws EmptyString)%string, rest).
Proof.
  intros Hws. induction suffix as [|c suffix IH]; intros i data Hd Hi.
  - apply string_drop_nil in Hd. assert (i = String.length target) by lia.
    subst i. cbn [append inline_scan].
    assert (E1 : (String.length target <? String.length target)%nat = false)
      by (apply Nat.ltb_ge; lia).
    assert (E2 : (String.length target =? 0)%nat = false)
      by (apply Nat.eqb_neq; lia).
    assert (E3 : (String.length target <=? String.length target)%nat = true)
      by (apply Nat.leb_le; lia).
    rewrite E1, E2, E3, Hws. cbn [andb orb].
    assert (E4 : (String.length target <? String.length target + 1)%nat = true)
      by (apply Nat.ltb_lt; lia).
    destruct rest; cbn [inline_scan]; rewrite E4; reflexivity.
  - destruct (string_drop_get _ _ _ _ Hd) as (Hg & Hd' & Hlt).
    cbn [append inline_scan].
    assert (E1 : (String.length target <? i)%nat = false)
      by (apply Nat.ltb_ge; lia).
    assert (E2 : (i =? 0)%nat = false) by (apply Nat.eqb_neq; lia).
    assert (E3 : (i <? String.length target)%nat = true)
      by (apply Nat.ltb_lt; lia).
    rewrite E1, E2, E3, Hg, Ascii.eqb_refl. cbn [andb]. rewrite orb_true_r.
    rewrite (IH (i + 1)%nat (add_byte data c)).
    + unfold add_byte. now rewrite append_assoc.
    + now rewrite Nat.add_1_r.
    + lia.
Qed.

(** Bytes without the first byte of the target are copied and passed. *)
Lemma inline_scan_skips (target : string) (t0 : ascii) (payload : string) :
  String.get 0 target = Some t0 ->
  string_has t0 payload = false ->
  forall (data buf : string),
    inline_scan target 0 data (payload ++ buf)
    = inline_scan target 0 (data ++ payload) buf.
Proof.
  intros Ht. induction payload as [|c payload IH]; intros Hno data buf.
  - now rewrite append_nil_r.
  - simpl in Hno. apply orb_false_iff in Hno. destruct Hno as [Hc Hno].
    cbn [append inline_scan]. rewrite Ht, Hc.
    assert (E : (String.length target <? 0)%nat = false)
      by (apply Nat.ltb_ge; lia).
    rewrite E. cbn [Nat.eqb]. rewrite (IH Hno).
    unfold add_byte. now rewrite append_assoc.
Qed.

(** The data of an inline image in which the first byte of the end marker
    does not occur: [get_inline_data] returns them, less a final line end,
    and leaves the reading position after the white-space byte that follows
    the end marker, in the stream that byte is in: the bytes left unread
    are the rest of that stream and the streams after it; the parser is
    the parser given, at another position, when its stream has the end
    marker and the white-space byte, and on a later stream otherwise. *)
Theorem get_inline_data_finds_the_end_marker (self : PDFContentParser)
    (pos : Z) (target payload rest : string) (t0 ws : ascii) :
  String.get 0 target = Some t0 ->
  string_has t0 payload = false ->
  isspace ws = true ->
  unread (seek pos self) = (payload ++ target ++ String ws rest)%string ->
  exists self',
    get_inline_data self pos target = Ok (self', (pos, strip_eol payload))
    /\ unread self' = rest
    /\ context self' = context self
    /\ curtype self' = curtype self
    /\ curstack self' = curstack self
    /\ (exists skipped k,
          (fp_data self :: later self
           = skipped ++ fp_data self' :: later self')%list
          /\ rest
             = (string_drop k (fp_data self')
                ++ String.concat EmptyString (later self'))%string
          /\ (skipped = [] <->
              (String.length (payload ++ target)
               < String.length (string_drop (Z.to_nat pos) (fp_data self)))%nat))
    /\ ((String.length (payload ++ target)
         < String.length (string_drop (Z.to_nat pos) (fp_data self)))%nat ->
        self' = set_unread rest self).
Proof.
  intros Ht Hno Hws Hin.
  set (n := String.length (payload ++ target ++ String ws EmptyString)).
  destruct (advance n
              (String.length (string_drop (Z.to_nat pos) (fp_data self)))
              (fp_data self) (later self)) as [fp streams] eqn:A.
  exists (mkParser fp streams rest (context self) (curtype self)
            (curstack self)).
  assert (Hn : n = (String.length (payload ++ target) + 1)%nat).
  { unfold n. rewrite !length_append. simpl. lia. }
  split; [|split; [reflexivity|]; do 3 (split; [reflexivity|]); split].
  - unfold get_inline_data. rewrite Hin.
    rewrite (inline_scan_skips target t0 payload Ht Hno). cbn [append].
    destruct target as [|t target']; [discriminate|].
    simpl in Ht. injection Ht as ->.
    cbn [append inline_scan String.length Nat.ltb Nat.leb Nat.eqb String.get].
    rewrite Ascii.eqb_refl.
    rewrite (inline_scan_matches_target (String t0 target') ws rest Hws target'
               1%nat (add_byte payload t0) eq_refl);
      [|simpl; lia].
    cbn [bind]. unfold add_byte. rewrite append_assoc. cbn [append].
    cbn [seek set_unread fp_data later context curtype curstack].
    fold n. cbn [append] in n. fold n. rewrite A.
    unfold drop_last.
    match goal with
    | |- context [substring 0 ?m _] => replace m with (String.length payload)
    end.
    + rewrite substring_prefix. reflexivity.
    + rewrite length_append. simpl. rewrite length_append. simpl. lia.
  - cbn [fp_data later].
    destruct (advance_spec (later self) n (Z.to_nat pos) (fp_data self)
                fp streams) as (skipped & k & Hs & Hk & Hsk).
    + unfold seek in Hin. cbn [unread set_unread] in Hin.
      rewrite Hin, Hn, !length_append. simpl. lia.
    + exact A.
    + exists skipped, k. split; [exact Hs|]. split.
      * rewrite <- Hk. unfold seek in Hin. cbn [unread set_unread] in Hin.
        rewrite Hin. unfold n.
        replace (payload ++ target ++ String ws rest)%string
          with ((payload ++ target ++ String ws EmptyString) ++ rest)%string.
        -- now rewrite string_drop_length_app.
        -- rewrite !append_assoc. reflexivity.
      * rewrite Hsk, Hn. lia.
  - intros Hlt. rewrite advance_stays in A by lia.
    injection A as <- <-. reflexivity.
Qed.

Lemma get_inline_data_finds_the_end_marker_witness :
  let payload := String "a" (String "b" (String CR (String LF (String LF
                   EmptyString)))) in
  let self := mkParser ("BI ID " ++ payload) ["EI Q"] EmptyString [] None [] in
  exists self',
    get_inline_data self 6 "EI" = Ok (self', (6, "ab"))
    /\ self' = mkParser "EI Q" [] "Q" [] None [].
Proof.
  intros payload self.
  destruct (get_inline_data_finds_the_end_marker self 6 "EI" payload "Q"
              "E"%char " "%char eq_refl eq_refl eq_refl eq_refl)
    as (self' & H & _).
  exists self'. split; [exact H|].
  vm_compute in H. injection H as <-. reflexivity.
Defined.

Lemma any_space_app (a b : string) :
  any_space (a ++ b) = any_space a || any_space b.
Proof.
  induction a as [|x a IH]; simpl; [reflexivity|].
  now rewrite IH, orb_assoc.
Qed.

(** Without a white-space byte ahead the loop runs into the end of the
    data. *)
Lemma inline_scan_needs_space (target : string) (t0 : ascii) (buf : string) :
  String.get 0 target = Some t0 ->
  any_space buf = false ->
  forall (i : nat) (data : string),
    (i <= String.length target)%nat ->
    inline_scan target i data buf = Raise PSEOF.
Proof.
  intros Ht. induction buf as [|c buf IH]; intros Hno i data Hi.
  - simpl. assert (E : (String.length target <? i)%nat = false)
      by (apply Nat.ltb_ge; lia). now rewrite E.
  - simpl in Hno. apply orb_false_iff in Hno. destruct Hno as [Hc Hno].
    cbn [inline_scan].
    assert (E : (String.length target <? i)%nat = false)
      by (apply Nat.ltb_ge; lia).
    rewrite E, Ht, Hc.
    assert (Hlen : (1 <= String.length target)%nat)
      by (destruct target; [discriminate | simpl; lia]).
    destruct (i =? 0)%nat.
    + destruct (Ascii.eqb c t0); apply (IH Hno); lia.
    + rewrite andb_false_r. cbn [orb].
      destruct (i <? String.length target)%nat eqn:E1; cbn [andb].
      * apply Nat.ltb_lt in E1.
        destruct (match String.get i target with
                  | Some t => Ascii.eqb c t
                  | None => false
                  end); apply (IH Hno); lia.
      * apply (IH Hno). lia.
Qed.

(** The end marker counts only when a white-space byte follows it: if no
    byte from the position on is white space (so also when the end marker
    is the very end of the data), [get_inline_data] raises [PSEOF]. *)
Theorem get_inline_data_needs_a_space (self : PDFContentParser) (pos : Z)
    (target : string) (t0 : ascii) :
  String.get 0 target = Some t0 ->
  any_space (unread (seek pos self)) = false ->
  get_inline_data self pos target = Raise PSEOF.
Proof.
  intros Ht Hno. unfold get_inline_data.
  rewrite (inline_scan_needs_space target t0 _ Ht Hno); [reflexivity | lia].
Qed.

Lemma get_inline_data_needs_a_space_witness :
  get_inline_data (mkParser "ID abcEI" [] EmptyString [] None []) 3 "EI"
  = Raise PSEOF.
Proof.
  apply (get_inline_data_needs_a_space _ 3 "EI" "E"%char); reflexivity.
Defined.

(** ** The line end before the end marker *)

Lemma list_ascii_of_string_app (a b : string) :
  list_ascii_of_string (a ++ b)
  = (list_ascii_of_string a ++ list_ascii_of_string b)%list.
Proof. induction a as [|x a IH]; simpl; [reflexivity | now rewrite IH]. Qed.

Lemma last_byte_rev (s : string) :
  last_byte s = hd_error (rev (list_ascii_of_string s)).
Proof.
  induction s as [|x s IH]; [reflexivity|].
  cbn [list_ascii_of_string rev]. destruct s as [|y s]; [reflexivity|].
  change (last_byte (String x (String y s))) with (last_byte (String y s)).
  rewrite IH. cbn [list_ascii_of_string rev].
  destruct (rev (list_ascii_of_string s) ++ [y])%list eqn:E; [|reflexivity].
  apply app_eq_nil in E. destruct E as [_ E]. discriminate.
Qed.

Lemma drop_last_suffix (payload eol : string) :
  drop_last (String.length eol) (payload ++ eol) = payload.
Proof.
  unfold drop_last. rewrite length_append.
  replace (String.length payload + String.length eol - String.length eol)%nat
    with (String.length payload) by lia.
  apply substring_prefix.
Qed.

(** What [get_inline_data] strips from the end of the data: for data that
    do not themselves end in CR or LF, one CR, one LF or the pair CR LF goes,
    and so do two line feeds and CR LF LF, the pattern matching once before
    a final line feed and once more at the end; data without a line end are
    kept as they are. *)
Theorem strip_eol_removes_one_line_end (payload : string) :
  (forall c, last_byte payload = Some c -> c <> CR /\ c <> LF) ->
  strip_eol payload = payload
  /\ strip_eol (payload ++ String CR EmptyString) = payload
  /\ strip_eol (payload ++ String LF EmptyString) = payload
  /\ strip_eol (payload ++ String CR (String LF EmptyString)) = payload
  /\ strip_eol (payload ++ String LF (String LF EmptyString)) = payload
  /\ strip_eol (payload ++ String CR (String LF (String LF EmptyString)))
     = payload.
Proof.
  intros Hlast. rewrite last_byte_rev in Hlast.
  assert (Hc : forall c l, rev (list_ascii_of_string payload) = c :: l ->
            Ascii.eqb c CR = false /\ Ascii.eqb c LF = false).
  { intros c l E. rewrite E in Hlast. destruct (Hlast c eq_refl) as [H1 H2].
    split; now apply Ascii.eqb_neq. }
  assert (Hd : forall eol, drop_last (String.length eol) (payload ++ eol)
                           = payload) by (intros; apply drop_last_suffix).
  pose proof (Hd (String CR EmptyString)) as D1.
  pose proof (Hd (String LF EmptyString)) as D2.
  pose proof (Hd (String CR (String LF EmptyString))) as D3.
  pose proof (Hd (String LF (String LF EmptyString))) as D4.
  pose proof (Hd (String CR (String LF (String LF EmptyString)))) as D5.
  cbn [String.length] in D1, D2, D3, D4, D5.
  unfold strip_eol.
  rewrite !list_ascii_of_string_app, !rev_app_distr.
  cbn [list_ascii_of_string rev app].
  destruct (rev (list_ascii_of_string payload)) as [|c1 [|c2 [|c3 l]]] eqn:E;
    try (destruct (Hc c1 _ eq_refl) as [H1 H2]);
    cbn [app]; try rewrite H1; try rewrite H2;
    repeat split;
    (vm_compute Ascii.eqb || idtac); cbn [andb orb];
    try rewrite H1; try rewrite H2; cbn [andb orb]; auto.
Qed.

Lemma strip_eol_removes_one_line_end_witness :
  strip_eol ("abc" ++ String CR (String LF EmptyString)) = "abc"
  /\ strip_eol ("abc" ++ String LF (String LF EmptyString)) = "abc".
Proof.
  destruct (strip_eol_removes_one_line_end "abc") as (_ & _ & _ & H4 & H5 & _).
  - intros c [= <-]. split; discriminate.
  - split; [exact H4 | exact H5].
Defined.

(** ** Inline images that are not well formed *)

(** At [ID], once the dictionary [d] is read and the end marker chosen:
    the data are read up to the marker and the stream is pushed, followed by
    the keyword [EI] when the marker is [EI]. *)
Lemma do_keyword_ID_with_marker {X : Externals} (self self1 : PDFContentParser)
    (pos p0 : Z) (idx : PDFObj) (objs : list PDFObj)
    (d : list (string * PDFObj)) (eos : string) :
  end_type "inline" self = Ok (self1, (p0, objs)) ->
  Nat.even (List.length objs) = true ->
  inline_dict (choplist2 objs) [] = Ok d ->
  inline_eos d = Ok eos ->
  do_keyword self pos KEYWORD_ID idx
  = ('(p, (pos', data)) <- get_inline_data self1 (pos + 3) eos ;;
     let data := if negb (String.eqb eos "EI") then (data ++ eos)%string
                 else data in
     let p := push_entry (Entry2 pos' (OStream d data)) p in
     Ok (if String.eqb eos "EI"
         then push_entry (Entry2 pos' KEYWORD_EI) p else p)).
Proof.
  intros Hend Heven Hd Heos. unfold do_keyword.
  change (is_keyword "BI" KEYWORD_ID) with false.
  change (is_keyword "ID" KEYWORD_ID) with true. cbn iota.
  rewrite Hend. unfold do_keyword_ID.
  rewrite Heven, Hd. cbn [negb bind]. rewrite Heos. cbn [bind].
  pose proof (get_inline_data_not_PSTypeError self1 (pos + 3) eos) as Hne.
  destruct (get_inline_data self1 (pos + 3) eos) as [[p [pos' data]]| e |];
    cbn [bind]; try reflexivity.
  destruct e; try reflexivity. congruence.
Qed.

(** An odd number of operands between [BI] and [ID]: in strict mode
    [PSTypeError] is raised; otherwise nothing is pushed, no data are read
    and the parser is left as [end_type] left it, out of the inline
    dictionary. *)
Theorem inline_image_with_odd_operands {X : Externals}
    (self self1 : PDFContentParser) (pos p0 : Z) (idx : PDFObj)
    (objs : list PDFObj) :
  end_type "inline" self = Ok (self1, (p0, objs)) ->
  Nat.even (List.length objs) = false ->
  do_keyword self pos KEYWORD_ID idx
  = if STRICT then Raise PSTypeError else Ok self1.
Proof.
  intros Hend Hodd. unfold do_keyword.
  change (is_keyword "BI" KEYWORD_ID) with false.
  change (is_keyword "ID" KEYWORD_ID) with true. cbn iota.
  rewrite Hend. unfold do_keyword_ID. rewrite Hodd. reflexivity.
Qed.

Lemma inline_image_with_odd_operands_witness :
  let data := "BI /W ID abc EI" in
  let opened := mkParser data [] " abc EI" [(0, None, [])] (Some "inline")
                  [Entry2 3 (OLit "W")] in
  @do_keyword lenient opened 6 KEYWORD_ID (OInt 1)
  = Ok (mkParser data [] " abc EI" [] None [])
  /\ @do_keyword strict opened 6 KEYWORD_ID (OInt 1) = Raise PSTypeError.
Proof.
  intros data opened. split.
  - exact (@inline_image_with_odd_operands lenient opened
             (mkParser data [] " abc EI" [] None []) 6 0 (OInt 1) [OLit "W"]
             eq_refl eq_refl).
  - exact (@inline_image_with_odd_operands strict opened
             (mkParser data [] " abc EI" [] None []) 6 0 (OInt 1) [OLit "W"]
             eq_refl eq_refl).
Defined.

(** A filter array at key [F]: only its first element decides.  When that
    is not an ASCII85 name the end marker is [EI], whatever follows in the
    array (an ASCII85 filter in second place is not seen); and an empty
    array raises [IndexError], in lenient mode as well, the handler catching
    [PSTypeError] only. *)
Theorem inline_image_filter_array {X : Externals}
    (self self1 : PDFContentParser) (pos p0 : Z) (idx : PDFObj)
    (objs : list PDFObj) (d : list (string * PDFObj)) :
  end_type "inline" self = Ok (self1, (p0, objs)) ->
  Nat.even (List.length objs) = true ->
  inline_dict (choplist2 objs) [] = Ok d ->
  (dict_get "F" d = Some (OArr []) ->
   do_keyword self pos KEYWORD_ID idx = Raise IndexError)
  /\
  (forall x rest,
     dict_get "F" d = Some (OArr (x :: rest)) ->
     in_LITERALS_ASCII85_DECODE x = false ->
     do_keyword self pos KEYWORD_ID idx
     = ('(p, (pos', data)) <- get_inline_data self1 (pos + 3) "EI" ;;
        Ok (push_entry (Entry2 pos' KEYWORD_EI)
              (push_entry (Entry2 pos' (OStream d data)) p)))).
Proof.
  intros Hend Heven Hd. split.
  - intros HF. unfold do_keyword.
    change (is_keyword "BI" KEYWORD_ID) with false.
    change (is_keyword "ID" KEYWORD_ID) with true. cbn iota.
    rewrite Hend. unfold do_keyword_ID, inline_eos.
    rewrite Heven, Hd. cbn [negb bind]. rewrite HF. reflexivity.
  - intros x rest HF Hx.
    assert (Heos : inline_eos d = Ok "EI").
    { unfold inline_eos. rewrite HF. cbn [filter_first bind]. now rewrite Hx. }
    rewrite (do_keyword_ID_with_marker self self1 pos p0 idx objs d "EI"
               Hend Heven Hd Heos).
    reflexivity.
Qed.

Lemma inline_image_filter_array_witness :
  let data := "BI /F [/Fl /A85] ID abc~> EI Q" in
  let filters := OArr [OLit "Fl"; OLit "A85"] in
  let opened := mkParser data [] " abc~> EI Q" [(0, None, [])] (Some "inline")
                  [Entry2 3 (OLit "F"); Entry2 6 filters] in
  @do_keyword lenient opened 17 KEYWORD_ID (OInt 1)
  = Ok (mkParser data [] "Q" [] None
          [ Entry2 20 (OStream [("F", filters)] "abc~> ");
            Entry2 20 KEYWORD_EI ]).
Proof.
  intros data filters opened.
  destruct (@inline_image_filter_array lenient opened
              (mkParser data [] " abc~> EI Q" [] None []) 17 0 (OInt 1)
              [OLit "F"; filters] [("F", filters)]
              eq_refl eq_refl eq_refl) as [_ H].
  rewrite (H (OLit "Fl") [OLit "A85"] eq_refl eq_refl).
  vm_compute. reflexivity.
Defined.

(** ** The font cache *)

Lemma cache_get_set_same (z : Z) (f : PDFFont) (c : list (Z * PDFFont)) :
  cache_get z (cache_set z f c) = Some f.
Proof.
  induction c as [|[k v] c IH]; simpl.
  - now rewrite Z.eqb_refl.
  - destruct (z =? k) eqn:E; simpl; rewrite E; [reflexivity | exact IH].
Qed.

(** A font built for no object id (or the id [0]) leaves the resource
    manager as it is. *)
Lemma get_font_without_objid {X : Externals} (fuel : nat) :
  forall (r r' : PDFResourceManager) (objid : option Z)
         (spec : list (string * PDFObj)) (f : PDFFont),
    objid_true objid = None ->
    get_font fuel r objid spec = Ok (f, r') -> r' = r.
Proof.
  induction fuel as [|fuel IH]; intros r r' objid spec f Hid H;
    [discriminate|].
  cbn [get_font] in H. rewrite Hid in H. clear Hid.
  crunch;
    repeat match goal with
           | E : get_font fuel _ None _ = Ok _ |- _ =>
               apply (IH _ _ None _ _ eq_refl) in E
           end;
    congruence.
Qed.

Lemma cache_get_set_other (z k : Z) (f : PDFFont) (c : list (Z * PDFFont)) :
  z <> k -> cache_get z (cache_set k f c) = cache_get z c.
Proof.
  intros Hne. induction c as [|[k' v] c IH]; simpl.
  - destruct (z =? k) eqn:E; [lia | reflexivity].
  - destruct (k =? k') eqn:E; simpl.
    + apply Z.eqb_eq in E. subst k'.
      destruct (z =? k) eqn:E'; [lia | reflexivity].
    + destruct (z =? k'); [reflexivity | exact IH].
Qed.

(** A font once cached stays cached: no call of [get_font] takes it out
    or puts another in its place. *)
Lemma get_font_keeps_the_cache {X : Externals} (fuel : nat)
    (r r' : PDFResourceManager) (objid : option Z)
    (spec : list (string * PDFObj)) (g : PDFFont) (z : Z) (f : PDFFont) :
  cache_get z (_cached_fonts r) = Some f ->
  get_font fuel r objid spec = Ok (g, r') ->
  cache_get z (_cached_fonts r') = Some f.
Proof.
  intros Hz H.
  destruct (objid_true objid) as [k|] eqn:Hid;
    [|now rewrite (get_font_without_objid _ _ _ _ _ _ Hid H)].
  destruct fuel as [|fuel]; [discriminate|].
  cbn [get_font] in H. rewrite Hid in H.
  destruct (cache_get k (_cached_fonts r)) as [f0|] eqn:E0.
  - now injection H as <- <-.
  - assert (Hne : z <> k) by (intros ->; congruence).
    clear Hid E0.
    crunch;
      repeat match goal with
             | E : get_font fuel _ None _ = Ok _ |- _ =>
                 apply (get_font_without_objid _ _ _ None _ _ eq_refl) in E;
                 subst
             end;
      try (destruct (caching _); cbn [_cached_fonts];
           [rewrite (cache_get_set_other z k _ _ Hne)|]);
      congruence.
Qed.

Lemma serves_keeps_the_cache {X : Externals} (r r' : PDFResourceManager)
    (z : Z) (f : PDFFont) :
  serves r r' ->
  cache_get z (_cached_fonts r) = Some f ->
  cache_get z (_cached_fonts r') = Some f.
Proof.
  intros S Hz. induction S as [r | r r1 r2 fuel objid spec g S IH H].
  - exact Hz.
  - exact (get_font_keeps_the_cache fuel r1 r2 objid spec g z f (IH Hz) H).
Qed.

(** The font cache: with caching on, a font got for an object id other
    than [0] is the font every later request for that id returns, whatever
    spec comes with the request and whatever other fonts were got in
    between, and such a request changes nothing. *)
Theorem get_font_returns_the_cached_font {X : Externals} (fuel fuel' : nat)
    (r r' r'' : PDFResourceManager) (z : Z)
    (spec spec' : list (string * PDFObj)) (f : PDFFont) :
  z <> 0 ->
  caching r = true ->
  get_font fuel r (Some z) spec = Ok (f, r') ->
  serves r' r'' ->
  get_font (S fuel') r'' (Some z) spec' = Ok (f, r'').
Proof.
  intros Hz Hc H.
  assert (Hid : objid_true (Some z) = Some z).
  { unfold objid_true. destruct (z =? 0) eqn:E; [lia | reflexivity]. }
  assert (Hhit : cache_get z (_cached_fonts r') = Some f).
  { destruct fuel as [|fuel]; [discriminate|].
    cbn [get_font] in H. rewrite Hid in H.
    destruct (cache_get z (_cached_fonts r)) as [f0|] eqn:E0.
    - now injection H as <- <-.
    - clear Hid E0.
      crunch;
        repeat match goal with
               | E : get_font fuel _ None _ = Ok _ |- _ =>
                   apply (get_font_without_objid _ _ _ None _ _ eq_refl) in E;
                   subst
               end;
        try (rewrite Hc; cbn; apply cache_get_set_same); congruence. }
  intros S. cbn [get_font].
  rewrite Hid, (serves_keeps_the_cache r' r'' z f S Hhit). reflexivity.
Qed.

Lemma get_font_returns_the_cached_font_witness :
  let r := mkResourceManager true [] in
  let f := PDFTrueTypeFont [("Subtype", OLit "TrueType")] in
  let g := PDFType3Font [("Subtype", OLit "Type3")] in
  let r' := mkResourceManager true [(7, f)] in
  let r'' := mkResourceManager true [(7, f); (8, g)] in
  @get_font lenient 1 r (Some 7) [("Subtype", OLit "TrueType")] = Ok (f, r')
  /\ @get_font lenient 1 r' (Some 8) [("Subtype", OLit "Type3")] = Ok (g, r'')
  /\ @get_font lenient 1 r'' (Some 7) [("Subtype", OLit "Type3")]
     = Ok (f, r'').
Proof.
  intros r f g r' r''.
  assert (E1 : @get_font lenient 1 r (Some 7) [("Subtype", OLit "TrueType")]
               = Ok (f, r')) by reflexivity.
  assert (E2 : @get_font lenient 1 r' (Some 8) [("Subtype", OLit "Type3")]
               = Ok (g, r'')) by reflexivity.
  split; [exact E1|]. split; [exact E2|].
  exact (@get_font_returns_the_cached_font lenient 1 0 r r' r'' 7 _
           [("Subtype", OLit "Type3")] f ltac:(discriminate) eq_refl E1
           (@serves_font lenient r' r' r'' 1 (Some 8) _ g
              (@serves_none lenient r') E2)).
Defined.

(** Without an object id (or with the id [0]), and always with caching
    off, [get_font] leaves the resource manager as it is: nothing is
    cached. *)
Theorem get_font_caches_nothing_without_id {X : Externals} (fuel : nat)
    (r r' : PDFResourceManager) (objid : option Z)
    (spec : list (string * PDFObj)) (f : PDFFont) :
  objid_true objid = None \/ caching r = false ->
  get_font fuel r objid spec = Ok (f, r') ->
  r' = r.
Proof.
  intros [Hid | Hc] H; [exact (get_font_without_objid _ _ _ _ _ _ Hid H)|].
  destruct fuel as [|fuel]; [discriminate|].
  cbn [get_font] in H.
  crunch;
    repeat match goal with
           | E : get_font fuel _ None _ = Ok _ |- _ =>
               apply (get_font_without_objid _ _ _ None _ _ eq_refl) in E; subst
           end;
    try rewrite Hc; congruence.
Qed.

Lemma get_font_caches_nothing_without_id_witness :
  let r := mkResourceManager true [(7, PDFType3Font [])] in
  exists f,
    @get_font lenient 1 r None [("Subtype", OLit "TrueType")] = Ok (f, r).
Proof.
  intros r.
  destruct (@get_font lenient 1 r None [("Subtype", OLit "TrueType")])
    as [[f r']| e |] eqn:E;
    [| vm_compute in E; discriminate E | vm_compute in E; discriminate E].
  exists f.
  now rewrite (@get_font_caches_nothing_without_id lenient 1 r r' None _ f
                 (or_introl eq_refl) E).
Defined.

(** ** A rendering starts afresh *)

Section Afresh.
Context {X : Externals}.

Lemma init_fonts_with_state (a : PDFPageInterpreter) (fuel : nat)
    (items : list (string * PDFObj)) :
  forall s,
    init_fonts fuel items (with_state_of a s)
    = map_ok (with_state_of a) (init_fonts fuel items s).
Proof.
  induction items as [|[fontid spec] items IH]; intros s; [reflexivity|].
  cbn [init_fonts].
  destruct (dict_value spec) as [d| |]; cbn [bind]; try reflexivity.
  change (rsrcmgr (with_state_of a s)) with (rsrcmgr s).
  destruct (get_font fuel (rsrcmgr s) _ d) as [[f r]| |]; cbn [bind];
    try reflexivity.
  exact (IH (set_fontmap (dict_set fontid f (fontmap s)) (set_rsrcmgr r s))).
Qed.

Lemma init_colorspaces_with_state (a : PDFPageInterpreter)
    (items : list (string * PDFObj)) :
  forall s,
    init_colorspaces items (with_state_of a s)
    = map_ok (with_state_of a) (init_colorspaces items s).
Proof.
  induction items as [|[csid spec] items IH]; intros s; [reflexivity|].
  cbn [init_colorspaces].
  destruct (get_colorspace (resolve1 spec)) as [[cs|]| |]; cbn [bind];
    try reflexivity.
  - exact (IH (set_csmap (dict_set csid cs (csmap s)) s)).
  - apply IH.
Qed.

Lemma init_xobjects_with_state (a : PDFPageInterpreter)
    (items : list (string * PDFObj)) :
  forall s,
    init_xobjects items (with_state_of a s)
    = with_state_of a (init_xobjects items s).
Proof.
  induction items as [|[xobjid strm] items IH]; intros s; [reflexivity|].
  cbn [init_xobjects].
  exact (IH (set_xobjmap (dict_set xobjid strm (xobjmap s)) s)).
Qed.

Lemma init_resources_items_with_state (a : PDFPageInterpreter) (fuel : nat)
    (items : list (string * PDFObj)) :
  forall s,
    init_resources_items fuel items (with_state_of a s)
    = map_ok (with_state_of a) (init_resources_items fuel items s).
Proof.
  induction items as [|[k v] items IH]; intros s; [reflexivity|].
  cbn [init_resources_items].
  destruct (String.eqb k "Font").
  { destruct (dict_value v) as [d| |]; cbn [bind]; try reflexivity.
    rewrite init_fonts_with_state.
    destruct (init_fonts fuel d s); cbn [bind map_ok]; try reflexivity.
    apply IH. }
  destruct (String.eqb k "ColorSpace").
  { destruct (dict_value v) as [d| |]; cbn [bind]; try reflexivity.
    rewrite init_colorspaces_with_state.
    destruct (init_colorspaces d s); cbn [bind map_ok]; try reflexivity.
    apply IH. }
  destruct (String.eqb k "ProcSet").
  { destruct (list_value v) as [d| |]; cbn [bind]; try reflexivity.
    apply IH. }
  destruct (String.eqb k "XObject").
  { destruct (dict_value v) as [d| |]; cbn [bind]; try reflexivity.
    rewrite init_xobjects_with_state. apply IH. }
  cbn [bind]. apply IH.
Qed.

Lemma init_state_with_state (a s : PDFPageInterpreter) (m : Matrix) :
  init_state m (with_state_of a s) = init_state m s.
Proof. reflexivity. Qed.

(** [init_resources] and [init_state] together give every attribute of
    the interpreter a value that does not depend on the one it had. *)
Lemma init_afresh (fuel : nat) (res : PDFObj) (m : Matrix)
    (s1 s2 : PDFPageInterpreter) :
  rsrcmgr s1 = rsrcmgr s2 -> device s1 = device s2 ->
  map_ok (init_state m) (init_resources fuel res s1)
  = map_ok (init_state m) (init_resources fuel res s2).
Proof.
  intros Hr Hd. unfold init_resources.
  destruct (negb (py_truthy res)).
  - destruct s1, s2; cbn in Hr, Hd; subst; reflexivity.
  - destruct (dict_value res) as [items| |]; cbn [bind]; try reflexivity.
    set (base := set_csmap PREDEFINED_COLORSPACE
                   (set_xobjmap [] (set_fontmap [] (set_resources res s2)))).
    replace (set_csmap PREDEFINED_COLORSPACE
               (set_xobjmap [] (set_fontmap [] (set_resources res s1))))
      with (with_state_of s1 base)
      by (destruct s1, s2; cbn in Hr, Hd; subst; reflexivity).
    rewrite init_resources_items_with_state.
    destruct (init_resources_items fuel items base); reflexivity.
Qed.
End Afresh.

(** [render_contents], and with it [process_page], starts afresh: the
    outcome depends on the resource manager and the device of the
    interpreter and on nothing else it holds, whatever an earlier page or
    stream left there. *)
Theorem render_contents_starts_afresh {X : Externals} (fuel : nat)
    (s1 s2 : PDFPageInterpreter) :
  rsrcmgr s1 = rsrcmgr s2 ->
  device s1 = device s2 ->
  (forall res streams m,
     render_contents fuel s1 res streams m
     = render_contents fuel s2 res streams m)
  /\ (forall page, process_page fuel page s1 = process_page fuel page s2).
Proof.
  intros Hr Hd.
  assert (Hrc : forall s1 s2 res streams m,
            rsrcmgr s1 = rsrcmgr s2 -> device s1 = device s2 ->
            render_contents fuel s1 res streams m
            = render_contents fuel s2 res streams m).
  { clear. intros s1 s2 res streams m Hr Hd.
    destruct fuel as [|fuel]; [reflexivity|]. cbn [render_contents].
    pose proof (init_afresh fuel res m s1 s2 Hr Hd) as H.
    destruct (init_resources fuel res s1) as [a| |],
             (init_resources fuel res s2) as [b| |];
      cbn [map_ok] in H; try discriminate H; cbn [bind];
      [injection H as ->; reflexivity | congruence | reflexivity]. }
  split; [intros; now apply Hrc|].
  intros page. unfold process_page.
  destruct (mediabox page) as [[[x0 y0] x1] y1].
  match goal with
  | |- bind ?c _ = _ => destruct c as [m| |]; cbn [bind]; try reflexivity
  end.
  rewrite (Hrc (call_device (begin_page page m) s1)
               (call_device (begin_page page m) s2));
    [reflexivity | exact Hr | cbn; now rewrite Hd].
Qed.

Lemma render_contents_starts_afresh_witness :
  let used :=
    set_argstack [OInt 5]
      (set_curpath [Seg_h] (set_csmap example_colorspaces fresh_interpreter)) in
  @render_contents lenient 1 used ONone (OArr []) MATRIX_IDENTITY
  = @render_contents lenient 1 fresh_interpreter ONone (OArr []) MATRIX_IDENTITY.
Proof.
  intros used.
  exact (proj1 (@render_contents_starts_afresh lenient 1 used fresh_interpreter
                  eq_refl eq_refl) ONone (OArr []) MATRIX_IDENTITY).
Defined.

(** ** Text lines *)

(** Without the conditions of the next theorem [T*] and [0 ty Td] can
    differ in the sign of a zero: after [1 0 1 1 -0.0 0 Tm] and
    [-0.0 -0.0 TD], [T*] ends at [e = -0.0] and [0 -0.0 Td] at [e = 0.0]. *)
Lemma T_a_keeps_a_negative_zero :
  let self := page_start lenient in
  (s0 <- do_Tm (OInt 1) (OInt 0) (OInt 1) (OInt 1) (OReal neg_zero) (OInt 0)
           self ;;
   s1 <- @do_TD lenient (OReal neg_zero) (OReal neg_zero) s0 ;;
   s2 <- do_T_a s1 ;;
   Ok (matrix (textstate s2)))
  = Ok (OInt 1, OInt 0, OInt 1, OInt 1, OReal neg_zero, OReal 0)
  /\ (s0 <- do_Tm (OInt 1) (OInt 0) (OInt 1) (OInt 1) (OReal neg_zero) (OInt 0)
              self ;;
      s1 <- @do_TD lenient (OReal neg_zero) (OReal neg_zero) s0 ;;
      s2 <- @do_Td lenient (OInt 0) (OReal neg_zero) s1 ;;
      Ok (matrix (textstate s2)))
     = Ok (OInt 1, OInt 0, OInt 1, OInt 1, OReal 0, OReal 0)
  /\ Prim2SF neg_zero <> Prim2SF 0.
Proof.
  repeat split; try (vm_compute; reflexivity).
  vm_compute. intros E. discriminate E.
Qed.

(** [TD] sets the leading that [T*] moves by: on a text matrix
    [(a,b,c,d,e,f)] of numbers with float values, those of [a] and [b]
    finite and those of [e] and [f] not [-0.0], [TD tx ty] with numbers
    that have float values goes through, [T*] after it goes through too
    and does what [0 ty Td] does. *)
Theorem TD_sets_the_leading_of_T_a {X : Externals} (tx ty a b c d e f : num)
    (x y A B C D E F : float) (self : PDFPageInterpreter) :
  matrix (textstate self)
  = (of_num a, of_num b, of_num c, of_num d, of_num e, of_num f) ->
  to_float tx = Ok x -> to_float ty = Ok y ->
  to_float a = Ok A -> to_float b = Ok B -> to_float c = Ok C ->
  to_float d = Ok D -> to_float e = Ok E -> to_float f = Ok F ->
  is_finite A = true -> is_finite B = true ->
  E <> neg_zero -> F <> neg_zero ->
  exists s1 s2,
    do_TD (of_num tx) (of_num ty) self = Ok s1
    /\ leading (textstate s1) = OReal y
    /\ do_T_a s1 = Ok s2
    /\ do_Td (OInt 0) (of_num ty) s1 = Ok s2.
Proof.
  intros Hm Hx Hy Ha Hb Hc Hd He Hf FA FB NE NF.
  unfold do_TD. rewrite !safe_float_num, Hx, Hy. cbn [bind]. rewrite Hm.
  rewrite (translate_matrix_numbers x y a b c d e f A B C D E F)
    by assumption.
  cbn [bind].
  match goal with
  | |- exists s1 s2, Ok ?s = Ok s1 /\ _ => set (s1 := s); exists s1
  end.
  rewrite (do_Td_numbers (NInt 0) ty a b c d
             (NReal (x * A + y * C + E)) (NReal (x * B + y * D + F))
             0 y A B C D (x * A + y * C + E) (x * B + y * D + F) s1
             eq_refl eq_refl Hy Ha Hb Hc Hd eq_refl eq_refl).
  rewrite (translate_zero_first A (y * C) _ FA (add_not_neg_zero _ E NE)),
          (translate_zero_first B (y * D) _ FB (add_not_neg_zero _ F NF)).
  unfold do_T_a, s1, upd_ts.
  cbn [textstate set_textstate matrix leading set_linematrix set_leading
       set_matrix].
  rewrite !py_mul_real, Hc, Hd. cbn [bind]. rewrite !py_add_reals.
  cbn [bind].
  eexists. repeat split; reflexivity.
Qed.

Lemma TD_sets_the_leading_of_T_a_witness :
  exists s1 s2,
    @do_TD lenient (OInt 0) (OInt (-14)) (page_start lenient) = Ok s1
    /\ leading (textstate s1) = OReal (-14)
    /\ do_T_a s1 = Ok s2
    /\ @do_Td lenient (OInt 0) (OInt (-14)) s1 = Ok s2.
Proof.
  exact (@TD_sets_the_leading_of_T_a lenient (NInt 0) (NInt (-14))
           (NInt 1) (NInt 0) (NInt 0) (NInt 1) (NInt 0) (NInt 0)
           0 (-14) 1 0 0 1 0 0 (page_start lenient)
           eq_refl eq_refl eq_refl eq_refl eq_refl eq_refl eq_refl eq_refl
           eq_refl eq_refl eq_refl zero_not_neg_zero zero_not_neg_zero).
Defined.

(** ** Invariants of a content stream *)

Lemma list_pop_inv {A : Type} (l rest : list A) (x : A) :
  list_pop l = Some (rest, x) -> l = (rest ++ [x])%list.
Proof.
  revert rest. induction l as [|y l IH]; intros rest H; [discriminate|].
  simpl in H. destruct (list_pop l) as [[front z]|] eqn:E.
  - injection H as <- <-. simpl. now rewrite <- (IH front eq_refl).
  - injection H as <- <-. now rewrite (list_pop_nil_inv _ E).
Qed.

Lemma device_ctm_snoc (l : list DeviceCall) (c : DeviceCall) :
  device_ctm (l ++ [c])
  = match c with set_ctm m => Some m | _ => device_ctm l end.
Proof.
  induction l as [|d l IH]; simpl.
  - now destruct c.
  - rewrite IH. destruct c; try reflexivity.
Qed.

Section Invariants.
Context {X : Externals}.
Variable rc :
  PDFPageInterpreter -> PDFObj -> PDFObj -> Matrix -> Exc PDFPageInterpreter.
Variable P : PDFPageInterpreter -> Prop.
Variable excluded : list string.
Hypothesis P_argstack : forall l s, P s -> P (set_argstack l s).
Hypothesis P_methods :
  forall method func,
    In (method, func) (METHODS rc) ->
    existsb (String.eqb method) excluded = false ->
    forall args s s', P s -> call_method func args s = Ok s' -> P s'.

Lemma pop_keeps_invariant (n : Z) (s : PDFPageInterpreter) :
  P s -> P (snd (pop n s)).
Proof.
  intros H. unfold pop. destruct (n =? 0); [exact H|]. now apply P_argstack.
Qed.

Lemma execute_keyword_keeps_invariant (name : string) (idx : PDFObj)
    (s s' : PDFPageInterpreter) :
  existsb (String.eqb (method_name name)) excluded = false ->
  P s -> execute_keyword rc name idx s = Ok s' -> P s'.
Proof.
  intros Hex HP H. unfold execute_keyword in H.
  destruct (getattr_method rc (method_name name)) as [func|] eqn:Hf.
  - apply dict_get_In in Hf.
    pose proof (P_methods _ _ Hf Hex) as Hm.
    destruct (negb (method_nargs (method_name name) func =? 0)).
    + pose proof (pop_keeps_invariant (method_nargs (method_name name) func)
                    s HP) as Hp.
      destruct (pop (method_nargs (method_name name) func) s) as [args s1].
      cbn [snd] in Hp.
      destruct (Z.of_nat (List.length args)
                =? method_nargs (method_name name) func).
      * destruct (in_INDEXED_METHODS (method_name name)); eapply Hm; eauto.
      * now injection H as <-.
    + eapply Hm; eauto.
  - destruct STRICT; [discriminate|]. now injection H as <-.
Qed.

Lemma execute_entries_keep_invariant (entries : list StackEntry) :
  forallb (runs_none_of excluded) entries = true ->
  forall s s', P s -> execute_entries rc entries s = Ok s' -> P s'.
Proof.
  induction entries as [|e entries IH]; intros Hall s s' HP H; simpl in H.
  - now injection H as <-.
  - simpl in Hall. apply andb_true_iff in Hall. destruct Hall as [He Hall].
    destruct (execute_entry rc e s) as [s1| |] eqn:E; try discriminate.
    cbn [bind] in H. refine (IH Hall s1 s' _ H).
    unfold runs_none_of in He.
    destruct e as [p o | p o i]; cbn [entry_obj] in He; simpl in E;
      destruct o;
      try (injection E as <-; unfold push; now apply P_argstack);
      apply negb_true_iff in He;
      exact (execute_keyword_keeps_invariant _ _ _ _ He HP E).
Qed.

Lemma execute_keeps_invariant (streams : list PDFObj)
    (entries : list StackEntry) (final : option exn) :
  nextobjects streams = (entries, final) ->
  forallb (runs_none_of excluded) entries = true ->
  forall s s', P s -> execute rc streams s = Ok s' -> P s'.
Proof.
  intros Hn Hall s s' HP H. unfold execute in H. rewrite Hn in H.
  destruct (execute_entries rc entries s) as [s1| |] eqn:E; try discriminate.
  cbn [bind] in H. destruct final; [discriminate|]. injection H as <-.
  exact (execute_entries_keep_invariant entries Hall s s1 HP E).
Qed.
End Invariants.

(** Every method but [do_Do] that changes [ctm] tells the device. *)
Lemma methods_tell_the_ctm {X : Externals} rc (method : string)
    (func : Method) :
  In (method, func) (METHODS rc) ->
  existsb (String.eqb method) ["do_Do"] = false ->
  forall args s s',
    device_ctm (device s) = Some (ctm s) ->
    call_method func args s = Ok s' ->
    device_ctm (device s') = Some (ctm s').
Proof.
  intros Hin Hex args self s' HP H.
  simpl in Hin.
  repeat (destruct Hin as [Hin|Hin];
          [injection Hin as <- <-;
           try (vm_compute in Hex; discriminate Hex);
           unfold call_method in H; autounfold with handlers in H;
           crunch; cbn;
           repeat (match goal with
                   | |- context [match ?x with _ => _ end] => destruct x
                   end; cbn);
           rewrite ?device_ctm_snoc; auto |]).
  contradiction.
Qed.

Lemma init_state_tells_the_ctm (m : Matrix) (s : PDFPageInterpreter) :
  ctm (init_state m s) = m
  /\ gstack (init_state m s) = []
  /\ font (textstate (init_state m s)) = None
  /\ device (init_state m s) = (device s ++ [set_ctm m])%list.
Proof. unfold init_state. cbn. destruct (csmap s) as [|[k cs] l]; cbn; auto. Qed.

(** The device is kept in step: when [render_contents] returns from a
    content in which no keyword runs [do_Do], the matrix the device was last
    given by [set_ctm] is the [ctm] of the interpreter. *)
Theorem device_is_told_the_ctm {X : Externals} (fuel : nat)
    (self s' : PDFPageInterpreter) (res streams : PDFObj) (m : Matrix)
    (l : list PDFObj) (entries : list StackEntry) (final : option exn) :
  list_value streams = Ok l ->
  nextobjects l = (entries, final) ->
  forallb (runs_none_of ["do_Do"]) entries = true ->
  render_contents fuel self res streams m = Ok s' ->
  device_ctm (device s') = Some (ctm s').
Proof.
  intros Hl Hn Hall H.
  destruct fuel as [|fuel]; [discriminate|]. cbn [render_contents] in H.
  destruct (init_resources fuel res self) as [s0| |]; try discriminate.
  cbn [bind] in H. rewrite Hl in H. cbn [bind] in H.
  refine (execute_keeps_invariant (render_contents fuel)
            (fun s => device_ctm (device s) = Some (ctm s)) ["do_Do"]
            _ _ l entries final Hn Hall (init_state m s0) s' _ H).
  - intros args s Hs. exact Hs.
  - intros method func Hin Hex args s s1.
    exact (methods_tell_the_ctm _ method func Hin Hex args s s1).
  - destruct (init_state_tells_the_ctm m s0) as (Hc & _ & _ & Hd).
    now rewrite Hd, Hc, device_ctm_snoc.
Qed.

Lemma device_is_told_the_ctm_witness :
  let content := OArr [OStream [] example_form_content] in
  let m := (OInt 2, OInt 0, OInt 0, OInt 2, OInt 0, OInt 0) in
  exists s',
    @render_contents lenient_with_form 1 fresh_interpreter ONone content m
    = Ok s'
    /\ device_ctm (device s') = Some (ctm s')
    /\ ctm s' = m.
Proof.
  intros content m.
  destruct (@render_contents lenient_with_form 1 fresh_interpreter ONone
              content m) as [s'| e |] eqn:E;
    [| vm_compute in E; discriminate E | vm_compute in E; discriminate E].
  exists s'. split; [reflexivity|]. split.
  - exact (@device_is_told_the_ctm lenient_with_form 1 fresh_interpreter s'
             ONone content m _ _ _ eq_refl eq_refl eq_refl E).
  - vm_compute in E. now injection E as <-.
Defined.

(** ** A form XObject and the matrix of the device *)

Lemma methods_stay_at_matrix {X : Externals} rc (m : Matrix) (method : string)
    (func : Method) :
  In (method, func) (METHODS rc) ->
  existsb (String.eqb method) ["do_Do"; "do_cm"] = false ->
  forall args s s',
    at_matrix m s -> call_method func args s = Ok s' -> at_matrix m s'.
Proof.
  intros Hin Hex args self s' (Hc & Hg & Hd) H.
  unfold at_matrix.
  simpl in Hin.
  repeat (destruct Hin as [Hin|Hin];
          [injection Hin as <- <-;
           try (vm_compute in Hex; discriminate Hex);
           unfold call_method in H; autounfold with handlers in H;
           crunch;
           repeat match goal with
                  | E : list_pop _ = Some _ |- _ =>
                      apply list_pop_inv in E; rewrite E in Hg;
                      apply Forall_app in Hg; destruct Hg as [Hg Hg'];
                      inversion Hg'; subst; clear Hg'
                  end;
           cbn in *;
           repeat (match goal with
                   | |- context [match ?x with _ => _ end] => destruct x
                   end; cbn);
           rewrite ?device_ctm_snoc;
           repeat split; auto;
           try (simpl in *; congruence);
           try (apply Forall_app; split; [assumption|];
                constructor; [reflexivity | constructor]) |]).
  contradiction.
Qed.

Lemma render_contents_stays_at_matrix {X : Externals} (fuel : nat)
    (self s' : PDFPageInterpreter) (res streams : PDFObj) (m : Matrix)
    (l : list PDFObj) (entries : list StackEntry) (final : option exn) :
  list_value streams = Ok l ->
  nextobjects l = (entries, final) ->
  forallb (runs_none_of ["do_Do"; "do_cm"]) entries = true ->
  render_contents fuel self res streams m = Ok s' ->
  at_matrix m s'.
Proof.
  intros Hl Hn Hall H.
  destruct fuel as [|fuel]; [discriminate|]. cbn [render_contents] in H.
  destruct (init_resources fuel res self) as [s0| |]; try discriminate.
  cbn [bind] in H. rewrite Hl in H. cbn [bind] in H.
  refine (execute_keeps_invariant (render_contents fuel)
            (at_matrix m) ["do_Do"; "do_cm"]
            _ _ l entries final Hn Hall (init_state m s0) s' _ H).
  - intros args s Hs. exact Hs.
  - intros method func Hin Hex args s s1.
    exact (methods_stay_at_matrix _ m method func Hin Hex args s s1).
  - destruct (init_state_tells_the_ctm m s0) as (Hc & Hg & _ & Hd).
    unfold at_matrix. rewrite Hd, Hc, Hg, device_ctm_snoc. auto.
Qed.

(** [Do] does not give the device its matrix back.  A form XObject is
    rendered at [m = mult_matrix(Matrix, ctm)]; when its content runs
    neither [do_cm] nor [do_Do], [Do] returns with [m] as the matrix the
    device was last given, while the [ctm] of the interpreter is the one it
    was. *)
Theorem Do_leaves_the_form_matrix_on_the_device {X : Externals} (fuel : nat)
    (self s' : PDFPageInterpreter) (xobjid_arg : PDFObj) (xobjid : string)
    (xobj : PDFStream) (M l : list PDFObj) (m : Matrix)
    (entries : list StackEntry) (final : option exn) :
  literal_name xobjid_arg = Ok xobjid ->
  lookup_xobject xobjid self = Ok xobj ->
  dict_get "Subtype" (attrs xobj) = Some LITERAL_FORM ->
  dict_contains "BBox" (attrs xobj) = true ->
  list_value (xobj_matrix xobj) = Ok M ->
  mult_matrix M (matrix_list (ctm self)) = Ok m ->
  list_value (OArr [stream_obj xobj]) = Ok l ->
  nextobjects l = (entries, final) ->
  forallb (runs_none_of ["do_Do"; "do_cm"]) entries = true ->
  do_Do (render_contents fuel) xobjid_arg self = Ok s' ->
  ctm s' = ctm self /\ device_ctm (device s') = Some m.
Proof.
  intros Hname Hxobj Hsub Hbb HM Hmult Hl Hn Hall H.
  unfold do_Do in H. rewrite Hname in H. cbn [bind] in H.
  rewrite Hxobj, Hsub, Hbb in H.
  cbn [LITERAL_FORM is_literal String.eqb Ascii.eqb Bool.eqb andb] in H.
  destruct (dict_getitem "BBox" (attrs xobj)) as [bb| |]; try discriminate.
  cbn [bind] in H.
  destruct (list_value bb) as [bbox| |]; try discriminate.
  cbn [bind] in H. rewrite HM in H. cbn [bind] in H.
  destruct (xobj_resources xobj self) as [res| |]; try discriminate.
  cbn [bind] in H. cbn [call_device ctm] in H. rewrite Hmult in H.
  cbn [bind] in H.
  match type of H with
  | bind ?c _ = _ => destruct c as [child| |] eqn:Hchild; try discriminate
  end.
  cbn [bind] in H. injection H as <-.
  split; [reflexivity|].
  destruct (render_contents_stays_at_matrix fuel _ child res _ m l entries
              final Hl Hn Hall Hchild) as (_ & _ & Hd).
  cbn [device call_device set_device set_rsrcmgr].
  now rewrite device_ctm_snoc.
Qed.

Lemma Do_leaves_the_form_matrix_on_the_device_witness :
  let form :=
    mkStream
      [ ("Subtype", OLit "Form");
        ("BBox", OArr [OInt 0; OInt 0; OInt 100; OInt 100]);
        ("Matrix", OArr [OInt 2; OInt 0; OInt 0; OInt 2; OInt 10; OInt 20]) ]
      example_form_content in
  let parent :=
    set_resources (ODict [])
      (set_xobjmap [("X1", stream_obj form)] (page_start lenient_with_form)) in
  exists s',
    @do_Do lenient_with_form (@render_contents lenient_with_form 2)
      (OLit "X1") parent = Ok s'
    /\ ctm s' = MATRIX_IDENTITY
    /\ device_ctm (device s')
       = Some (OInt 2, OInt 0, OInt 0, OInt 2, OInt 10, OInt 20).
Proof.
  intros form parent.
  destruct (@do_Do lenient_with_form (@render_contents lenient_with_form 2)
              (OLit "X1") parent) as [s'| e |] eqn:E;
    [| vm_compute in E; discriminate E | vm_compute in E; discriminate E].
  exists s'. split; [reflexivity|].
  exact (@Do_leaves_the_form_matrix_on_the_device lenient_with_form 2 parent s'
           (OLit "X1") "X1" form
           [OInt 2; OInt 0; OInt 0; OInt 2; OInt 10; OInt 20]
           [stream_obj form]
           (OInt 2, OInt 0, OInt 0, OInt 2, OInt 10, OInt 20)
           _ _ eq_refl eq_refl eq_refl eq_refl eq_refl eq_refl eq_refl
           eq_refl eq_refl E).
Defined.

(** ** Text without a font *)

Lemma methods_keep_no_font {X : Externals} rc (shown : list DeviceCall)
    (method : string) (func : Method) :
  In (method, func) (METHODS rc) ->
  existsb (String.eqb method) ["do_Tf"; "do_Do"] = false ->
  forall args s s',
    no_font shown s -> call_method func args s = Ok s' -> no_font shown s'.
Proof.
  intros Hin Hex args self s' (Hf & Hg & Hd) H.
  unfold no_font.
  simpl in Hin.
  repeat (destruct Hin as [Hin|Hin];
          [injection Hin as <- <-;
           try (vm_compute in Hex; discriminate Hex);
           unfold call_method in H; autounfold with handlers in H;
           crunch;
           repeat match goal with
                  | E : list_pop _ = Some _ |- _ =>
                      apply list_pop_inv in E; rewrite E in Hg;
                      apply Forall_app in Hg; destruct Hg as [Hg Hg'];
                      inversion Hg'; subst; clear Hg'
                  end;
           simpl in *; try congruence;
           repeat (match goal with
                   | |- context [match ?x with _ => _ end] => destruct x
                   end; simpl);
           rewrite ?filter_app; simpl; rewrite ?app_nil_r;
           repeat split; auto;
           try (simpl in *; congruence);
           try (apply Forall_app; split; [assumption|];
                constructor; [assumption | constructor]) |]).
  contradiction.
Qed.

(** Without [Tf] no text reaches the device: when [render_contents]
    returns from a content in which no keyword runs [do_Tf] or [do_Do], the
    device has had no call of [render_string] it had not had before, in
    strict mode and out of it. *)
Theorem no_Tf_no_text {X : Externals} (fuel : nat)
    (self s' : PDFPageInterpreter) (res streams : PDFObj) (m : Matrix)
    (l : list PDFObj) (entries : list StackEntry) (final : option exn) :
  list_value streams = Ok l ->
  nextobjects l = (entries, final) ->
  forallb (runs_none_of ["do_Tf"; "do_Do"]) entries = true ->
  render_contents fuel self res streams m = Ok s' ->
  filter is_render_string (device s') = filter is_render_string (device self).
Proof.
  intros Hl Hn Hall H.
  destruct fuel as [|fuel]; [discriminate|]. cbn [render_contents] in H.
  destruct (init_resources fuel res self) as [s0| |] eqn:H0; try discriminate.
  cbn [bind] in H. rewrite Hl in H. cbn [bind] in H.
  destruct (init_resources_frame _ _ _ _ H0) as [Hdev _].
  refine (proj2 (proj2
            (execute_keeps_invariant (render_contents fuel)
               (no_font (filter is_render_string (device self)))
               ["do_Tf"; "do_Do"]
               _ _ l entries final Hn Hall (init_state m s0) s' _ H))).
  - intros args s Hs. exact Hs.
  - intros method func Hin Hex args s s1.
    exact (methods_keep_no_font _ _ method func Hin Hex args s s1).
  - destruct (init_state_tells_the_ctm m s0) as (_ & Hg & Hf & Hd).
    unfold no_font. rewrite Hd, Hg, Hf, Hdev, filter_app. cbn.
    rewrite app_nil_r. auto.
Qed.

Lemma no_Tf_no_text_witness :
  let content := OArr [OStream [] example_form_content] in
  exists s',
    @render_contents lenient_with_form 1 fresh_interpreter ONone content
      MATRIX_IDENTITY = Ok s'
    /\ filter is_render_string (device s') = [].
Proof.
  intros content.
  destruct (@render_contents lenient_with_form 1 fresh_interpreter ONone
              content MATRIX_IDENTITY) as [s'| e |] eqn:E;
    [| vm_compute in E; discriminate E | vm_compute in E; discriminate E].
  exists s'. split; [reflexivity|].
  exact (@no_Tf_no_text lenient_with_form 1 fresh_interpreter s'
           ONone content MATRIX_IDENTITY _ _ _ eq_refl eq_refl eq_refl E).
Defined.

(** ** A font that is not there *)

(** [Tf] with a font id the resources do not bind: in strict mode it
    raises; otherwise the font selected is a Type 1 font built from an empty
    spec, the font size is set all the same, and the font cache is left as
    it was. *)
Theorem Tf_with_an_unbound_font {X : Externals} (fontid size : PDFObj)
    (self : PDFPageInterpreter) :
  lookup_font fontid self = Raise KeyError ->
  do_Tf fontid size self
  = if STRICT then Raise (PDFInterpreterError "Undefined Font id")
    else Ok (upd_ts (set_fontsize size)
               (upd_ts (set_font (Some (PDFType1Font []))) self)).
Proof.
  intros H. unfold do_Tf. rewrite H.
  destruct STRICT eqn:E; [reflexivity|].
  cbn [get_font objid_true]. rewrite E. cbn. now destruct self.
Qed.

Lemma Tf_with_an_unbound_font_witness :
  @do_Tf lenient (OLit "F1") (OInt 12) (page_start lenient)
  = Ok (upd_ts (set_fontsize (OInt 12))
          (upd_ts (set_font (Some (PDFType1Font []))) (page_start lenient)))
  /\ @do_Tf strict (OLit "F1") (OInt 12) (page_start strict)
     = Raise (PDFInterpreterError "Undefined Font id").
Proof.
  split.
  - exact (@Tf_with_an_unbound_font lenient (OLit "F1") (OInt 12)
             (page_start lenient) eq_refl).
  - exact (@Tf_with_an_unbound_font strict (OLit "F1") (OInt 12)
             (page_start strict) eq_refl).
Defined.

(** ** Figures on the device *)

Lemma bracketed_app (a b : list DeviceCall) :
  bracketed a -> bracketed b -> bracketed (a ++ b).
Proof.
  intros Ha Hb. induction Ha as [|c l Hc Hl IH|name bbox m inner l Hi _ Hl IH].
  - exact Hb.
  - simpl. now constructor.
  - simpl. rewrite <- app_assoc. simpl. now constructor.
Qed.

Lemma grows_refl (d : list DeviceCall) : grows_bracketed d d.
Proof. exists []. split; [now rewrite app_nil_r | constructor]. Qed.

Lemma grows_trans (a b c : list DeviceCall) :
  grows_bracketed a b -> grows_bracketed b c -> grows_bracketed a c.
Proof.
  intros (x & -> & Hx) (y & -> & Hy). exists (x ++ y)%list.
  split; [now rewrite app_assoc | now apply bracketed_app].
Qed.

Lemma grows_call (d : list DeviceCall) (c : DeviceCall) :
  is_figure_call c = false -> grows_bracketed d (d ++ [c]).
Proof.
  intros Hc. exists [c]. split; [reflexivity|]. constructor; [exact Hc|].
  constructor.
Qed.

Lemma grows_figure (d d' : list DeviceCall) (name : FigName)
    (bbox m : list PDFObj) :
  grows_bracketed (d ++ [begin_figure name bbox m]) d' ->
  grows_bracketed d (d' ++ [end_figure name]).
Proof.
  intros (x & -> & Hx).
  exists (begin_figure name bbox m :: x ++ end_figure name :: [])%list.
  split.
  - rewrite <- !app_assoc. reflexivity.
  - constructor; [exact Hx | constructor].
Qed.

Lemma methods_bracket_figures {X : Externals} rc (base : list DeviceCall)
    (method : string) (func : Method) :
  (forall s r st m s',
     rc s r st m = Ok s' -> grows_bracketed (device s) (device s')) ->
  In (method, func) (METHODS rc) ->
  forall args s s',
    grows_bracketed base (device s) ->
    call_method func args s = Ok s' ->
    grows_bracketed base (device s').
Proof.
  intros Hrc Hin args self s' HP H.
  simpl in Hin.
  repeat (destruct Hin as [Hin|Hin];
          [injection Hin as <- <-;
           unfold call_method in H; autounfold with handlers in H;
           crunch;
           repeat match goal with
                  | E : rc _ _ _ _ = Ok _ |- _ => apply Hrc in E; cbn in E
                  end;
           cbn;
           repeat (match goal with
                   | |- context [match ?x with _ => _ end] => destruct x
                   end; cbn);
           first [ exact HP
                 | refine (grows_trans _ _ _ HP _);
                   first [ apply grows_call; reflexivity
                         | eapply grows_figure; apply grows_call; reflexivity
                         | eapply grows_figure; eassumption ] ] |]).
  contradiction.
Qed.

Lemma runs_none_of_nothing (entries : list StackEntry) :
  forallb (runs_none_of []) entries = true.
Proof.
  induction entries as [|e entries IH]; [reflexivity|]. simpl. rewrite IH.
  unfold runs_none_of. now destruct (entry_obj e).
Qed.

Lemma render_contents_brackets_figures {X : Externals} (fuel : nat) :
  forall (self : PDFPageInterpreter) (res streams : PDFObj) (m : Matrix)
         (s' : PDFPageInterpreter),
    render_contents fuel self res streams m = Ok s' ->
    exists calls,
      device s' = (device self ++ set_ctm m :: calls)%list /\ bracketed calls.
Proof.
  induction fuel as [|fuel IH]; intros self res streams m s' H;
    [discriminate|].
  cbn [render_contents] in H.
  destruct (init_resources fuel res self) as [s0| |] eqn:H0; try discriminate.
  cbn [bind] in H.
  destruct (list_value streams) as [l| |]; try discriminate.
  cbn [bind] in H.
  destruct (init_resources_frame _ _ _ _ H0) as [Hdev _].
  destruct (init_state_tells_the_ctm m s0) as (_ & _ & _ & Hd).
  destruct (nextobjects l) as [entries final] eqn:Hn.
  assert (Hg : grows_bracketed (device (init_state m s0)) (device s')).
  { refine (execute_keeps_invariant (render_contents fuel)
              (fun s => grows_bracketed (device (init_state m s0)) (device s))
              [] _ _ l entries final Hn (runs_none_of_nothing entries)
              (init_state m s0) s' (grows_refl _) H).
    - intros args s Hs. exact Hs.
    - intros method func Hin _ args s s1.
      apply (methods_bracket_figures (render_contents fuel) _ method func);
        [|exact Hin].
      intros s2 r st m2 s3 Hr. apply IH in Hr.
      destruct Hr as (calls & -> & Hc). exists (set_ctm m2 :: calls).
      split; [reflexivity | now constructor]. }
  destruct Hg as (calls & -> & Hc). exists calls.
  split; [|exact Hc]. rewrite Hd, Hdev, <- app_assoc. reflexivity.
Qed.

(** The device sees a page as [begin_page], [set_ctm] with the same
    matrix, the calls of the content, and [end_page]; and whenever
    [process_page] returns, the figures of the content are bracketed: every
    [begin_figure] has its [end_figure] of the same name, nested as the
    XObjects are, however deep the forms go. *)
Theorem process_page_brackets_figures {X : Externals} (fuel : nat)
    (page : PDFPage) (self s' : PDFPageInterpreter) :
  process_page fuel page self = Ok s' ->
  exists m calls,
    device s'
    = (device self ++ begin_page page m :: set_ctm m :: calls
         ++ [end_page page])%list
    /\ bracketed calls.
Proof.
  intros H. unfold process_page in H.
  destruct (mediabox page) as [[[x0 y0] x1] y1].
  match type of H with
  | bind ?c _ = _ => destruct c as [m| |]; try discriminate
  end.
  cbn [bind] in H.
  match type of H with
  | bind ?c _ = _ => destruct c as [s1| |] eqn:Hr; try discriminate
  end.
  cbn [bind] in H. injection H as <-.
  apply render_contents_brackets_figures in Hr.
  destruct Hr as (calls & Hd & Hc). exists m, calls. split; [|exact Hc].
  cbn [device call_device] in *. rewrite Hd, <- !app_assoc. reflexivity.
Qed.

Lemma process_page_brackets_figures_witness :
  let form :=
    mkStream
      [ ("Subtype", OLit "Form");
        ("BBox", OArr [OInt 0; OInt 0; OInt 100; OInt 100]) ]
      EmptyString in
  let page :=
    mkPage (OInt 0, OInt 0, OInt 612, OInt 792) (OInt 0)
      (ODict [("XObject", ODict [("X1", stream_obj form)])])
      (OArr [OStream [] example_form_content]) in
  exists s' m calls,
    @process_page lenient_with_form 2 page fresh_interpreter = Ok s'
    /\ device s'
       = (begin_page page m :: set_ctm m :: calls ++ [end_page page])%list
    /\ bracketed calls.
Proof.
  intros form page.
  destruct (@process_page lenient_with_form 2 page fresh_interpreter)
    as [s'| e |] eqn:E;
    [| vm_compute in E; discriminate E | vm_compute in E; discriminate E].
  destruct (@process_page_brackets_figures lenient_with_form 2 page
              fresh_interpreter s' E) as (m & calls & Hd & Hc).
  exists s', m, calls. split; [reflexivity|]. split; [exact Hd | exact Hc].
Defined.

(** ** An inline image and the device *)

(** What the interpreter does with the two entries the parser pushes for
    an inline image, the stream and [EI]: with both [W] and [H] in the
    dictionary the image goes to the device inside a figure of its own;
    otherwise (so also when the size is spelled [Width] and [Height])
    nothing is called and nothing is raised, in strict mode either.  The
    operand stack is as before in both cases. *)
Theorem inline_image_needs_W_and_H {X : Externals} rc (p q : Z)
    (d : list (string * PDFObj)) (data : string) (self : PDFPageInterpreter) :
  let image := mkStream d data in
  execute_entries rc [Entry2 p (OStream d data); Entry2 q KEYWORD_EI] self
  = Ok (if dict_contains "W" d && dict_contains "H" d
        then call_device (end_figure (FigId image))
               (call_device (render_image (FigId image) image)
                  (call_device
                     (begin_figure (FigId image) UNIT_BBOX
                        (matrix_list MATRIX_IDENTITY))
                     self))
        else self).
Proof.
  intros image. cbn [execute_entries execute_entry bind KEYWORD_EI].
  change (keyword_name "EI") with "EI".
  rewrite (execute_keyword_call rc "EI" ONone (Method1 do_EI)
             [OStream d data] (argstack self) (push (OStream d data) self)
             eq_refl eq_refl eq_refl ltac:(discriminate) eq_refl).
  cbn [call_method do_EI bind]. unfold push, image.
  destruct (dict_contains "W" d && dict_contains "H" d);
    destruct self; reflexivity.
Qed.

(** ** The color space a page starts in *)

(** The stroking and the nonstroking color space a rendering starts in are
    the one that [csmap] binds to the first name of the predefined table:
    the resources of the page can give that name another color space, they
    cannot make another name the first.  Without resources it is the
    predefined one. *)
Theorem page_starts_in_the_first_colorspace {X : Externals} (fuel : nat)
    (self c1 : PDFPageInterpreter) (res : PDFObj) (m : Matrix) (k0 : string)
    (v0 : PDFColorSpace) (rest : list (string * PDFColorSpace)) :
  PREDEFINED_COLORSPACE = (k0, v0) :: rest ->
  init_resources fuel res self = Ok c1 ->
  exists cs,
    dict_get k0 (csmap c1) = Some cs
    /\ scs (init_state m c1) = Some cs
    /\ ncs (init_state m c1) = Some cs
    /\ (py_truthy res = false -> cs = v0).
Proof.
  intros Hpre H.
  assert (Hhead : exists v tl, csmap c1 = (k0, v) :: tl).
  { refine (init_resources_pred (fun d => exists v tl, d = (k0, v) :: tl)
              _ fuel res self c1 H _).
    - intros k v d (v1 & tl & ->). simpl.
      destruct (String.eqb k k0); eauto.
    - rewrite Hpre. eauto. }
  destruct Hhead as (v & tl & Hcs). exists v.
  split; [rewrite Hcs; simpl; now rewrite String.eqb_refl|].
  unfold init_state.
  destruct c1 as [? ? ? ? ? cm ? ? ? ? ? ? ? ?]. cbn in Hcs. subst cm. cbn.
  split; [reflexivity|]. split; [reflexivity|].
  intros Hres. unfold init_resources in H. rewrite Hres in H. cbn in H.
  rewrite Hpre in H. now injection H.
Qed.

Lemma page_starts_in_the_first_colorspace_witness :
  let gray4 := mkColorSpace "DeviceN" (OInt 2) in
  let res :=
    ODict [("ColorSpace",
            ODict [("DeviceGray", OArr [OLit "DeviceN"; OArr [ONone; ONone]])])] in
  exists c1,
    @init_resources lenient 1 res fresh_interpreter = Ok c1
    /\ scs (@init_state MATRIX_IDENTITY c1) = Some gray4
    /\ dict_get "DeviceGray" (csmap c1) = Some gray4.
Proof.
  intros gray4 res.
  destruct (@init_resources lenient 1 res fresh_interpreter)
    as [c1| e |] eqn:E;
    [| vm_compute in E; discriminate E | vm_compute in E; discriminate E].
  destruct (@page_starts_in_the_first_colorspace lenient 1 fresh_interpreter
              c1 res MATRIX_IDENTITY "DeviceGray"
              (mkColorSpace "DeviceGray" (OInt 1)) _ eq_refl E)
    as (cs & Hg & Hs & _ & _).
  exists c1. split; [reflexivity|].
  assert (Hcs : cs = gray4).
  { vm_compute in E. injection E as <-. vm_compute in Hg.
    now injection Hg as <-. }
  rewrite <- Hcs. split; assumption.
Defined.
